(** * Slack socket mode: RFC 6455 frame codec and session supervisor

    A shallow embedding of [pkg/apis/slack]: the websocket frame codec
    ([readFrame], [readPayloadLength], [buildClientFrame], [writeFrame],
    [readMessage]), the handshake deadline of [websocketClientHandshake], and
    the socket mode supervisor ([RunWithHandler], [processConnection],
    [waitReconnect]).

    Conventions.
    - A Go [byte] is a [Z] in [0, 256); [int] is the 64-bit [int] of the
      platforms the package is built for; conversions such as [byte(x)] and
      [uint16(x)] are written out as the wrap-around they perform.
    - A Go [string] is a [string]: a sequence of 8-bit characters.
    - A Go [error] is a value of [error]; [fmt.Errorf] with [%w] is
      [wrapError], and [errors.Is] walks the chain of wrapped errors.
    - Stateful code is a function on an explicit state; a loop without a bound
      takes a fuel argument and returns [None] when the fuel runs out. *)

From Stdlib Require Import ZArith List Lia Bool String Ascii.
From stdpp Require Import base gmap strings list.
Import ListNotations.

Local Open Scope Z_scope.

(** ** Errors *)

Inductive error : Type :=
| Canceled                              (* context.Canceled *)
| DeadlineExceeded                      (* context.DeadlineExceeded *)
| EOF                                   (* io.EOF *)
| ErrUnexpectedEOF                      (* io.ErrUnexpectedEOF *)
| ErrClosedPipe                         (* io.ErrClosedPipe *)
| ErrFrameTooLarge (payloadLen : Z)     (* "slack: websocket frame too large: %d" *)
| ErrUnsupportedOpcode (opcode : Z)     (* "slack: unsupported websocket opcode=%d" *)
| errorString (msg : string)            (* errors.New(msg) *)
| wrapError (msg : string) (inner : error). (* fmt.Errorf(msg + ": %w", inner) *)

Fixpoint error_eqb (a b : error) : bool :=
  match a, b with
  | Canceled, Canceled | DeadlineExceeded, DeadlineExceeded
  | EOF, EOF | ErrUnexpectedEOF, ErrUnexpectedEOF
  | ErrClosedPipe, ErrClosedPipe => true
  | ErrFrameTooLarge n, ErrFrameTooLarge m => n =? m
  | ErrUnsupportedOpcode n, ErrUnsupportedOpcode m => n =? m
  | errorString s, errorString t => String.eqb s t
  | wrapError s x, wrapError t y => String.eqb s t && error_eqb x y
  | _, _ => false
  end.

(** [errors.Is(err, target)]: [err] or an error it wraps is [target]. *)
Fixpoint errors_Is (err target : error) : bool :=
  error_eqb err target ||
  match err with
  | wrapError _ inner => errors_Is inner target
  | _ => false
  end.

(** ** Constants of the frame codec *)

Definition webSocketHandshakeTimeout : Z := 10 * 1000000000. (* time.Duration, ns *)
Definition maxWebSocketFrameSize : Z := Z.shiftl 32 20.

Definition wsOpcodeContinuation : Z := 0x0.
Definition wsOpcodeText : Z := 0x1.
Definition wsOpcodeBinary : Z := 0x2.
Definition wsOpcodeClose : Z := 0x8.
Definition wsOpcodePing : Z := 0x9.
Definition wsOpcodePong : Z := 0xA.

(** ** Integer conversions and [encoding/binary] *)

Definition byte_of (v : Z) : Z := Z.land v 0xFF.       (* byte(v) *)
Definition uint16 (v : Z) : Z := v mod 2 ^ 16.         (* uint16(v) *)
Definition uint64 (v : Z) : Z := v mod 2 ^ 64.         (* uint64(v) *)
Definition maxInt : Z := Z.shiftr (2 ^ 64 - 1) 1.      (* ^uint(0) >> 1 *)

Definition is_byte (b : Z) : Prop := 0 <= b < 256.

Definition at_ (b : list Z) (i : nat) : Z := nth i b 0.

(** [binary.BigEndian.PutUint16], [Uint16], [PutUint64], [Uint64]. *)
Definition PutUint16 (v : Z) : list Z :=
  [byte_of (Z.shiftr v 8); byte_of v].

Definition Uint16 (b : list Z) : Z :=
  Z.lor (at_ b 1) (Z.shiftl (at_ b 0) 8).

Definition PutUint64 (v : Z) : list Z :=
  [byte_of (Z.shiftr v 56); byte_of (Z.shiftr v 48); byte_of (Z.shiftr v 40);
   byte_of (Z.shiftr v 32); byte_of (Z.shiftr v 24); byte_of (Z.shiftr v 16);
   byte_of (Z.shiftr v 8); byte_of v].

Definition Uint64 (b : list Z) : Z :=
  Z.lor (Z.lor (Z.lor (Z.lor (Z.lor (Z.lor (Z.lor
    (at_ b 7)
    (Z.shiftl (at_ b 6) 8))
    (Z.shiftl (at_ b 5) 16))
    (Z.shiftl (at_ b 4) 24))
    (Z.shiftl (at_ b 3) 32))
    (Z.shiftl (at_ b 2) 40))
    (Z.shiftl (at_ b 1) 48))
    (Z.shiftl (at_ b 0) 56).

(** The masking loop shared by both directions:
    [for i := range payload { payload[i] ^= mask[i%4] }]. *)
Fixpoint xorMask (mask : list Z) (i : nat) (payload : list Z) : list Z :=
  match payload with
  | [] => []
  | b :: rest => Z.lxor b (at_ mask (i mod 4)) :: xorMask mask (S i) rest
  end.

(** ** The connection state

    [netConn] is the [net.Conn] under the websocket: what has been written to
    it, one entry per [Write] call, and the outcome of the writes to come
    (a missing entry is a successful write).  [websocketConn] adds the bytes
    the buffered reader will still deliver, the error the transport reports
    once they are used up ([io.EOF] for a closed stream), and the bytes
    [crypto/rand] will hand out. *)

Record netConn : Type := {
  written : list (list Z);
  writeResults : list (option error)
}.

Record websocketConn : Type := {
  conn : option netConn;     (* nil after Close *)
  reader : list Z;
  readerErr : error;
  entropy : list Z
}.

Definition set_reader (c : websocketConn) (r : list Z) : websocketConn :=
  {| conn := conn c; reader := r; readerErr := readerErr c; entropy := entropy c |}.

Definition set_conn (c : websocketConn) (n : option netConn) : websocketConn :=
  {| conn := n; reader := reader c; readerErr := readerErr c; entropy := entropy c |}.

Definition set_entropy (c : websocketConn) (e : list Z) : websocketConn :=
  {| conn := conn c; reader := reader c; readerErr := readerErr c; entropy := e |}.

(** A state-and-error monad over the connection. *)
Definition result (A : Type) : Type := (A + error)%type.
Definition M (A : Type) : Type := websocketConn -> result A * websocketConn.

Definition ret {A} (a : A) : M A := fun c => (inl a, c).
Definition fail {A} (e : error) : M A := fun c => (inr e, c).
Definition bind {A B} (m : M A) (k : A -> M B) : M B :=
  fun c => match m c with
           | (inl a, c') => k a c'
           | (inr e, c') => (inr e, c')
           end.

Notation "x <~ m ;;; k" := (bind m (fun x => k))
  (at level 200, m at level 99, k at level 200, only parsing).

(** [io.ReadFull(c.reader, buf)] with [len(buf) = n]: the next [n] bytes, or
    the transport's error when the stream ends first ([io.ErrUnexpectedEOF]
    when it ends with [io.EOF] after at least one byte). *)
Definition ReadFull (n : nat) : M (list Z) := fun c =>
  if (n <=? length (reader c))%nat
  then (inl (firstn n (reader c)), set_reader c (skipn n (reader c)))
  else (inr (match reader c, readerErr c with
             | _ :: _, EOF => ErrUnexpectedEOF
             | _, e => e
             end), set_reader c []).

(** [rand.Read(buf)] with [len(buf) = n].  The source failing is the pool
    running short: the call returns an error and has used up what the source
    still gave.  From Go 1.24 on [crypto/rand.Read] returns no error, the
    process ending instead, and this branch is never taken. *)
Definition rand_Read (n : nat) (pool : list Z) : result (list Z) * list Z :=
  if (n <=? length pool)%nat
  then (inl (firstn n pool), skipn n pool)
  else (inr (errorString "entropy source unavailable"), []).

(** ** Decoding *)

Definition readPayloadLength (base : Z) : M Z :=
  if base =? 126 then
    extended <~ ReadFull 2 ;;;
    ret (Uint16 extended)
  else if base =? 127 then
    extended <~ ReadFull 8 ;;;
    let length := Uint64 extended in
    if length >? uint64 maxInt
    then fail (errorString "slack: websocket payload length overflow")
    else ret length
  else ret base.

Definition readFrame : M (Z * bool * list Z) :=
  header <~ ReadFull 2 ;;;
  let fin := negb (Z.land (at_ header 0) 0x80 =? 0) in
  let opcode := Z.land (at_ header 0) 0x0F in
  let maskBit := negb (Z.land (at_ header 1) 0x80 =? 0) in
  payloadLen <~ readPayloadLength (Z.land (at_ header 1) 0x7F) ;;;
  if payloadLen >? maxWebSocketFrameSize then fail (ErrFrameTooLarge payloadLen)
  else
    mask <~ (if maskBit then ReadFull 4 else ret [0; 0; 0; 0]) ;;;
    payload <~ (if payloadLen >? 0 then ReadFull (Z.to_nat payloadLen) else ret []) ;;;
    ret (opcode, fin, if maskBit then xorMask mask 0 payload else payload).

(** ** Encoding *)

Definition buildClientFrame (opcode : Z) (payload : list Z) (pool : list Z)
  : result (list Z) * list Z :=
  let payloadLen := Z.of_nat (length payload) in
  let head :=
    [Z.lor 0x80 opcode] ++
    (if payloadLen <? 126 then [Z.lor (byte_of payloadLen) 0x80]
     else if payloadLen <=? 0xFFFF then [Z.lor 126 0x80] ++ PutUint16 (uint16 payloadLen)
     else [Z.lor 127 0x80] ++ PutUint64 (uint64 payloadLen)) in
  match rand_Read 4 pool with
  | (inr err, pool') => (inr (wrapError "slack: generate websocket mask" err), pool')
  | (inl mask, pool') => (inl (head ++ mask ++ xorMask mask 0 payload), pool')
  end.

Definition writeFrame (opcode : Z) (payload : list Z) : M unit := fun c =>
  match conn c with
  | None => (inr ErrClosedPipe, c)
  | Some nc =>
      match buildClientFrame opcode payload (entropy c) with
      | (inr err, pool') => (inr err, set_entropy c pool')
      | (inl frame, pool') =>
          let c' := set_entropy c pool' in
          match writeResults nc with
          | Some err :: later =>
              (inr (wrapError "slack: write websocket frame" err),
               set_conn c' (Some {| written := written nc; writeResults := later |}))
          | _ =>
              (inl tt,
               set_conn c' (Some {| written := written nc ++ [frame];
                                    writeResults := tl (writeResults nc) |}))
          end
      end
  end.

(** ** Reassembling messages

    The [for] loop of [readMessage], with its two locals [buffer] and
    [expectContinuation] as arguments. *)
Fixpoint readMessage_loop (fuel : nat) (buffer : list Z) (expectContinuation : bool)
    (c : websocketConn) : option (result (list Z) * websocketConn) :=
  match fuel with
  | O => None
  | S fuel =>
      match readFrame c with
      | (inr err, c1) => Some (inr err, c1)
      | (inl (opcode, fin, payload), c1) =>
          if (opcode =? wsOpcodeText) || (opcode =? wsOpcodeBinary) then
            if expectContinuation
            then Some (inr (errorString "slack: unexpected websocket data frame"), c1)
            else if fin then Some (inl payload, c1)
            else readMessage_loop fuel (buffer ++ payload) true c1
          else if opcode =? wsOpcodeContinuation then
            if negb expectContinuation
            then Some (inr (errorString "slack: unexpected websocket continuation frame"), c1)
            else if fin then Some (inl (buffer ++ payload), c1)
            else readMessage_loop fuel (buffer ++ payload) expectContinuation c1
          else if opcode =? wsOpcodePing then
            match writeFrame wsOpcodePong payload c1 with
            | (inr err, c2) => Some (inr err, c2)
            | (inl _, c2) => readMessage_loop fuel buffer expectContinuation c2
            end
          else if opcode =? wsOpcodePong then
            readMessage_loop fuel buffer expectContinuation c1
          else if opcode =? wsOpcodeClose then Some (inr EOF, c1)
          else Some (inr (ErrUnsupportedOpcode opcode), c1)
      end
  end.

(** Every frame takes at least its two header bytes from the reader, so one
    unit of fuel per pending byte (and one more) is never used up. *)
Definition readMessage (c : websocketConn) : option (result (list Z) * websocketConn) :=
  readMessage_loop (S (length (reader c))) [] false c.

(** The loop with the fuel [readMessage] gives it. *)
Definition readMessage_from (buffer : list Z) (expect : bool) (c : websocketConn) :=
  readMessage_loop (S (length (reader c))) buffer expect c.

(** ** Auxiliary notions used to state the codec's properties *)

(** What the encoder lays out, by length class. *)
Definition lengthField (payloadLen : Z) : list Z :=
  if payloadLen <? 126 then []
  else if payloadLen <=? 0xFFFF then PutUint16 (uint16 payloadLen)
  else PutUint64 (uint64 payloadLen).

(** The number of bytes of the extended length field for a payload of
    [payloadLen] bytes. *)
Definition extendedLengthBytes (payloadLen : Z) : Z :=
  if payloadLen <? 126 then 0 else if payloadLen <=? 0xFFFF then 2 else 8.

(** [decodes c frames c']: reading from [c], [readFrame] returns [frames] one
    after the other and leaves the connection as [c']. *)
Fixpoint decodes (c : websocketConn) (frames : list (Z * bool * list Z))
    (c' : websocketConn) : Prop :=
  match frames with
  | [] => c' = c
  | f :: later => exists c1, readFrame c = (inl f, c1) /\ decodes c1 later c'
  end.

(** The non-final continuation frames carrying [payloads]. *)
Definition continuations (payloads : list (list Z)) : list (Z * bool * list Z) :=
  map (fun p => (wsOpcodeContinuation, false, p)) payloads.

Definition isDataOpcode (opcode : Z) : Prop :=
  opcode = wsOpcodeText \/ opcode = wsOpcodeBinary.

(** The next [Write] on the transport succeeds. *)
Definition nextWriteSucceeds (nc : netConn) : bool :=
  match writeResults nc with
  | Some _ :: _ => false
  | _ => true
  end.

(** An open connection with [bytes] pending on its reader and [pool] as the
    entropy still to be handed out; used for examples. *)
Definition idleConn (bytes pool : list Z) : websocketConn :=
  {| conn := Some {| written := []; writeResults := [] |};
     reader := bytes; readerErr := EOF; entropy := pool |}.

(** [m] touches nothing but the reader, and takes at least [k] bytes from it
    when it succeeds. *)
Definition consumes {A} (k : nat) (m : M A) : Prop :=
  forall c a c', m c = (inl a, c') ->
    c' = set_reader c (reader c') /\ (length (reader c') + k <= length (reader c))%nat.

(** * Socket mode *)

(** ** [strings.TrimSpace]

    A Go string is a sequence of bytes; [TrimSpace] removes the leading and
    trailing runes for which [unicode.IsSpace] holds.  [utf8Spaces] lists the
    UTF-8 encodings of these runes: the six ASCII ones, U+0085, U+00A0,
    U+1680, U+2000 to U+200A, U+2028, U+2029, U+202F, U+205F and U+3000. *)

Definition utf8Spaces : list (list ascii) :=
  map (map ascii_of_N)
    [[0x09]; [0x0A]; [0x0B]; [0x0C]; [0x0D]; [0x20];
     [0xC2; 0x85]; [0xC2; 0xA0]; [0xE1; 0x9A; 0x80];
     [0xE2; 0x80; 0x80]; [0xE2; 0x80; 0x81]; [0xE2; 0x80; 0x82]; [0xE2; 0x80; 0x83];
     [0xE2; 0x80; 0x84]; [0xE2; 0x80; 0x85]; [0xE2; 0x80; 0x86]; [0xE2; 0x80; 0x87];
     [0xE2; 0x80; 0x88]; [0xE2; 0x80; 0x89]; [0xE2; 0x80; 0x8A];
     [0xE2; 0x80; 0xA8]; [0xE2; 0x80; 0xA9]; [0xE2; 0x80; 0xAF];
     [0xE2; 0x81; 0x9F]; [0xE3; 0x80; 0x80]]%N.

(** [stripPrefix p s]: [s] without its prefix [p], when it starts with [p]. *)
Fixpoint stripPrefix (p s : list ascii) : option (list ascii) :=
  match p, s with
  | [], _ => Some s
  | a :: p', b :: s' => if Ascii.eqb a b then stripPrefix p' s' else None
  | _ :: _, [] => None
  end.

(** [s] without one leading rune out of [runes], if it starts with one. *)
Fixpoint stripRune (runes : list (list ascii)) (s : list ascii) : option (list ascii) :=
  match runes with
  | [] => None
  | r :: later =>
      match stripPrefix r s with
      | Some rest => Some rest
      | None => stripRune later s
      end
  end.

Fixpoint trimLeading (fuel : nat) (runes : list (list ascii)) (s : list ascii) : list ascii :=
  match fuel with
  | O => s
  | S fuel =>
      match stripRune runes s with
      | Some rest => trimLeading fuel runes rest
      | None => s
      end
  end.

Definition trimLeft (s : list ascii) : list ascii :=
  trimLeading (length s) utf8Spaces s.

(** Trailing runes are the leading runes of the reversed string, read backwards. *)
Definition trimRight (s : list ascii) : list ascii :=
  rev (trimLeading (length s) (map (@rev ascii) utf8Spaces) (rev s)).

Definition TrimSpace (s : string) : string :=
  string_of_list_ascii (trimRight (trimLeft (list_ascii_of_string s))).

(** ** Events, responses and acknowledgements *)

(** A value of Go's [any] as the acknowledgement carries it: the nil
    interface, a string, or some other value given by its JSON encoding. *)
Inductive any : Type :=
| anyNil
| anyString (s : string)
| anyValue (json : string).

Record SocketModeEvent : Type := {
  Type_ : string;
  EnvelopeID : string;
  AcceptsResponsePayload : bool;
  Payload : string;                  (* json.RawMessage *)
  RetryAttempt : Z;
  RetryReason : string
}.

Record SocketModeResponse : Type := { ResponsePayload : any }.

(** [HandleEvent] returns a response pointer and an error, either of which can
    be nil. *)
Definition SocketModeHandler : Type :=
  SocketModeEvent -> option SocketModeResponse * option error.

(** What [c.logger.Printf] is called with. *)
Inductive logLine : Type :=
| logDialFailed (err : error)        (* "slack socket mode: dial failed: %v" *)
| logConnectionEnded (err : error)   (* "slack socket mode: connection ended: %v" *)
| logHandlerError (err : error).     (* "slack socket mode: handler error: %v" *)

(** [SocketModeConn]: the connection as the supervisor sees it. *)
Class SocketModeConn (C : Type) : Type := {
  ReadJSON : C -> result SocketModeEvent * C;
  WriteJSON : gmap string any -> C -> option error * C;
  Close : C -> option error * C
}.

(** The test double [fakeSocketModeConn], with scripted failures added: the
    reads the connection will deliver, one entry per [ReadJSON] call (a
    decoded event or the error of that call), the error every read returns
    once the script is used up ([io.EOF] in the double), the acknowledgements
    written so far, and the outcome of the writes to come (a missing entry is
    a successful write). *)
Record scriptedConn : Type := {
  reads : list (result SocketModeEvent);
  readsEnd : error;
  writes : list (gmap string any);
  writeOutcomes : list (option error);
  closed : bool
}.

Definition scripted_ReadJSON (c : scriptedConn) : result SocketModeEvent * scriptedConn :=
  match reads c with
  | [] => (inr (readsEnd c), c)
  | r :: later =>
      (r, {| reads := later; readsEnd := readsEnd c; writes := writes c;
             writeOutcomes := writeOutcomes c; closed := closed c |})
  end.

Definition scripted_WriteJSON (v : gmap string any) (c : scriptedConn)
  : option error * scriptedConn :=
  match writeOutcomes c with
  | Some err :: later =>
      (Some err, {| reads := reads c; readsEnd := readsEnd c; writes := writes c;
                    writeOutcomes := later; closed := closed c |})
  | _ =>
      (None, {| reads := reads c; readsEnd := readsEnd c; writes := writes c ++ [v];
                writeOutcomes := tl (writeOutcomes c); closed := closed c |})
  end.

Definition scripted_Close (c : scriptedConn) : option error * scriptedConn :=
  (None, {| reads := reads c; readsEnd := readsEnd c; writes := writes c;
            writeOutcomes := writeOutcomes c; closed := true |}).

#[export] Instance scriptedConn_SocketModeConn : SocketModeConn scriptedConn := {
  ReadJSON := scripted_ReadJSON;
  WriteJSON := scripted_WriteJSON;
  Close := scripted_Close
}.

(** ** The client and its context *)

Record SocketModeClient : Type := {
  appToken : string;
  baseURL : option string;      (* nil when the configured URL did not parse *)
  transport : bool;             (* c.transport != nil *)
  dialer : bool;                (* c.dialer != nil *)
  reconnectDelay : Z;           (* time.Duration, ns *)
  logger : bool                 (* c.logger != nil *)
}.

(** A [context.Context] on a clock counted in nanoseconds: the instant its
    [Done] channel closes (if ever), the error [Err] reports from then on, and
    the deadline [Deadline] reports. *)
Record Context : Type := {
  doneAt : option Z;
  doneErr : error;
  ctxDeadline : option Z
}.

Definition ctx_Err (ctx : Context) (now : Z) : option error :=
  match doneAt ctx with
  | Some d => if d <=? now then Some (doneErr ctx) else None
  | None => None
  end.

Definition printf (c : SocketModeClient) (log : list logLine) (l : logLine) : list logLine :=
  if logger c then log ++ [l] else log.

(** ** The handshake deadline

    The first statements of [websocketClientHandshake]: the deadline set on
    the connection for the upgrade exchange that starts at [now]. *)
Definition websocketClientHandshake_deadline (now : Z) (ctx : Context) : Z :=
  let deadline := now + webSocketHandshakeTimeout in
  match ctxDeadline ctx with
  | Some d => d
  | None => deadline
  end.

(** ** The processing loop *)

Section Supervisor.

Context {C : Type} `{SocketModeConn C}.

(** The acknowledgement [processConnection] builds for [event]. *)
Definition buildAck (event : SocketModeEvent) (response : option SocketModeResponse)
  : gmap string any :=
  let ack : gmap string any := {[ "envelope_id" := anyString (EnvelopeID event) ]} in
  match response with
  | Some r => if AcceptsResponsePayload event
              then <[ "payload" := ResponsePayload r ]> ack
              else ack
  | None => ack
  end.

(** The dispatch step of the loop: [response] stays nil without a handler
    and when the handler returns an error, which is logged and dropped. *)
Definition dispatch (c : SocketModeClient) (handler : option SocketModeHandler)
    (event : SocketModeEvent) (log : list logLine)
  : option SocketModeResponse * list logLine :=
  match handler with
  | None => (None, log)
  | Some h =>
      match h event with
      | (_, Some err) => (None, printf c log (logHandlerError err))
      | (handlerResponse, None) => (handlerResponse, log)
      end
  end.

(** The [for] loop of [processConnection].  The goroutine that closes the
    connection when the context is done is not part of the embedding: what it
    causes is a read that fails, which is the connection's to report. *)
Fixpoint processConnection (fuel : nat) (c : SocketModeClient)
    (handler : option SocketModeHandler) (conn : C) (log : list logLine)
  : option (error * C * list logLine) :=
  match fuel with
  | O => None
  | S fuel =>
      match ReadJSON conn with
      | (inr err, conn1) => Some (err, conn1, log)
      | (inl event, conn1) =>
          let '(response, log1) := dispatch c handler event log in
          if String.eqb (TrimSpace (EnvelopeID event)) ""
          then processConnection fuel c handler conn1 log1
          else
            match WriteJSON (buildAck event response) conn1 with
            | (Some err, conn2) => Some (err, conn2, log1)
            | (None, conn2) => processConnection fuel c handler conn2 log1
            end
      end
  end.

(** ** Waiting before a reconnect

    [waitReconnect] entered at [now].  With a positive delay the [select]
    takes whichever of [ctx.Done()] and the timer is ready first; when both
    become ready at the same instant the runtime picks one, and [timerWins]
    is that pick; the goroutine is taken to run at the instant the first of
    the two is ready.  The result is the error returned (if any) and the
    instant the call returns. *)
Definition waitReconnect (c : SocketModeClient) (ctx : Context) (now : Z)
    (timerWins : bool) : option error * Z :=
  if reconnectDelay c <=? 0 then (ctx_Err ctx now, now)
  else
    let fires := now + reconnectDelay c in
    match doneAt ctx with
    | None => (None, fires)
    | Some d =>
        if d <? fires then (Some (doneErr ctx), Z.max now d)
        else if (d =? fires) && negb timerWins then (Some (doneErr ctx), fires)
        else (None, fires)
    end.

(** ** The run loop

    One [attempt] is what the world does during one turn of the loop of
    [RunWithHandler] after the check of [ctx.Err()]: how long
    [openConnection] takes and what it returns, how long [Dial] takes and
    what it returns, how long the connection is processed, and the pick of
    the [select] in [waitReconnect]. *)
Record attempt : Type := {
  openTime : Z;
  openResult : result string;
  dialTime : Z;
  dialResult : result C;
  connTime : Z;
  timerWins : bool
}.

Definition isCancellation (err : error) : bool :=
  errors_Is err Canceled || errors_Is err DeadlineExceeded.

(** The [for] loop of [RunWithHandler]; the result is the error returned,
    the instant of the return and the log.  [None]: the loop is still running
    when the script of attempts or the fuel ends.  [processConnection] leaves
    its loop only with the error of a read or of a write, so the branch
    [err == nil] of the source is never taken and has no counterpart here. *)
Fixpoint RunWithHandler_loop (fuel : nat) (c : SocketModeClient) (ctx : Context)
    (handler : option SocketModeHandler) (attempts : list attempt)
    (now : Z) (log : list logLine) : option (error * Z * list logLine) :=
  match fuel with
  | O => None
  | S fuel =>
      match ctx_Err ctx now, attempts with
      | Some err, _ => Some (err, now, log)
      | None, [] => None
      | None, a :: later =>
          let now := now + openTime a in
          match openResult a with
          | inr err => Some (err, now, log)
          | inl socketURL =>
              let now := now + dialTime a in
              match dialResult a with
              | inr err =>
                  let log := printf c log (logDialFailed err) in
                  match waitReconnect c ctx now (timerWins a) with
                  | (Some waitErr, now) => Some (waitErr, now, log)
                  | (None, now) => RunWithHandler_loop fuel c ctx handler later now log
                  end
              | inl conn =>
                  match processConnection fuel c handler conn log with
                  | None => None
                  | Some (err, conn, log) =>
                      let now := now + connTime a in
                      let _ := Close conn in
                      if isCancellation err then Some (err, now, log)
                      else
                        match ctx_Err ctx now with
                        | Some ctxErr => Some (ctxErr, now, log)
                        | None =>
                            let log := printf c log (logConnectionEnded err) in
                            match waitReconnect c ctx now (timerWins a) with
                            | (Some waitErr, now) => Some (waitErr, now, log)
                            | (None, now) =>
                                RunWithHandler_loop fuel c ctx handler later now log
                            end
                        end
                  end
              end
          end
      end
  end.

Definition RunWithHandler (fuel : nat) (c : SocketModeClient) (ctx : option Context)
    (handler : option SocketModeHandler) (attempts : list attempt) (now : Z)
  : option (error * Z * list logLine) :=
  match ctx with
  | None => Some (errorString "slack: context is required", now, [])
  | Some ctx =>
      if String.eqb (TrimSpace (appToken c)) ""
      then Some (errorString "slack: app-level token is required", now, [])
      else if match baseURL c with None => true | Some _ => false end
      then Some (errorString "slack: socket mode base URL is invalid", now, [])
      else if negb (transport c)
      then Some (errorString "slack: socket mode transport is not configured", now, [])
      else if negb (dialer c)
      then Some (errorString "slack: socket mode dialer is not configured", now, [])
      else RunWithHandler_loop fuel c ctx handler attempts now []
  end.

End Supervisor.

(** ** Auxiliary notions used to state the supervisor's properties *)

(** [s] is made of white space only: a sequence of encoded space runes. *)
Definition onlySpaces (s : string) : Prop :=
  exists runes : list (list ascii),
    Forall (fun r => In r utf8Spaces) runes
    /\ list_ascii_of_string s = concat runes.

(** The static configuration [RunWithHandler] checks before its loop. *)
Definition configured (c : SocketModeClient) : Prop :=
  TrimSpace (appToken c) <> ""%string
  /\ baseURL c <> None /\ transport c = true /\ dialer c = true.

(** What the loop writes for one event it has read: [out] is the
    acknowledgement written, if any. *)
Definition acknowledged (handler : option SocketModeHandler) (event : SocketModeEvent)
    (out : option (gmap string any)) : Prop :=
  (is_Some out <-> TrimSpace (EnvelopeID event) <> ""%string)
  /\ forall ack, out = Some ack ->
       ack !! "envelope_id"%string = Some (anyString (EnvelopeID event))
       /\ (is_Some (ack !! "payload"%string) <->
           exists h r, handler = Some h /\ h event = (Some r, None)
                       /\ AcceptsResponsePayload event = true)
       /\ (forall h r, handler = Some h -> h event = (Some r, None) ->
                       AcceptsResponsePayload event = true ->
                       ack !! "payload"%string = Some (ResponsePayload r)).

(** A scripted connection that has nothing written yet and accepts every
    write; used for examples. *)
Definition freshConn (script : list (result SocketModeEvent)) (last : error) : scriptedConn :=
  {| reads := script; readsEnd := last; writes := []; writeOutcomes := []; closed := false |}.

Definition exampleClient : SocketModeClient :=
  {| appToken := "xapp-test"; baseURL := Some "https://slack.com/api";
     transport := true; dialer := true; reconnectDelay := 0; logger := true |}.

(** A handler that answers every event with the payload "done". *)
Definition answering : SocketModeHandler :=
  fun _ => (Some {| ResponsePayload := anyString "done" |}, None).

(** A handler that fails on every event. *)
Definition failing : SocketModeHandler :=
  fun _ => (None, Some (errorString "handler failed")).

(** The client of the examples with a reconnect delay of one second. *)
Definition patientClient : SocketModeClient :=
  {| appToken := "xapp-test"; baseURL := Some "https://slack.com/api";
     transport := true; dialer := true; reconnectDelay := 1000000000; logger := true |}.

(** A context that is never done, and one cancelled at instant [d]. *)
Definition background : Context :=
  {| doneAt := None; doneErr := Canceled; ctxDeadline := None |}.

Definition cancelledAt (d : Z) : Context :=
  {| doneAt := Some d; doneErr := Canceled; ctxDeadline := None |}.

(** An attempt that reaches [conn] after 5 ns of control-plane call and 7 ns
    of dialing and processes it for 100 ns; an attempt whose dial fails. *)
Definition connecting (conn : scriptedConn) : @attempt scriptedConn :=
  {| openTime := 5; openResult := inl "wss://socket.example/connection-1"%string;
     dialTime := 7; dialResult := inl conn; connTime := 100; timerWins := true |}.

Definition dialFailing : @attempt scriptedConn :=
  {| openTime := 5; openResult := inl "wss://socket.example/reconnect"%string;
     dialTime := 7; dialResult := inr (errorString "temporary dial failure");
     connTime := 0; timerWins := true |}.

Definition envelope (type id : string) (accepts : bool) : SocketModeEvent :=
  {| Type_ := type; EnvelopeID := id; AcceptsResponsePayload := accepts;
     Payload := "{}"; RetryAttempt := 0; RetryReason := "" |}.

(** * Further notions: the codec *)

(** [m] only reads: whatever it returns, it leaves the transport, the entropy
    and the transport's final error alone, and the reader no longer than it
    was. *)
Definition readsOnly {A} (m : M A) : Prop :=
  forall c r c', m c = (r, c') ->
    conn c' = conn c /\ entropy c' = entropy c /\ readerErr c' = readerErr c
    /\ exists used, reader c = used ++ reader c'.

(** [evolves c c']: [c'] is [c] after some reading and some writing: bytes
    have been taken from the front of the reader, frames have been added at
    the end of what is written, and the connection is closed in [c'] exactly
    if it is in [c]. *)
Definition evolves (c c' : websocketConn) : Prop :=
  readerErr c' = readerErr c
  /\ (exists used, reader c = used ++ reader c')
  /\ (exists extra,
        match conn c, conn c' with
        | Some nc, Some nc' => written nc' = written nc ++ extra
        | None, None => True
        | _, _ => False
        end).

(** [skipsControl c frames c']: reading from [c], [readFrame] returns the
    ping and pong frames [frames] one after the other, every ping is followed
    by a [writeFrame] of its pong that succeeds, and the connection is left
    as [c']. *)
Fixpoint skipsControl (c : websocketConn) (frames : list (Z * bool * list Z))
    (c' : websocketConn) : Prop :=
  match frames with
  | [] => c' = c
  | (opcode, fin, payload) :: later =>
      exists c1, readFrame c = (inl (opcode, fin, payload), c1)
      /\ ((opcode = wsOpcodePong /\ skipsControl c1 later c')
          \/ (opcode = wsOpcodePing
              /\ exists c2, writeFrame wsOpcodePong payload c1 = (inl tt, c2)
                            /\ skipsControl c2 later c'))
  end.

(** The payloads of the pings among [frames], in order. *)
Definition pingPayloads (frames : list (Z * bool * list Z)) : list (list Z) :=
  map (fun f => snd f) (List.filter (fun f => fst (fst f) =? wsOpcodePing) frames).

(** [frame] is what a peer decodes as a pong with FIN set and payload [X]. *)
Definition isPongFor (X frame : list Z) : Prop :=
  forall k rest,
    readFrame (set_reader k (frame ++ rest))
    = (inl (wsOpcodePong, true, X), set_reader k rest).

(** What has been written to the transport of [c]; nothing when it is closed. *)
Definition writtenOn (c : websocketConn) : list (list Z) :=
  match conn c with
  | Some nc => written nc
  | None => []
  end.

(** The seven-bit length code of the second header byte for a payload of
    [payloadLen] bytes. *)
Definition lengthCode (payloadLen : Z) : Z :=
  if payloadLen <? 126 then byte_of payloadLen
  else if payloadLen <=? 0xFFFF then 126 else 127.

(** An open connection on which [sent] has been written, with [bytes]
    pending on its reader and [pool] as entropy; used for examples. *)
Definition busyConn (sent : list (list Z)) (bytes pool : list Z) : websocketConn :=
  {| conn := Some {| written := sent; writeResults := [] |};
     reader := bytes; readerErr := EOF; entropy := pool |}.

(** Of a frame with a payload of [payloadLen] bytes, the first [k] bytes end
    exactly where one of its fields ends: before the header, after it, after
    the extended length or after the masking key. *)
Definition cutAtFieldBoundary (payloadLen k : Z) : bool :=
  (k =? 0) || (k =? 2) || (k =? 2 + extendedLengthBytes payloadLen)
  || (k =? 2 + extendedLengthBytes payloadLen + 4).

(** * The websocket connection as a [SocketModeConn]

    [ReadJSON], [WriteJSON] and [Close] of [websocketConn].  [encoding/json]
    is a parameter: [Marshal] and [Unmarshal] are [json.Marshal] and
    [json.Unmarshal] for the type of value at hand. *)

Section JSON.

Context {V W : Type}.
Variable Unmarshal : list Z -> result V.
Variable Marshal : W -> result (list Z).

Definition websocketConn_ReadJSON (c : websocketConn)
  : option (result V * websocketConn) :=
  match readMessage c with
  | None => None
  | Some (inr err, c') => Some (inr err, c')
  | Some (inl message, c') =>
      match Unmarshal message with
      | inr err => Some (inr (wrapError "slack: decode websocket message" err), c')
      | inl v => Some (inl v, c')
      end
  end.

Definition websocketConn_WriteJSON (v : W) : M unit := fun c =>
  match Marshal v with
  | inr err => (inr (wrapError "slack: encode websocket message" err), c)
  | inl payload => writeFrame wsOpcodeText payload c
  end.

End JSON.

(** [Close]: [closeResult] is what closing the transport returns. *)
Definition websocketConn_Close (closeResult : option error) (c : websocketConn)
  : option error * websocketConn :=
  match conn c with
  | None => (None, c)
  | Some _ => (closeResult, set_conn c None)
  end.

(** * Further notions: the supervisor *)

(** [Run]: the run loop without a handler. *)
Definition Run {C : Type} `{SocketModeConn C} (fuel : nat) (c : SocketModeClient)
    (ctx : option Context) (attempts : list (@attempt C)) (now : Z)
  : option (error * Z * list logLine) :=
  RunWithHandler fuel c ctx None attempts now.

(** The envelope is one the loop acknowledges. *)
Definition needsAck (event : SocketModeEvent) : bool :=
  negb (String.eqb (TrimSpace (EnvelopeID event)) "").

(** The acknowledgement that holds the envelope's id and nothing else. *)
Definition bareAck (event : SocketModeEvent) : gmap string any :=
  {[ "envelope_id"%string := anyString (EnvelopeID event) ]}.

(** An attempt in which the control plane answers and the dial fails, both in
    no negative time. *)
Definition dialFails {C : Type} (a : @attempt C) : Prop :=
  (exists url, openResult a = inl url) /\ (exists err, dialResult a = inr err)
  /\ 0 <= openTime a /\ 0 <= dialTime a.

(** The instant and the log after the attempts [failed], all of them failed
    dials, each followed by a full reconnect wait. *)
Definition afterRetries {C : Type} (c : SocketModeClient) (failed : list (@attempt C))
    (now : Z) (log : list logLine) : Z * list logLine :=
  fold_left
    (fun '(t, l) a =>
       (t + openTime a + dialTime a + Z.max 0 (reconnectDelay c),
        match dialResult a with
        | inr err => printf c l (logDialFailed err)
        | inl _ => l
        end))
    failed (now, log).

(** * Construction of the client *)

Definition defaultSocketModeReconnectDelay : Z := 1000000000. (* time.Second *)
Definition defaultBaseURL : string := "https://slack.com/api".

(** The fields of [url.URL] the package uses. *)
Record URL : Type := {
  Scheme : string;
  Host : string;
  Path : string;
  RawQuery : string;
  Fragment : string
}.

Record socketModeConfig : Type := {
  cfgAppToken : string;
  cfgBaseURL : string;
  cfgTransport : bool;          (* cfg.transport != nil *)
  cfgDialer : bool;             (* cfg.dialer != nil *)
  cfgReconnectDelay : Z;
  cfgLogger : bool              (* cfg.logger != nil *)
}.

(** A [SocketModeOption] is a function on the configuration, or nil. *)
Definition SocketModeOption : Type := option (socketModeConfig -> socketModeConfig).

Definition WithAppLevelToken (appToken : string) : SocketModeOption :=
  Some (fun cfg =>
    {| cfgAppToken := appToken; cfgBaseURL := cfgBaseURL cfg;
       cfgTransport := cfgTransport cfg; cfgDialer := cfgDialer cfg;
       cfgReconnectDelay := cfgReconnectDelay cfg; cfgLogger := cfgLogger cfg |}).

Definition WithSocketModeBaseURL (baseURL : string) : SocketModeOption :=
  Some (fun cfg =>
    {| cfgAppToken := cfgAppToken cfg; cfgBaseURL := baseURL;
       cfgTransport := cfgTransport cfg; cfgDialer := cfgDialer cfg;
       cfgReconnectDelay := cfgReconnectDelay cfg; cfgLogger := cfgLogger cfg |}).

(** [tr]: the transport given is not nil. *)
Definition WithSocketModeTransport (tr : bool) : SocketModeOption :=
  Some (fun cfg =>
    if tr then
      {| cfgAppToken := cfgAppToken cfg; cfgBaseURL := cfgBaseURL cfg;
         cfgTransport := true; cfgDialer := cfgDialer cfg;
         cfgReconnectDelay := cfgReconnectDelay cfg; cfgLogger := cfgLogger cfg |}
    else cfg).

(** [d]: the dialer given is not nil. *)
Definition WithSocketModeDialer (d : bool) : SocketModeOption :=
  Some (fun cfg =>
    if d then
      {| cfgAppToken := cfgAppToken cfg; cfgBaseURL := cfgBaseURL cfg;
         cfgTransport := cfgTransport cfg; cfgDialer := true;
         cfgReconnectDelay := cfgReconnectDelay cfg; cfgLogger := cfgLogger cfg |}
    else cfg).

Definition WithSocketModeReconnectDelay (delay : Z) : SocketModeOption :=
  Some (fun cfg =>
    {| cfgAppToken := cfgAppToken cfg; cfgBaseURL := cfgBaseURL cfg;
       cfgTransport := cfgTransport cfg; cfgDialer := cfgDialer cfg;
       cfgReconnectDelay := delay; cfgLogger := cfgLogger cfg |}).

Definition WithSocketModeLogger (l : bool) : SocketModeOption :=
  Some (fun cfg =>
    {| cfgAppToken := cfgAppToken cfg; cfgBaseURL := cfgBaseURL cfg;
       cfgTransport := cfgTransport cfg; cfgDialer := cfgDialer cfg;
       cfgReconnectDelay := cfgReconnectDelay cfg; cfgLogger := l |}).

(** The configuration after the loop over the options, nil ones skipped. *)
Definition applyOptions (opts : list SocketModeOption) : socketModeConfig :=
  fold_left
    (fun cfg opt => match opt with Some f => f cfg | None => cfg end)
    opts
    {| cfgAppToken := ""; cfgBaseURL := defaultBaseURL; cfgTransport := false;
       cfgDialer := false; cfgReconnectDelay := defaultSocketModeReconnectDelay;
       cfgLogger := false |}.

Section Construction.

(** [url.Parse]. *)
Variable url_Parse : string -> result URL.

(** The base URL is kept as the string it was parsed from. *)
Definition NewSocketModeClient (opts : list SocketModeOption) : SocketModeClient :=
  let cfg := applyOptions opts in
  let transport := if cfgTransport cfg then cfgTransport cfg else true in
  let dialer := if cfgDialer cfg then cfgDialer cfg else true in
  let parsedBaseURL :=
    match url_Parse (cfgBaseURL cfg) with
    | inr _ => None
    | inl u =>
        if String.eqb (Scheme u) "" || String.eqb (Host u) "" then None
        else Some (cfgBaseURL cfg)
    end in
  let reconnectDelay :=
    if cfgReconnectDelay cfg <? 0 then defaultSocketModeReconnectDelay
    else cfgReconnectDelay cfg in
  {| appToken := TrimSpace (cfgAppToken cfg);
     baseURL := parsedBaseURL;
     transport := transport;
     dialer := dialer;
     reconnectDelay := reconnectDelay;
     logger := cfgLogger cfg |}.

End Construction.

(** An example of [url.Parse]: it knows the default base URL and one with a
    trailing slash, and fails on everything else. *)
Definition exampleParse (s : string) : result URL :=
  if String.eqb s "https://slack.com/api" then
    inl {| Scheme := "https"; Host := "slack.com"; Path := "/api";
           RawQuery := ""; Fragment := "" |}
  else if String.eqb s "https://slack.example/api/" then
    inl {| Scheme := "https"; Host := "slack.example"; Path := "/api/";
           RawQuery := ""; Fragment := "" |}
  else inr (errorString "parse: invalid URL").

(** * Resolving a method URL

    [strings.TrimLeft] and [strings.TrimRight] for a cutset of ASCII
    characters, for which a rune is a byte. *)

Fixpoint inCutset (a : ascii) (cutset : string) : bool :=
  match cutset with
  | EmptyString => false
  | String b rest => Ascii.eqb a b || inCutset a rest
  end.

Fixpoint strings_TrimLeft (s cutset : string) : string :=
  match s with
  | EmptyString => EmptyString
  | String a rest => if inCutset a cutset then strings_TrimLeft rest cutset else s
  end.

Fixpoint strings_TrimRight (s cutset : string) : string :=
  match s with
  | EmptyString => EmptyString
  | String a rest =>
      match strings_TrimRight rest cutset with
      | EmptyString => if inCutset a cutset then EmptyString else String a EmptyString
      | kept => String a kept
      end
  end.

Definition resolveSlackMethodURL (base : option URL) (method : string) : result URL :=
  match base with
  | None => inr (errorString "slack: base URL is not configured")
  | Some endpoint =>
      let methodPath := TrimSpace method in
      if String.eqb methodPath "" then inr (errorString "slack: method path is required")
      else
        let basePath := strings_TrimRight (Path endpoint) "/" in
        let methodPath := strings_TrimLeft methodPath "/" in
        inl {| Scheme := Scheme endpoint;
               Host := Host endpoint;
               Path := if String.eqb basePath "" then "/" ++ methodPath
                       else basePath ++ "/" ++ methodPath;
               RawQuery := "";
               Fragment := "" |}
  end.

(** [n] slashes. *)
Fixpoint slashes (n : nat) : string :=
  match n with
  | O => EmptyString
  | S n => String "/" (slashes n)
  end.

(** [s] does not start, or does not end, with a slash. *)
Definition noLeadingSlash (s : string) : Prop := forall rest, s <> String "/" rest.
Definition noTrailingSlash (s : string) : Prop := forall front, s <> (front ++ "/")%string.

(** * The control-plane call

    [openConnection], with the HTTP exchange and [encoding/json] as
    parameters: [newRequest] is the error of [http.NewRequestWithContext] for
    the endpoint, if any; [do] is [c.transport.Do] followed by [io.ReadAll] of
    the body; [json_object], [json_bool] and [json_string] are
    [json.Unmarshal] into a map of raw messages, a [bool] and a [string]. *)

Record httpResponse : Type := {
  StatusCode : Z;
  Body : result string          (* what io.ReadAll(resp.Body) returns *)
}.

(** The errors of [openConnection]: an error value, the [*transport.APIError]
    of a status outside 2xx, or the [*Error] of a rejection by Slack. *)
Inductive openError : Type :=
| openFailed (err : error)
| openAPIError (status : Z)
| openSlackError (Code Needed Provided Warning : string).

Section ControlPlane.

Variable newRequest : URL -> option error.
Variable do : URL -> result httpResponse.
Variable json_object : string -> result (gmap string string).
Variable json_bool : string -> result bool.
Variable json_string : string -> result string.

Definition rawString (raw : gmap string string) (key : string) : string :=
  match raw !! key with
  | None => ""
  | Some value =>
      match json_string value with
      | inr _ => ""
      | inl s => s
      end
  end.

Definition parseSlackError (raw : gmap string string) : openError :=
  openSlackError (rawString raw "error") (rawString raw "needed")
    (rawString raw "provided") (rawString raw "warning").

(** [base] is [c.baseURL]. *)
Definition openConnection (base : option URL) : string + openError :=
  match resolveSlackMethodURL base "apps.connections.open" with
  | inr err => inr (openFailed err)
  | inl endpoint =>
      match newRequest endpoint with
      | Some err =>
          inr (openFailed (wrapError "slack: create apps.connections.open request" err))
      | None =>
          match do endpoint with
          | inr err => inr (openFailed err)
          | inl resp =>
              if (StatusCode resp <? 200) || (StatusCode resp >=? 300)
              then inr (openAPIError (StatusCode resp))
              else
                match Body resp with
                | inr err =>
                    inr (openFailed
                           (wrapError "slack: read apps.connections.open response" err))
                | inl body =>
                    if (String.length body =? 0)%nat
                    then inr (openFailed
                                (errorString "slack: empty apps.connections.open response"))
                    else
                      match json_object body with
                      | inr err =>
                          inr (openFailed
                                 (wrapError "slack: decode apps.connections.open response"
                                    err))
                      | inl raw =>
                          let rejected :=
                            match raw !! "ok"%string with
                            | Some okRaw =>
                                match json_bool okRaw with
                                | inl ok => negb ok
                                | inr _ => false
                                end
                            | None => false
                            end in
                          if rejected then inr (parseSlackError raw)
                          else
                            let socketURL := rawString raw "url" in
                            if String.eqb (TrimSpace socketURL) ""
                            then inr (openFailed
                                        (errorString
                                           "slack: apps.connections.open did not return socket URL"))
                            else inl socketURL
                      end
                end
          end
      end
  end.

End ControlPlane.

(** * The address [Dial] connects to

    The statements of [Dial] between the parsing of the URL and the opening
    of the TCP connection; [quote] is the formatting of [%q].  The result is
    the address to dial and whether TLS is used. *)

Fixpoint strings_Contains (s substr : string) : bool :=
  String.prefix substr s
  || match s with
     | EmptyString => false
     | String _ rest => strings_Contains rest substr
     end.

Definition dialAddress (quote : string -> string) (endpoint : URL)
  : result (string * bool) :=
  if negb (String.eqb (Scheme endpoint) "ws") && negb (String.eqb (Scheme endpoint) "wss")
  then inr (errorString ("slack: unsupported websocket scheme " ++ quote (Scheme endpoint)))
  else
    let hostPort := Host endpoint in
    let hostPort :=
      if negb (strings_Contains hostPort ":")
      then if String.eqb (Scheme endpoint) "wss"
           then (hostPort ++ ":443")%string
           else (hostPort ++ ":80")%string
      else hostPort in
    inl (hostPort, String.eqb (Scheme endpoint) "wss").

(** Stand-ins for [encoding/json] and the transport in the examples: raw
    values are written without quotes, a body is either the object of an
    accepted call, the object of a rejected one, or not an object. *)
Definition exampleBool (raw : string) : result bool :=
  if String.eqb raw "true" then inl true
  else if String.eqb raw "false" then inl false
  else inr (errorString "json: cannot unmarshal into bool").

Definition exampleObject (body : string) : result (gmap string string) :=
  if String.eqb body "accepted" then
    inl (<[ "ok"%string := "true"%string ]>
           {[ "url"%string := "wss://socket.example/link"%string ]})
  else if String.eqb body "rejected" then
    inl (<[ "ok"%string := "false"%string ]>
           (<[ "error"%string := "invalid_auth"%string ]>
              {[ "url"%string := "wss://socket.example/link"%string ]}))
  else inr (errorString "json: invalid character").

Definition answering200 (body : string) (endpoint : URL) : result httpResponse :=
  inl {| StatusCode := 200; Body := inl body |}.

Definition slackBase : option URL :=
  Some {| Scheme := "https"; Host := "slack.com"; Path := "/api";
          RawQuery := ""; Fragment := "" |}.

(** The endpoint of the control-plane call under [slackBase]. *)
Definition slackOpenEndpoint : URL :=
  {| Scheme := "https"; Host := "slack.com"; Path := "/api/apps.connections.open";
     RawQuery := ""; Fragment := "" |}.

(** * The supervisor over a websocket connection

    [websocketConn] as the [SocketModeConn] the default dialer returns.
    [readMessage] returns on every connection (see [readMessage_from_total]
    below), so the reading never takes the branch for [None]; the transport
    is taken to close without an error. *)

Section OverWebsocket.

Variable Unmarshal : list Z -> result SocketModeEvent.
Variable Marshal : gmap string any -> result (list Z).

Definition websocketConn_read (c : websocketConn)
  : result SocketModeEvent * websocketConn :=
  match websocketConn_ReadJSON Unmarshal c with
  | Some r => r
  | None => (inr EOF, c)
  end.

Definition websocketConn_write (v : gmap string any) (c : websocketConn)
  : option error * websocketConn :=
  match websocketConn_WriteJSON Marshal v c with
  | (inl _, c') => (None, c')
  | (inr err, c') => (Some err, c')
  end.

Definition websocketConn_SocketModeConn : SocketModeConn websocketConn :=
  {| ReadJSON := websocketConn_read;
     WriteJSON := websocketConn_write;
     Close := websocketConn_Close None |}.

End OverWebsocket.

(** [frame] is what a peer decodes as a frame with FIN set, opcode [opcode]
    and payload [X]. *)
Definition carries (opcode : Z) (X frame : list Z) : Prop :=
  forall k rest,
    readFrame (set_reader k (frame ++ rest))
    = (inl (opcode, true, X), set_reader k rest).

(** * The Web API client's exchange

    [Client.do], with the same parameters as [openConnection]: [answer] is
    what [c.transport.Do] returns, the body being read afterwards, and [out]
    is the decoding of the body into the caller's value, when the caller gave
    one. *)

Section ClientDo.

Variable json_object : string -> result (gmap string string).
Variable json_bool : string -> result bool.
Variable json_string : string -> result string.

Definition Client_do (answer : result httpResponse)
    (out : option (string -> option error)) : option openError :=
  match answer with
  | inr err => Some (openFailed err)
  | inl resp =>
      if (StatusCode resp <? 200) || (StatusCode resp >=? 300)
      then Some (openAPIError (StatusCode resp))
      else
        match Body resp with
        | inr err => Some (openFailed (wrapError "slack: read response body" err))
        | inl body =>
            if (String.length body =? 0)%nat then None
            else
              let rejected :=
                match json_object body with
                | inl raw =>
                    match raw !! "ok"%string with
                    | Some okRaw =>
                        match json_bool okRaw with
                        | inl ok => if negb ok then Some raw else None
                        | inr _ => None
                        end
                    | None => None
                    end
                | inr _ => None
                end in
              match rejected with
              | Some raw => Some (parseSlackError json_string raw)
              | None =>
                  match out with
                  | None => None
                  | Some decode =>
                      match decode body with
                      | Some err =>
                          Some (openFailed (wrapError "slack: decode response" err))
                      | None => None
                      end
                  end
              end
        end
  end.

End ClientDo.

(** The errors that are an answer of the API: a status outside 2xx or a
    rejection by Slack. *)
Definition isAnswer (e : openError) : bool :=
  match e with
  | openFailed _ => false
  | _ => true
  end.

(** ** Proof automation *)

(** Case analysis on every integer comparison of the goal, dropping the cases
    the hypotheses rule out. *)
Ltac split_bounds :=
  repeat match goal with
         | |- context [Z.leb ?a ?b] => destruct (Z.leb_spec a b); try lia
         | |- context [Z.ltb ?a ?b] => destruct (Z.ltb_spec a b); try lia
         end.

(** * The embedding at work

    The masked text frame "Hello" of RFC 6455, section 5.7, and the
    unmasked one a server sends. *)

Example buildClientFrame_Hello :
  buildClientFrame wsOpcodeText [0x48; 0x65; 0x6C; 0x6C; 0x6F] [0x37; 0xFA; 0x21; 0x3D]
  = (inl [0x81; 0x85; 0x37; 0xFA; 0x21; 0x3D; 0x7F; 0x9F; 0x4D; 0x51; 0x58], []).
Proof. reflexivity. Qed.

Example readFrame_Hello :
  readFrame (idleConn [0x81; 0x05; 0x48; 0x65; 0x6C; 0x6C; 0x6F] [])
  = (inl (wsOpcodeText, true, [0x48; 0x65; 0x6C; 0x6C; 0x6F]), idleConn [] []).
Proof. reflexivity. Qed.

Example readFrame_truncated :
  readFrame (idleConn [0x81; 0x05; 0x48] []) = (inr ErrUnexpectedEOF, idleConn [] []).
Proof. reflexivity. Qed.

Example readMessage_reserved_opcode :
  readMessage (idleConn [0x83; 0x00] []) = Some (inr (ErrUnsupportedOpcode 3), idleConn [] []).
Proof. reflexivity. Qed.

Example TrimSpace_inner_space_kept : TrimSpace "  env 1 	" = "env 1"%string.
Proof. reflexivity. Qed.

Example TrimSpace_blank : TrimSpace "   " = ""%string.
Proof. reflexivity. Qed.

Example errors_Is_wrapped :
  errors_Is (wrapError "slack: dial websocket host" (wrapError "dial tcp" DeadlineExceeded))
    DeadlineExceeded = true.
Proof. reflexivity. Qed.

(** The run of [TestSocketModeRunReconnectsAfterDialError]: the dial fails
    once, the second attempt delivers one envelope and then the end of the
    stream, and the handler has cancelled the context by then. *)
Example RunWithHandler_reconnects_after_dial_error :
  RunWithHandler 4 exampleClient (Some (cancelledAt 60)) (Some answering)
    [dialFailing; connecting (freshConn [inl (envelope "events_api" "env-r" false)] EOF)] 0
  = Some (Canceled, 124, [logDialFailed (errorString "temporary dial failure")]).
Proof. reflexivity. Qed.

(** The checks [RunWithHandler] makes before its loop. *)
Example RunWithHandler_requires_token :
  RunWithHandler 1
    {| appToken := "  "; baseURL := Some "https://slack.com/api"; transport := true;
       dialer := true; reconnectDelay := 0; logger := false |}
    (Some background) None [dialFailing] 0
  = Some (errorString "slack: app-level token is required", 0, []).
Proof. reflexivity. Qed.

(** * Properties of the frame codec *)

Lemma set_reader_set_reader c r1 r2 :
  set_reader (set_reader c r1) r2 = set_reader c r2.
Proof. reflexivity. Qed.

Lemma reader_set_reader c r : reader (set_reader c r) = r.
Proof. reflexivity. Qed.

Lemma ReadFull_app (l rest : list Z) (c : websocketConn) :
  ReadFull (length l) (set_reader c (l ++ rest)) = (inl l, set_reader c rest).
Proof.
  unfold ReadFull. rewrite reader_set_reader, set_reader_set_reader.
  rewrite length_app.
  destruct (Nat.leb_spec (length l) (length l + length rest)) as [_|H]; [|lia].
  now rewrite take_app_length, drop_app_length.
Qed.

Lemma ReadFull_app_n (n : nat) (l rest : list Z) (c : websocketConn) :
  length l = n ->
  ReadFull n (set_reader c (l ++ rest)) = (inl l, set_reader c rest).
Proof. intros <-. apply ReadFull_app. Qed.

(** *** Masking *)

Lemma xorMask_length mask i payload :
  length (xorMask mask i payload) = length payload.
Proof.
  revert i. induction payload as [|b rest IH]; intros i; simpl; [reflexivity|].
  now rewrite IH.
Qed.

(** Masking twice with the same key gives the payload back. *)
Lemma xorMask_involutive mask i payload :
  xorMask mask i (xorMask mask i payload) = payload.
Proof.
  revert i. induction payload as [|b rest IH]; intros i; simpl; [reflexivity|].
  rewrite IH. f_equal.
  rewrite Z.lxor_assoc, Z.lxor_nilpotent. apply Z.lxor_0_r.
Qed.

(** *** Bit-level facts about the two header bytes and the length fields *)

Lemma land_ones_small (v n : Z) : 0 <= n -> 0 <= v < 2 ^ n -> Z.land v (Z.ones n) = v.
Proof. intros Hn Hv. rewrite Z.land_ones by assumption. now apply Z.mod_small. Qed.

Lemma testbit_small (v n i : Z) : 0 <= n -> 0 <= v < 2 ^ n -> n <= i -> Z.testbit v i = false.
Proof.
  intros Hn Hv Hi.
  rewrite <- (Z.mod_small v (2 ^ n)) by assumption.
  apply Z.mod_pow2_bits_high. lia.
Qed.

Lemma byte_of_small v : 0 <= v < 256 -> byte_of v = v.
Proof. intros H. unfold byte_of. change 0xFF with (Z.ones 8). now apply land_ones_small. Qed.

Lemma byte_of_range v : is_byte (byte_of v).
Proof.
  unfold is_byte, byte_of. change 0xFF with (Z.ones 8).
  rewrite Z.land_ones by lia. apply Z.mod_pos_bound. lia.
Qed.

Lemma byte_slice_testbit (v k i : Z) :
  0 <= k -> 0 <= i ->
  Z.testbit (Z.shiftl (byte_of (Z.shiftr v k)) k) i
  = (k <=? i) && (i <? k + 8) && Z.testbit v i.
Proof.
  intros Hk Hi. rewrite Z.shiftl_spec by assumption.
  destruct (Z.leb_spec k i) as [Hki|Hki]; simpl.
  - unfold byte_of. change 0xFF with (Z.ones 8).
    rewrite Z.land_spec, Z.shiftr_spec by lia.
    replace (i - k + k) with i by lia.
    destruct (Z.ltb_spec i (k + 8)) as [Hlt|Hge]; simpl.
    + rewrite Z.ones_spec_low by lia. now rewrite andb_true_r.
    + rewrite Z.ones_spec_high by lia. now rewrite andb_false_r.
  - apply Z.testbit_neg_r. lia.
Qed.

Lemma byte_low_testbit (v i : Z) :
  0 <= i -> Z.testbit (byte_of v) i = (i <? 8) && Z.testbit v i.
Proof.
  intros Hi.
  rewrite <- (Z.shiftl_0_r (byte_of v)), <- (Z.shiftr_0_r v) at 1.
  rewrite byte_slice_testbit by lia.
  destruct (Z.leb_spec 0 i); [reflexivity | lia].
Qed.

(** [Uint16] reads back what [PutUint16] stored. *)
Lemma Uint16_PutUint16 v : 0 <= v < 2 ^ 16 -> Uint16 (PutUint16 v) = v.
Proof.
  intros Hv. apply Z.bits_inj'. intros i Hi.
  unfold Uint16, PutUint16, at_; simpl nth.
  rewrite Z.lor_spec, byte_low_testbit, byte_slice_testbit by lia.
  destruct (Z.ltb_spec i 16) as [Hlt|Hge].
  - split_bounds; simpl; rewrite ?orb_false_r; reflexivity.
  - rewrite (testbit_small v 16 i) by lia.
    now rewrite !andb_false_r.
Qed.

(** [Uint64] reads back what [PutUint64] stored. *)
Lemma Uint64_PutUint64 v : 0 <= v < 2 ^ 64 -> Uint64 (PutUint64 v) = v.
Proof.
  intros Hv. apply Z.bits_inj'. intros i Hi.
  unfold Uint64, PutUint64, at_; simpl nth.
  rewrite !Z.lor_spec, byte_low_testbit, !byte_slice_testbit by lia.
  destruct (Z.ltb_spec i 64) as [Hlt|Hge].
  - split_bounds; simpl; rewrite ?orb_false_r; reflexivity.
  - rewrite (testbit_small v 64 i) by lia.
    now rewrite !andb_false_r.
Qed.

Lemma header0_opcode op : 0 <= op < 16 -> Z.land (Z.lor 0x80 op) 0x0F = op.
Proof.
  intros H. rewrite Z.land_lor_distr_l. change (Z.land 0x80 0x0F) with 0.
  rewrite Z.lor_0_l. change 0x0F with (Z.ones 4). now apply land_ones_small.
Qed.

Lemma header0_fin op : 0 <= op -> (Z.land (Z.lor 0x80 op) 0x80 =? 0) = false.
Proof.
  intros H. apply Z.eqb_neq. intros E.
  assert (B : Z.testbit (Z.land (Z.lor 0x80 op) 0x80) 7 = true).
  { rewrite Z.land_spec, Z.lor_spec. reflexivity. }
  rewrite E in B. discriminate.
Qed.

Lemma header1_len n : 0 <= n < 128 -> Z.land (Z.lor n 0x80) 0x7F = n.
Proof.
  intros H. rewrite Z.land_lor_distr_l. change (Z.land 0x80 0x7F) with 0.
  rewrite Z.lor_0_r. change 0x7F with (Z.ones 7). now apply land_ones_small.
Qed.

Lemma header1_mask n : (Z.land (Z.lor n 0x80) 0x80 =? 0) = false.
Proof.
  apply Z.eqb_neq. intros E.
  assert (B : Z.testbit (Z.land (Z.lor n 0x80) 0x80) 7 = true).
  { rewrite Z.land_spec, Z.lor_spec. change (Z.testbit 0x80 7) with true.
    now rewrite orb_true_r. }
  rewrite E in B. discriminate.
Qed.

(** *** Decoding a frame laid out on the reader *)

Lemma bind_inl {A B} (m : M A) (k : A -> M B) c a c' :
  m c = (inl a, c') -> bind m k c = k a c'.
Proof. intros H. unfold bind. now rewrite H. Qed.

Lemma bind_inr {A B} (m : M A) (k : A -> M B) c e c' :
  m c = (inr e, c') -> bind m k c = (inr e, c').
Proof. intros H. unfold bind. now rewrite H. Qed.

(** A masked frame whose length field decodes to [n]: two header bytes, the
    extended length [ext], the key and [n] masked bytes. *)
Lemma readFrame_masked c h0 h1 ext mask masked rest n :
  length mask = 4%nat ->
  length masked = Z.to_nat n ->
  0 <= n <= maxWebSocketFrameSize ->
  (Z.land h1 0x80 =? 0) = false ->
  readPayloadLength (Z.land h1 0x7F) (set_reader c (ext ++ mask ++ masked ++ rest))
  = (inl n, set_reader c (mask ++ masked ++ rest)) ->
  readFrame (set_reader c ([h0; h1] ++ ext ++ mask ++ masked ++ rest))
  = (inl (Z.land h0 0x0F, negb (Z.land h0 0x80 =? 0), xorMask mask 0 masked),
     set_reader c rest).
Proof.
  intros Hmask Hlen Hn Hbit Hpl. unfold readFrame.
  rewrite (bind_inl _ _ _ _ _ (ReadFull_app_n 2 [h0; h1] _ c eq_refl)).
  unfold at_; simpl nth.
  rewrite (bind_inl _ _ _ _ _ Hpl).
  destruct (Z.gtb_spec n maxWebSocketFrameSize) as [Hgt|_]; [lia|].
  rewrite Hbit; simpl negb.
  rewrite (bind_inl _ _ _ _ _ (ReadFull_app_n 4 mask _ c Hmask)).
  destruct (Z.gtb_spec n 0) as [Hpos|Hzero].
  - rewrite (bind_inl _ _ _ _ _ (ReadFull_app_n _ masked _ c Hlen)). reflexivity.
  - assert (n = 0) by lia. subst n. destruct masked; [|discriminate].
    reflexivity.
Qed.

Lemma readPayloadLength_inline base c :
  0 <= base < 126 -> readPayloadLength base c = (inl base, c).
Proof.
  intros H. unfold readPayloadLength.
  destruct (Z.eqb_spec base 126); [lia|].
  destruct (Z.eqb_spec base 127); [lia|]. reflexivity.
Qed.

Lemma readPayloadLength_16 v rest c :
  0 <= v < 2 ^ 16 ->
  readPayloadLength 126 (set_reader c (PutUint16 v ++ rest)) = (inl v, set_reader c rest).
Proof.
  intros H. unfold readPayloadLength.
  change (126 =? 126) with true; cbv iota.
  rewrite (bind_inl _ _ _ _ _ (ReadFull_app_n 2 (PutUint16 v) _ c eq_refl)).
  now rewrite Uint16_PutUint16.
Qed.

Lemma readPayloadLength_64 v rest c :
  0 <= v <= maxInt ->
  readPayloadLength 127 (set_reader c (PutUint64 v ++ rest)) = (inl v, set_reader c rest).
Proof.
  intros H. unfold readPayloadLength.
  change (127 =? 126) with false; change (127 =? 127) with true; cbv iota.
  assert (Hm : maxInt = 2 ^ 63 - 1) by reflexivity.
  rewrite (bind_inl _ _ _ _ _ (ReadFull_app_n 8 (PutUint64 v) _ c eq_refl)).
  rewrite Uint64_PutUint64 by lia.
  unfold uint64. rewrite Z.mod_small by lia.
  destruct (Z.gtb_spec v maxInt); [lia|]. reflexivity.
Qed.


Lemma buildClientFrame_ok opcode payload pool :
  (4 <= length pool)%nat ->
  exists h1,
    buildClientFrame opcode payload pool
    = (inl ([Z.lor 0x80 opcode; h1] ++ lengthField (Z.of_nat (length payload))
            ++ firstn 4 pool ++ xorMask (firstn 4 pool) 0 payload),
       skipn 4 pool)
    /\ (Z.land h1 0x80 =? 0) = false
    /\ Z.land h1 0x7F =
       (if Z.of_nat (length payload) <? 126 then Z.of_nat (length payload)
        else if Z.of_nat (length payload) <=? 0xFFFF then 126 else 127).
Proof.
  intros Hpool. unfold buildClientFrame, rand_Read, lengthField.
  destruct (Nat.leb_spec 4 (length pool)) as [_|]; [|lia].
  set (n := Z.of_nat (length payload)).
  destruct (Z.ltb_spec n 126) as [H1|H1]; [|destruct (Z.leb_spec n 0xFFFF) as [H2|H2]].
  - exists (Z.lor (byte_of n) 0x80). split; [reflexivity|].
    split; [apply header1_mask|].
    rewrite byte_of_small by lia. apply header1_len. lia.
  - exists (Z.lor 126 0x80). repeat split; reflexivity.
  - exists (Z.lor 127 0x80). repeat split; reflexivity.
Qed.

(** Decoding inverts encoding for every payload the decoder accepts. *)
Lemma readFrame_buildClientFrame opcode payload pool rest c :
  0 <= opcode < 16 ->
  Z.of_nat (length payload) <= maxWebSocketFrameSize ->
  (4 <= length pool)%nat ->
  exists frame,
    buildClientFrame opcode payload pool = (inl frame, skipn 4 pool)
    /\ readFrame (set_reader c (frame ++ rest))
       = (inl (opcode, true, payload), set_reader c rest).
Proof.
  intros Hop Hmax Hpool.
  destruct (buildClientFrame_ok opcode payload pool Hpool) as (h1 & Hb & Hbit & Hlen).
  eexists. split; [exact Hb|].
  assert (Hmaxv : maxWebSocketFrameSize = 33554432) by reflexivity.
  set (n := Z.of_nat (length payload)) in *.
  rewrite <- !app_assoc.
  rewrite (readFrame_masked c _ h1 _ _ _ rest n).
  - rewrite header0_opcode, header0_fin, xorMask_involutive by lia. reflexivity.
  - rewrite length_take. lia.
  - rewrite xorMask_length. unfold n. now rewrite Nat2Z.id.
  - lia.
  - exact Hbit.
  - rewrite Hlen. unfold lengthField.
    destruct (Z.ltb_spec n 126) as [H1|H1]; [|destruct (Z.leb_spec n 0xFFFF) as [H2|H2]].
    + apply readPayloadLength_inline. lia.
    + unfold uint16. rewrite Z.mod_small by lia. apply readPayloadLength_16. lia.
    + unfold uint64. rewrite Z.mod_small by lia. apply readPayloadLength_64.
      assert (maxInt = 2 ^ 63 - 1) by reflexivity. lia.
Qed.

(** *** The reader only shrinks *)


Lemma consumes_ret {A} (a : A) : consumes 0 (ret a).
Proof.
  intros c a' c' H. unfold ret in H. injection H as _ <-.
  split; [now destruct c | lia].
Qed.

Lemma consumes_fail {A} e k : consumes k (@fail A e).
Proof. intros c a c' H. discriminate. Qed.

Lemma consumes_ReadFull n : consumes n (ReadFull n).
Proof.
  intros c a c' H. unfold ReadFull in H.
  destruct (Nat.leb_spec n (length (reader c))) as [Hle|Hgt]; [|discriminate].
  injection H as _ <-. split; [reflexivity|].
  rewrite reader_set_reader, length_drop. lia.
Qed.

Lemma consumes_bind {A B} j k (m : M A) (f : A -> M B) :
  consumes j m -> (forall a, consumes k (f a)) -> consumes (j + k) (bind m f).
Proof.
  intros Hm Hf c b c' H. unfold bind in H.
  destruct (m c) as [[a|e] c1] eqn:E; [|discriminate].
  destruct (Hm _ _ _ E) as [E1 L1]. destruct (Hf a _ _ _ H) as [E2 L2].
  split; [|lia]. rewrite E2, E1. reflexivity.
Qed.

Lemma consumes_weaken {A} j k (m : M A) : (k <= j)%nat -> consumes j m -> consumes k m.
Proof. intros Hle Hm c a c' H. destruct (Hm _ _ _ H). split; [assumption | lia]. Qed.

Lemma consumes_readPayloadLength base : consumes 0 (readPayloadLength base).
Proof.
  unfold readPayloadLength.
  destruct (base =? 126).
  - apply (consumes_weaken 2); [lia|].
    apply (consumes_bind 2 0); [apply consumes_ReadFull | intros; apply consumes_ret].
  - destruct (base =? 127); [|apply consumes_ret].
    apply (consumes_weaken 8); [lia|].
    apply (consumes_bind 8 0); [apply consumes_ReadFull|].
    intros ext. destruct (_ >? _); [apply consumes_fail | apply consumes_ret].
Qed.

Lemma consumes_readFrame : consumes 2 readFrame.
Proof.
  unfold readFrame.
  apply (consumes_bind 2 0); [apply consumes_ReadFull|]. intros header.
  apply (consumes_bind 0 0); [apply consumes_readPayloadLength|]. intros n.
  destruct (n >? maxWebSocketFrameSize); [apply consumes_fail|].
  apply (consumes_bind 0 0).
  { destruct (negb _); [|apply consumes_ret].
    apply (consumes_weaken 4); [lia | apply consumes_ReadFull]. }
  intros mask. apply (consumes_bind 0 0).
  { destruct (n >? 0); [|apply consumes_ret].
    apply (consumes_weaken (Z.to_nat n)); [lia | apply consumes_ReadFull]. }
  intros payload. apply consumes_ret.
Qed.

Lemma writeFrame_reader opcode payload c r c' :
  writeFrame opcode payload c = (r, c') -> reader c' = reader c.
Proof.
  unfold writeFrame. intros H.
  destruct (conn c) as [nc|]; [|now injection H as _ <-].
  destruct (buildClientFrame _ _ _) as [[frame|err] pool']; [|now injection H as _ <-].
  destruct (writeResults nc) as [|[err|] later]; now injection H as _ <-.
Qed.

(** *** [readMessage] returns, and its loop unfolds one frame at a time *)

Lemma readMessage_loop_mono fuel : forall buffer expect c r,
  readMessage_loop fuel buffer expect c = Some r ->
  forall fuel', (fuel <= fuel')%nat -> readMessage_loop fuel' buffer expect c = Some r.
Proof.
  induction fuel as [|fuel IH]; intros buffer expect c r H fuel' Hle; [discriminate|].
  destruct fuel' as [|fuel']; [lia|]. assert (Hle' : (fuel <= fuel')%nat) by lia.
  simpl in H |- *.
  destruct (readFrame c) as [[[[opcode fin] payload]|err] c1]; [|exact H].
  repeat match type of H with
         | (if ?b then _ else _) = _ => destruct b
         | match writeFrame ?o ?p ?c with _ => _ end = _ =>
             destruct (writeFrame o p c) as [[[]|?] ?]
         end; try exact H; eapply IH; eassumption.
Qed.

Lemma readMessage_loop_total fuel : forall buffer expect c,
  (length (reader c) < fuel)%nat ->
  exists r, readMessage_loop fuel buffer expect c = Some r.
Proof.
  induction fuel as [|fuel IH]; intros buffer expect c Hlen; [lia|].
  simpl.
  destruct (readFrame c) as [[[[opcode fin] payload]|err] c1] eqn:E; [|eauto].
  destruct (consumes_readFrame _ _ _ E) as [_ L].
  repeat match goal with
         | |- exists r, (if ?b then _ else _) = _ => destruct b
         | |- exists r, match writeFrame ?o ?p ?c with _ => _ end = _ =>
             let W := fresh "W" in
             destruct (writeFrame o p c) as [[[]|?] ?] eqn:W;
             apply writeFrame_reader in W
         end; eauto; apply IH; rewrite ?W; lia.
Qed.


Lemma readMessage_loop_enough fuel buffer expect c :
  (length (reader c) < fuel)%nat ->
  readMessage_loop fuel buffer expect c = readMessage_from buffer expect c.
Proof.
  intros H. unfold readMessage_from.
  destruct (readMessage_loop_total (S (length (reader c))) buffer expect c) as [r Hr]; [lia|].
  rewrite Hr. eapply readMessage_loop_mono; [exact Hr | lia].
Qed.

Lemma readMessage_from_total buffer expect c :
  exists r, readMessage_from buffer expect c = Some r.
Proof. apply readMessage_loop_total. lia. Qed.

Lemma readMessage_eq c : readMessage c = readMessage_from [] false c.
Proof. reflexivity. Qed.

(** One turn of the loop, with the remaining turns at their own fuel. *)
Lemma readMessage_from_step buffer expect c :
  readMessage_from buffer expect c =
  match readFrame c with
  | (inr err, c1) => Some (inr err, c1)
  | (inl (opcode, fin, payload), c1) =>
      if (opcode =? wsOpcodeText) || (opcode =? wsOpcodeBinary) then
        if expect
        then Some (inr (errorString "slack: unexpected websocket data frame"), c1)
        else if fin then Some (inl payload, c1)
        else readMessage_from (buffer ++ payload) true c1
      else if opcode =? wsOpcodeContinuation then
        if negb expect
        then Some (inr (errorString "slack: unexpected websocket continuation frame"), c1)
        else if fin then Some (inl (buffer ++ payload), c1)
        else readMessage_from (buffer ++ payload) expect c1
      else if opcode =? wsOpcodePing then
        match writeFrame wsOpcodePong payload c1 with
        | (inr err, c2) => Some (inr err, c2)
        | (inl _, c2) => readMessage_from buffer expect c2
        end
      else if opcode =? wsOpcodePong then readMessage_from buffer expect c1
      else if opcode =? wsOpcodeClose then Some (inr EOF, c1)
      else Some (inr (ErrUnsupportedOpcode opcode), c1)
  end.
Proof.
  unfold readMessage_from at 1. simpl.
  destruct (readFrame c) as [[[[opcode fin] payload]|err] c1] eqn:E; [|reflexivity].
  destruct (consumes_readFrame _ _ _ E) as [_ L].
  rewrite !(readMessage_loop_enough (length (reader c)) _ _ c1) by lia.
  destruct (writeFrame wsOpcodePong payload c1) as [[[]|err] c2] eqn:W; [|reflexivity].
  apply writeFrame_reader in W.
  rewrite (readMessage_loop_enough (length (reader c)) _ _ c2) by (rewrite W; lia).
  reflexivity.
Qed.

(** A decoded payload never exceeds the maximum frame size. *)
Lemma ReadFull_length n c l c' : ReadFull n c = (inl l, c') -> length l = n.
Proof.
  unfold ReadFull. destruct (Nat.leb_spec n (length (reader c))) as [Hle|Hgt]; [|discriminate].
  intros E. injection E as <- _. rewrite length_take. lia.
Qed.

Lemma readFrame_payload_bound c opcode fin payload c' :
  readFrame c = (inl (opcode, fin, payload), c') ->
  Z.of_nat (length payload) <= maxWebSocketFrameSize.
Proof.
  unfold readFrame, bind. intros H.
  destruct (ReadFull 2 c) as [[header|?] c1]; [|discriminate].
  destruct (readPayloadLength _ c1) as [[n|?] c2]; [|discriminate].
  destruct (Z.gtb_spec n maxWebSocketFrameSize) as [|Hn]; [discriminate|].
  destruct ((if negb _ then ReadFull 4 else ret [0; 0; 0; 0]) c2) as [[mask|?] c3];
    [|discriminate].
  assert (Hmax : 0 <= maxWebSocketFrameSize) by (now compute).
  destruct (Z.gtb_spec n 0) as [Hpos|Hz].
  - destruct (ReadFull (Z.to_nat n) c3) as [[p|?] c4] eqn:R; [|discriminate].
    apply ReadFull_length in R. injection H as _ _ <- _.
    destruct (negb _); rewrite ?xorMask_length, R; lia.
  - unfold ret in H. injection H as _ _ <- _.
    destruct (negb _); simpl; lia.
Qed.

(** * Specification of the frame codec *)

Lemma lengthField_length n :
  Z.of_nat (length (lengthField n)) = extendedLengthBytes n.
Proof.
  unfold lengthField, extendedLengthBytes.
  destruct (n <? 126); [reflexivity|]. destruct (n <=? 0xFFFF); reflexivity.
Qed.

Lemma buildClientFrame_length opcode payload pool frame pool' :
  buildClientFrame opcode payload pool = (inl frame, pool') ->
  Z.of_nat (length frame)
  = 2 + extendedLengthBytes (Z.of_nat (length payload)) + 4 + Z.of_nat (length payload).
Proof.
  intros E.
  assert (Hpool : (4 <= length pool)%nat).
  { unfold buildClientFrame, rand_Read in E.
    destruct (Nat.leb_spec 4 (length pool)) as [Hle|Hgt]; [exact Hle | discriminate]. }
  destruct (buildClientFrame_ok opcode payload pool Hpool) as (h1 & Hb & _).
  rewrite E in Hb.
  match type of Hb with (inl _, _) = (inl ?f, _) => assert (Hf : frame = f) by congruence end.
  rewrite Hf, !length_app, xorMask_length, length_take, !Nat2Z.inj_add, lengthField_length.
  simpl length. lia.
Qed.

(** C2.  For every four-bit opcode (the six opcodes of the codec among them)
    and every payload of 0, 1, 125, 126, 65535 or 65536 bytes, the client
    frame encoder, given four bytes of entropy, builds a frame whose extended
    length field has 0, 2 or 8 bytes by the thresholds (below 126; up to
    65535; above), and [readFrame] applied to a reader holding that frame
    returns exactly the opcode, FIN set and the payload, having consumed the
    frame and nothing more. *)
Theorem C2_decode_inverts_encode opcode payload pool rest c :
  0 <= opcode < 16 ->
  In (Z.of_nat (length payload)) [0; 1; 125; 126; 65535; 65536] ->
  (4 <= length pool)%nat ->
  exists frame,
    buildClientFrame opcode payload pool = (inl frame, skipn 4 pool)
    /\ Z.of_nat (length frame)
       = 2 + extendedLengthBytes (Z.of_nat (length payload)) + 4
         + Z.of_nat (length payload)
    /\ readFrame (set_reader c (frame ++ rest))
       = (inl (opcode, true, payload), set_reader c rest).
Proof.
  intros Hop Hsize Hpool.
  assert (Hmax : Z.of_nat (length payload) <= maxWebSocketFrameSize).
  { assert (maxWebSocketFrameSize = 33554432) as -> by reflexivity.
    simpl in Hsize. lia. }
  destruct (readFrame_buildClientFrame opcode payload pool rest c Hop Hmax Hpool)
    as (frame & Hb & Hr).
  exists frame. split; [exact Hb|]. split; [|exact Hr].
  eapply buildClientFrame_length; exact Hb.
Qed.

Lemma C2_decode_inverts_encode_witness :
  exists frame,
    buildClientFrame wsOpcodeText [0x48] [0x37; 0xFA; 0x21; 0x3D] = (inl frame, [])
    /\ Z.of_nat (length frame) = 7
    /\ readFrame (set_reader (idleConn [] []) (frame ++ [0x8A; 0x00]))
       = (inl (wsOpcodeText, true, [0x48]), set_reader (idleConn [] []) [0x8A; 0x00]).
Proof.
  apply (C2_decode_inverts_encode wsOpcodeText [0x48] [0x37; 0xFA; 0x21; 0x3D]
           [0x8A; 0x00] (idleConn [] [])).
  - unfold wsOpcodeText. lia.
  - simpl. tauto.
  - simpl. lia.
Defined.

(** *** Fragmented messages *)

Lemma decodes_app c frames1 frames2 c' :
  decodes c (frames1 ++ frames2) c' <->
  exists c1, decodes c frames1 c1 /\ decodes c1 frames2 c'.
Proof.
  revert c. induction frames1 as [|f frames1 IH]; intros c; simpl.
  - split; [intros D; exists c; auto | intros (c1 & -> & D); exact D].
  - split.
    + intros (c1 & R & D). apply IH in D as (c2 & D1 & D2). eauto.
    + intros (c2 & (c1 & R & D1) & D2). exists c1. split; [exact R|].
      apply IH. eauto.
Qed.

(** Inside an open fragmentation sequence, continuation frames are appended to
    the buffer until the one with FIN set. *)
Lemma readMessage_from_continuations middle : forall buffer last c c',
  decodes c (continuations middle ++ [(wsOpcodeContinuation, true, last)]) c' ->
  readMessage_from buffer true c = Some (inl (buffer ++ concat middle ++ last), c').
Proof.
  induction middle as [|p middle IH]; intros buffer last c c' D; simpl in D.
  - destruct D as (c1 & R & ->).
    rewrite readMessage_from_step, R. reflexivity.
  - destruct D as (c1 & R & D).
    rewrite readMessage_from_step, R. simpl.
    rewrite (IH _ _ _ _ D). now rewrite <- !app_assoc.
Qed.

(** Inside an open sequence, a text or binary frame is a protocol error. *)
Lemma readMessage_from_interrupted middle : forall buffer opcode fin p c c',
  isDataOpcode opcode ->
  decodes c (continuations middle ++ [(opcode, fin, p)]) c' ->
  readMessage_from buffer true c
  = Some (inr (errorString "slack: unexpected websocket data frame"), c').
Proof.
  induction middle as [|q middle IH]; intros buffer opcode fin p c c' Hop D; simpl in D.
  - destruct D as (c1 & R & ->).
    rewrite readMessage_from_step, R. now destruct Hop as [-> | ->].
  - destruct D as (c1 & R & D).
    rewrite readMessage_from_step, R. simpl. eapply IH; eassumption.
Qed.

(** C4.  A message sent as a text or binary frame with FIN clear followed by
    continuation frames of which only the last has FIN set (any number N >= 1
    of them, so N = 1..5 in particular: N is [length middle + 1]) is returned
    by [readMessage] as the concatenation of the payloads in arrival order,
    whatever N is.  A continuation frame that arrives when no sequence is
    open, and a text or binary frame that arrives while one is open, make
    [readMessage] fail with the corresponding protocol error. *)
Theorem C4_fragments_reassemble :
  (forall c c' opcode first middle last,
      isDataOpcode opcode ->
      decodes c ((opcode, false, first) :: continuations middle
                 ++ [(wsOpcodeContinuation, true, last)]) c' ->
      readMessage c = Some (inl (first ++ concat middle ++ last), c'))
  /\ (forall c c1 fin p,
      readFrame c = (inl (wsOpcodeContinuation, fin, p), c1) ->
      readMessage c
      = Some (inr (errorString "slack: unexpected websocket continuation frame"), c1))
  /\ (forall c c' opcode opcode' first middle fin p,
      isDataOpcode opcode -> isDataOpcode opcode' ->
      decodes c ((opcode, false, first) :: continuations middle
                 ++ [(opcode', fin, p)]) c' ->
      readMessage c
      = Some (inr (errorString "slack: unexpected websocket data frame"), c')).
Proof.
  split; [|split].
  - intros c c' opcode first middle last Hop (c1 & R & D).
    rewrite readMessage_eq, readMessage_from_step, R.
    replace ((opcode =? wsOpcodeText) || (opcode =? wsOpcodeBinary)) with true
      by (now destruct Hop as [-> | ->]).
    cbv iota. now rewrite (readMessage_from_continuations _ _ _ _ _ D).
  - intros c c1 fin p R.
    rewrite readMessage_eq, readMessage_from_step, R. reflexivity.
  - intros c c' opcode opcode' first middle fin p Hop Hop' (c1 & R & D).
    rewrite readMessage_eq, readMessage_from_step, R.
    replace ((opcode =? wsOpcodeText) || (opcode =? wsOpcodeBinary)) with true
      by (now destruct Hop as [-> | ->]).
    cbv iota. eapply readMessage_from_interrupted; eassumption.
Qed.

(** "Hel", "lo" and "!" as an unmasked text frame and two continuation
    frames; a lone continuation frame; a text frame cut short by another. *)
Lemma C4_fragments_reassemble_witness :
  readMessage (idleConn [0x01; 0x03; 0x48; 0x65; 0x6C; 0x00; 0x02; 0x6C; 0x6F;
                         0x80; 0x01; 0x21] [])
  = Some (inl [0x48; 0x65; 0x6C; 0x6C; 0x6F; 0x21], idleConn [] [])
  /\ readMessage (idleConn [0x80; 0x01; 0x21] [])
     = Some (inr (errorString "slack: unexpected websocket continuation frame"),
             idleConn [] [])
  /\ readMessage (idleConn [0x01; 0x01; 0x48; 0x81; 0x01; 0x21] [])
     = Some (inr (errorString "slack: unexpected websocket data frame"), idleConn [] []).
Proof.
  destruct C4_fragments_reassemble as (Hjoin & Hcont & Hdata).
  split; [|split].
  - apply (Hjoin _ _ wsOpcodeText [0x48; 0x65; 0x6C] [[0x6C; 0x6F]] [0x21]).
    + left; reflexivity.
    + simpl.
      exists (idleConn [0x00; 0x02; 0x6C; 0x6F; 0x80; 0x01; 0x21] []).
      split; [reflexivity|].
      exists (idleConn [0x80; 0x01; 0x21] []). split; [reflexivity|].
      exists (idleConn [] []). split; reflexivity.
  - apply (Hcont _ _ true [0x21]). reflexivity.
  - apply (Hdata _ _ wsOpcodeText wsOpcodeText [0x48] [] true [0x21]).
    + left; reflexivity.
    + left; reflexivity.
    + simpl. exists (idleConn [0x81; 0x01; 0x21] []). split; [reflexivity|].
      exists (idleConn [] []). split; reflexivity.
Defined.

(** *** The maximum frame size *)

Lemma readFrame_too_large c header c1 n c2 :
  ReadFull 2 c = (inl header, c1) ->
  readPayloadLength (Z.land (at_ header 1) 0x7F) c1 = (inl n, c2) ->
  maxWebSocketFrameSize < n ->
  readFrame c = (inr (ErrFrameTooLarge n), c2).
Proof.
  intros Hh Hn Hlt. unfold readFrame.
  rewrite (bind_inl _ _ _ _ _ Hh). cbv zeta.
  rewrite (bind_inl _ _ _ _ _ Hn).
  destruct (Z.gtb_spec n maxWebSocketFrameSize); [reflexivity | lia].
Qed.

Lemma readFrame_length_overflow c header c1 extended c2 :
  ReadFull 2 c = (inl header, c1) ->
  Z.land (at_ header 1) 0x7F = 127 ->
  ReadFull 8 c1 = (inl extended, c2) ->
  maxInt < Uint64 extended ->
  readFrame c = (inr (errorString "slack: websocket payload length overflow"), c2).
Proof.
  intros Hh Hb He Hlt. unfold readFrame.
  rewrite (bind_inl _ _ _ _ _ Hh). cbv zeta.
  rewrite Hb. unfold readPayloadLength.
  change (127 =? 126) with false; change (127 =? 127) with true; cbv iota.
  unfold bind at 1. rewrite (bind_inl _ _ _ _ _ He).
  change (uint64 maxInt) with maxInt.
  destruct (Z.gtb_spec (Uint64 extended) maxInt); [reflexivity | lia].
Qed.

(** The decoder turns down what the encoder builds for an oversized payload. *)
Lemma readFrame_buildClientFrame_oversized opcode payload pool rest c :
  maxWebSocketFrameSize < Z.of_nat (length payload) <= maxInt ->
  (4 <= length pool)%nat ->
  exists frame,
    buildClientFrame opcode payload pool = (inl frame, skipn 4 pool)
    /\ readFrame (set_reader c (frame ++ rest))
       = (inr (ErrFrameTooLarge (Z.of_nat (length payload))),
          set_reader c (firstn 4 pool ++ xorMask (firstn 4 pool) 0 payload ++ rest)).
Proof.
  intros Hlen Hpool.
  destruct (buildClientFrame_ok opcode payload pool Hpool) as (h1 & Hb & Hbit & Hfield).
  eexists. split; [exact Hb|].
  assert (Hmaxv : maxWebSocketFrameSize = 33554432) by reflexivity.
  set (n := Z.of_nat (length payload)) in *.
  destruct (Z.ltb_spec n 126) as [|_]; [lia|].
  destruct (Z.leb_spec n 0xFFFF) as [|_]; [lia|].
  unfold lengthField.
  destruct (Z.ltb_spec n 126) as [|_]; [lia|].
  destruct (Z.leb_spec n 0xFFFF) as [|_]; [lia|].
  rewrite <- !app_assoc.
  apply (readFrame_too_large _ [Z.lor 0x80 opcode; h1]
           (set_reader c (PutUint64 (uint64 n) ++ firstn 4 pool
                          ++ xorMask (firstn 4 pool) 0 payload ++ rest))).
  - apply (ReadFull_app_n 2 [Z.lor 0x80 opcode; h1]). reflexivity.
  - unfold at_; simpl nth. rewrite Hfield.
    assert (maxInt = 2 ^ 63 - 1) by reflexivity.
    unfold uint64. rewrite Z.mod_small by lia.
    apply readPayloadLength_64. lia.
  - lia.
Qed.

(** C5, as the code has it.  Decoding rejects every frame whose length field
    is above the 32 MiB maximum: with a frame-too-large error, or, when a
    64-bit length field is above the largest [int], with a length-overflow
    error; so [readFrame] never returns a payload above the maximum.  The
    encoder has no such limit: given four bytes of entropy it builds a frame
    for a payload of any length, carrying the whole payload, and the frame it
    builds for a payload above the maximum is one the decoder rejects. *)
Theorem C5_decoder_enforces_maximum :
  (forall c opcode fin payload c',
      readFrame c = (inl (opcode, fin, payload), c') ->
      Z.of_nat (length payload) <= maxWebSocketFrameSize)
  /\ (forall c header c1 n c2,
      ReadFull 2 c = (inl header, c1) ->
      readPayloadLength (Z.land (at_ header 1) 0x7F) c1 = (inl n, c2) ->
      maxWebSocketFrameSize < n ->
      readFrame c = (inr (ErrFrameTooLarge n), c2))
  /\ (forall c header c1 extended c2,
      ReadFull 2 c = (inl header, c1) ->
      Z.land (at_ header 1) 0x7F = 127 ->
      ReadFull 8 c1 = (inl extended, c2) ->
      maxInt < Uint64 extended ->
      readFrame c = (inr (errorString "slack: websocket payload length overflow"), c2))
  /\ (forall opcode payload pool,
      (4 <= length pool)%nat ->
      exists frame,
        buildClientFrame opcode payload pool = (inl frame, skipn 4 pool)
        /\ Z.of_nat (length frame)
           = 2 + extendedLengthBytes (Z.of_nat (length payload)) + 4
             + Z.of_nat (length payload))
  /\ (forall opcode payload pool rest c,
      maxWebSocketFrameSize < Z.of_nat (length payload) <= maxInt ->
      (4 <= length pool)%nat ->
      exists frame,
        buildClientFrame opcode payload pool = (inl frame, skipn 4 pool)
        /\ readFrame (set_reader c (frame ++ rest))
           = (inr (ErrFrameTooLarge (Z.of_nat (length payload))),
              set_reader c (firstn 4 pool ++ xorMask (firstn 4 pool) 0 payload ++ rest))).
Proof.
  split; [exact readFrame_payload_bound|].
  split; [exact readFrame_too_large|].
  split; [exact readFrame_length_overflow|].
  split; [|exact readFrame_buildClientFrame_oversized].
  intros opcode payload pool Hpool.
  destruct (buildClientFrame_ok opcode payload pool Hpool) as (h1 & Hb & _).
  eexists. split; [exact Hb|].
  eapply buildClientFrame_length; exact Hb.
Qed.

Lemma C5_decoder_enforces_maximum_witness :
  Z.of_nat (length [0x48; 0x69]) <= maxWebSocketFrameSize
  /\ readFrame (idleConn [0x82; 0x7F; 0; 0; 0; 0; 0x02; 0; 0; 0x01; 0xFF] [])
     = (inr (ErrFrameTooLarge 33554433), idleConn [0xFF] [])
  /\ readFrame (idleConn [0x82; 0x7F; 0x80; 0; 0; 0; 0; 0; 0; 0; 0xFF] [])
     = (inr (errorString "slack: websocket payload length overflow"), idleConn [0xFF] [])
  /\ exists frame,
       buildClientFrame wsOpcodePong [0x48] [0x37; 0xFA; 0x21; 0x3D] = (inl frame, [])
       /\ Z.of_nat (length frame) = 7.
Proof.
  destruct C5_decoder_enforces_maximum as (Hbound & Hlarge & Hover & Hbuild & _).
  split; [|split; [|split]].
  - apply (Hbound (idleConn [0x81; 0x02; 0x48; 0x69] []) wsOpcodeText true
             [0x48; 0x69] (idleConn [] [])).
    reflexivity.
  - apply (Hlarge (idleConn [0x82; 0x7F; 0; 0; 0; 0; 0x02; 0; 0; 0x01; 0xFF] [])
             [0x82; 0x7F]
             (idleConn [0; 0; 0; 0; 0x02; 0; 0; 0x01; 0xFF] [])).
    + reflexivity.
    + reflexivity.
    + reflexivity.
  - apply (Hover (idleConn [0x82; 0x7F; 0x80; 0; 0; 0; 0; 0; 0; 0; 0xFF] [])
             [0x82; 0x7F]
             (idleConn [0x80; 0; 0; 0; 0; 0; 0; 0; 0xFF] [])
             [0x80; 0; 0; 0; 0; 0; 0; 0]).
    + reflexivity.
    + reflexivity.
    + reflexivity.
    + reflexivity.
  - apply (Hbuild wsOpcodePong [0x48] [0x37; 0xFA; 0x21; 0x3D]). simpl. lia.
Defined.

(** C5 as stated fails on the encoder: for a payload of 32 MiB + 1 zero bytes
    it returns a frame, 14 bytes of header, length and key followed by the
    whole masked payload. *)
Lemma C5_encoder_counterexample :
  exists frame,
    buildClientFrame wsOpcodeBinary
      (repeat 0 (Z.to_nat (maxWebSocketFrameSize + 1))) [0x37; 0xFA; 0x21; 0x3D]
    = (inl frame, [])
    /\ Z.of_nat (length frame) = 14 + (maxWebSocketFrameSize + 1)
    /\ maxWebSocketFrameSize
       < Z.of_nat (length (repeat 0 (Z.to_nat (maxWebSocketFrameSize + 1)))).
Proof.
  assert (Hmax : 0 <= maxWebSocketFrameSize) by (now compute).
  assert (Hlen : Z.of_nat (length (repeat 0 (Z.to_nat (maxWebSocketFrameSize + 1))))
                 = maxWebSocketFrameSize + 1).
  { rewrite repeat_length. apply Z2Nat.id. lia. }
  destruct (buildClientFrame_ok wsOpcodeBinary
              (repeat 0 (Z.to_nat (maxWebSocketFrameSize + 1)))
              [0x37; 0xFA; 0x21; 0x3D]) as (h1 & Hb & _); [simpl; lia|].
  eexists. split; [exact Hb|]. split; [|lia].
  rewrite (buildClientFrame_length _ _ _ _ _ Hb), Hlen.
  reflexivity.
Qed.

(** *** Control frames *)

Lemma writeFrame_ok opcode payload c nc :
  conn c = Some nc ->
  nextWriteSucceeds nc = true ->
  (4 <= length (entropy c))%nat ->
  exists frame,
    buildClientFrame opcode payload (entropy c) = (inl frame, skipn 4 (entropy c))
    /\ writeFrame opcode payload c
       = (inl tt,
          {| conn := Some {| written := written nc ++ [frame];
                             writeResults := tl (writeResults nc) |};
             reader := reader c; readerErr := readerErr c;
             entropy := skipn 4 (entropy c) |}).
Proof.
  intros Hc Hw Hpool.
  destruct (buildClientFrame_ok opcode payload (entropy c) Hpool) as (h1 & Hb & _).
  eexists. split; [exact Hb|].
  unfold writeFrame. rewrite Hc, Hb.
  unfold nextWriteSucceeds in Hw.
  destruct (writeResults nc) as [|[err|] later]; [reflexivity | discriminate | reflexivity].
Qed.

(** C8, as the code has it.  When the loop of [readMessage] (at its start or
    inside a fragmentation sequence) decodes a ping frame with payload [X]:
    if the connection is open, the transport accepts the write and four bytes
    of entropy are at hand, exactly one frame is written, it decodes as a pong
    frame with FIN set and payload [X], and the loop goes on with the next
    frame, so that what [readMessage] returns is what the following frames
    give; if the pong cannot be written, [readMessage] fails with the error of
    the write.  In neither case is the ping returned as a message.  A pong
    frame is dropped: the loop goes on and nothing is written. *)
Theorem C8_ping_answered_pong_dropped :
  (forall c c1 fin X buffer expect nc,
      readFrame c = (inl (wsOpcodePing, fin, X), c1) ->
      conn c1 = Some nc ->
      nextWriteSucceeds nc = true ->
      (4 <= length (entropy c1))%nat ->
      exists frame,
        buildClientFrame wsOpcodePong X (entropy c1) = (inl frame, skipn 4 (entropy c1))
        /\ (forall k rest, readFrame (set_reader k (frame ++ rest))
                           = (inl (wsOpcodePong, true, X), set_reader k rest))
        /\ readMessage_from buffer expect c
           = readMessage_from buffer expect
               {| conn := Some {| written := written nc ++ [frame];
                                  writeResults := tl (writeResults nc) |};
                  reader := reader c1; readerErr := readerErr c1;
                  entropy := skipn 4 (entropy c1) |})
  /\ (forall c c1 fin X buffer expect err c2,
      readFrame c = (inl (wsOpcodePing, fin, X), c1) ->
      writeFrame wsOpcodePong X c1 = (inr err, c2) ->
      readMessage_from buffer expect c = Some (inr err, c2))
  /\ (forall c c1 fin X buffer expect,
      readFrame c = (inl (wsOpcodePong, fin, X), c1) ->
      readMessage_from buffer expect c = readMessage_from buffer expect c1).
Proof.
  split; [|split].
  - intros c c1 fin X buffer expect nc R Hc Hw Hpool.
    destruct (writeFrame_ok wsOpcodePong X c1 nc Hc Hw Hpool) as (frame & Hb & Hwf).
    exists frame. split; [exact Hb|]. split.
    + intros k rest.
      destruct (readFrame_buildClientFrame wsOpcodePong X (entropy c1) rest k)
        as (frame' & Hb' & Hr).
      * unfold wsOpcodePong. lia.
      * eapply readFrame_payload_bound; exact R.
      * exact Hpool.
      * rewrite Hb in Hb'. injection Hb' as <-. exact Hr.
    + rewrite readMessage_from_step, R. simpl. now rewrite Hwf.
  - intros c c1 fin X buffer expect err c2 R W.
    rewrite readMessage_from_step, R. simpl. now rewrite W.
  - intros c c1 fin X buffer expect R.
    rewrite readMessage_from_step, R. reflexivity.
Qed.

(** A masked-free ping "Hi" followed by the text frame "ok": one pong "Hi" is
    written, masked with the next four bytes of entropy, and "ok" is the
    message.  On a closed connection the ping ends the read.  A pong before
    the text frame leaves no trace. *)
Lemma C8_ping_answered_pong_dropped_witness :
  readMessage (idleConn [0x89; 0x02; 0x48; 0x69; 0x81; 0x02; 0x6F; 0x6B]
                        [0x37; 0xFA; 0x21; 0x3D])
  = Some (inl [0x6F; 0x6B],
          {| conn := Some {| written := [[0x8A; 0x82; 0x37; 0xFA; 0x21; 0x3D; 0x7F; 0x93]];
                             writeResults := [] |};
             reader := []; readerErr := EOF; entropy := [] |})
  /\ readMessage (set_conn (idleConn [0x89; 0x02; 0x48; 0x69; 0x81; 0x02; 0x6F; 0x6B] [])
                           None)
     = Some (inr ErrClosedPipe,
             set_conn (idleConn [0x81; 0x02; 0x6F; 0x6B] []) None)
  /\ readMessage (idleConn [0x8A; 0x02; 0x48; 0x69; 0x81; 0x02; 0x6F; 0x6B] [])
     = Some (inl [0x6F; 0x6B], idleConn [] []).
Proof.
  destruct C8_ping_answered_pong_dropped as (Hping & Hfail & Hpong).
  split; [|split].
  - destruct (Hping (idleConn [0x89; 0x02; 0x48; 0x69; 0x81; 0x02; 0x6F; 0x6B]
                               [0x37; 0xFA; 0x21; 0x3D])
                    (idleConn [0x81; 0x02; 0x6F; 0x6B] [0x37; 0xFA; 0x21; 0x3D])
                    true [0x48; 0x69] [] false
                    {| written := []; writeResults := [] |})
      as (frame & Hb & _ & Hgo).
    + reflexivity.
    + reflexivity.
    + reflexivity.
    + simpl. lia.
    + rewrite readMessage_eq, Hgo.
      injection Hb as <-. reflexivity.
  - rewrite readMessage_eq.
    apply (Hfail _ (set_conn (idleConn [0x81; 0x02; 0x6F; 0x6B] []) None) true [0x48; 0x69]).
    + reflexivity.
    + reflexivity.
  - rewrite readMessage_eq,
      (Hpong _ (idleConn [0x81; 0x02; 0x6F; 0x6B] []) true [0x48; 0x69]) by reflexivity.
    reflexivity.
Defined.

(** C8 as stated fails: a ping "Hi" is decoded on a connection whose transport
    refuses the next write.  No pong is written, [readMessage] returns the
    error of the write, and the text frame "ok" that follows is left unread. *)
Lemma C8_unwritten_pong_counterexample :
  let c := {| conn := Some {| written := [];
                              writeResults := [Some (errorString "broken pipe")] |};
              reader := [0x89; 0x02; 0x48; 0x69; 0x81; 0x02; 0x6F; 0x6B];
              readerErr := EOF; entropy := [0x37; 0xFA; 0x21; 0x3D] |} in
  fst (readFrame c) = inl (wsOpcodePing, true, [0x48; 0x69])
  /\ readMessage c
     = Some (inr (wrapError "slack: write websocket frame" (errorString "broken pipe")),
             {| conn := Some {| written := []; writeResults := [] |};
                reader := [0x81; 0x02; 0x6F; 0x6B];
                readerErr := EOF; entropy := [] |}).
Proof. split; reflexivity. Qed.


(** *** The handshake deadline *)

(** C6, as the code has it.  The deadline of the upgrade exchange is the
    context's deadline whenever the context has one, whether earlier or later
    than ten seconds from the start, and ten seconds from the start when it
    has none.  So the deadline is the earlier of the two, and no later than
    ten seconds from the start, exactly when the context has no deadline or
    one that is not later than the default. *)
Theorem C6_handshake_deadline now ctx :
  (ctxDeadline ctx = None ->
   websocketClientHandshake_deadline now ctx = now + webSocketHandshakeTimeout)
  /\ (forall d, ctxDeadline ctx = Some d ->
      websocketClientHandshake_deadline now ctx = d)
  /\ (forall d, ctxDeadline ctx = Some d -> d <= now + webSocketHandshakeTimeout ->
      websocketClientHandshake_deadline now ctx
      = Z.min (now + webSocketHandshakeTimeout) d
      /\ websocketClientHandshake_deadline now ctx <= now + webSocketHandshakeTimeout)
  /\ (forall d, ctxDeadline ctx = Some d -> now + webSocketHandshakeTimeout < d ->
      now + webSocketHandshakeTimeout < websocketClientHandshake_deadline now ctx).
Proof.
  unfold websocketClientHandshake_deadline.
  split; [intros ->; reflexivity|].
  split; [intros d ->; reflexivity|].
  split; intros d -> Hd; [split|]; lia.
Qed.

Lemma C6_handshake_deadline_witness :
  websocketClientHandshake_deadline 5
    {| doneAt := None; doneErr := Canceled; ctxDeadline := None |} = 10000000005
  /\ websocketClientHandshake_deadline 5
       {| doneAt := Some 3000000000; doneErr := DeadlineExceeded;
          ctxDeadline := Some 3000000000 |} = 3000000000
  /\ websocketClientHandshake_deadline 5
       {| doneAt := Some 3000000000; doneErr := DeadlineExceeded;
          ctxDeadline := Some 3000000000 |} <= 5 + webSocketHandshakeTimeout
  /\ 5 + webSocketHandshakeTimeout
     < websocketClientHandshake_deadline 5
         {| doneAt := Some 60000000000; doneErr := DeadlineExceeded;
            ctxDeadline := Some 60000000000 |}.
Proof.
  pose proof (C6_handshake_deadline 5
                {| doneAt := None; doneErr := Canceled; ctxDeadline := None |})
    as (Hnone & _).
  pose proof (C6_handshake_deadline 5
                {| doneAt := Some 3000000000; doneErr := DeadlineExceeded;
                   ctxDeadline := Some 3000000000 |})
    as (_ & Hsome & Hearly & _).
  pose proof (C6_handshake_deadline 5
                {| doneAt := Some 60000000000; doneErr := DeadlineExceeded;
                   ctxDeadline := Some 60000000000 |})
    as (_ & _ & _ & Hlate).
  split; [|split; [|split]].
  - apply Hnone. reflexivity.
  - apply (Hsome 3000000000). reflexivity.
  - apply (Hearly 3000000000); [reflexivity | unfold webSocketHandshakeTimeout; lia].
  - apply (Hlate 60000000000); [reflexivity | unfold webSocketHandshakeTimeout; lia].
Defined.

(** C6 as stated fails: with a context whose deadline is a minute away the
    handshake runs under that deadline, fifty seconds later than the default
    timeout allows. *)
Lemma C6_later_deadline_counterexample :
  websocketClientHandshake_deadline 0
    {| doneAt := Some 60000000000; doneErr := DeadlineExceeded;
       ctxDeadline := Some 60000000000 |} = 60000000000
  /\ 0 + webSocketHandshakeTimeout < 60000000000.
Proof. split; [reflexivity | unfold webSocketHandshakeTimeout; lia]. Qed.

(** * Properties of the supervisor *)

(** *** [TrimSpace] on blank strings *)

Lemma stripRune_space r rest :
  In r utf8Spaces -> stripRune utf8Spaces (r ++ rest) = Some rest /\ (1 <= length r)%nat.
Proof.
  unfold utf8Spaces. simpl map. intros H.
  repeat (destruct H as [<- | H]; [split; [reflexivity | simpl; lia] |]).
  destruct H.
Qed.

Lemma trimLeading_spaces runes : forall fuel,
  Forall (fun r => In r utf8Spaces) runes ->
  (length (concat runes) <= fuel)%nat ->
  trimLeading fuel utf8Spaces (concat runes) = [].
Proof.
  induction runes as [|r runes IH]; intros fuel Hall Hfuel.
  - destruct fuel; reflexivity.
  - inversion Hall as [|r' runes' Hr Hrunes]; subst.
    destruct (stripRune_space r (concat runes) Hr) as [Hstrip Hlen].
    simpl concat in *. rewrite length_app in Hfuel.
    destruct fuel as [|fuel]; [lia|].
    cbn [trimLeading]. rewrite Hstrip. apply IH; [assumption | lia].
Qed.

Lemma TrimSpace_onlySpaces s : onlySpaces s -> TrimSpace s = ""%string.
Proof.
  intros (runes & Hall & Hs). unfold TrimSpace, trimLeft.
  rewrite Hs, trimLeading_spaces by (assumption || lia).
  reflexivity.
Qed.

Lemma TrimSpace_blank_eqb s :
  TrimSpace s = ""%string -> String.eqb (TrimSpace s) "" = true.
Proof. intros ->. reflexivity. Qed.

Lemma TrimSpace_nonblank_eqb s :
  TrimSpace s <> ""%string -> String.eqb (TrimSpace s) "" = false.
Proof. intros H. now apply String.eqb_neq. Qed.

(** *** One turn of the processing loop *)

Section Loop.

Context {C : Type} `{SocketModeConn C}.

Lemma processConnection_read_error fuel c handler (conn conn1 : C) log err :
  ReadJSON conn = (inr err, conn1) ->
  processConnection (S fuel) c handler conn log = Some (err, conn1, log).
Proof. intros R. simpl. now rewrite R. Qed.

Lemma processConnection_unacked fuel c handler (conn conn1 : C) log event :
  ReadJSON conn = (inl event, conn1) ->
  TrimSpace (EnvelopeID event) = ""%string ->
  processConnection (S fuel) c handler conn log
  = processConnection fuel c handler conn1 (snd (dispatch c handler event log)).
Proof.
  intros R Hblank. simpl. rewrite R.
  destruct (dispatch c handler event log) as [response log1].
  now rewrite (TrimSpace_blank_eqb _ Hblank).
Qed.

Lemma processConnection_acked fuel c handler (conn conn1 : C) log event :
  ReadJSON conn = (inl event, conn1) ->
  TrimSpace (EnvelopeID event) <> ""%string ->
  processConnection (S fuel) c handler conn log
  = match WriteJSON (buildAck event (fst (dispatch c handler event log))) conn1 with
    | (Some err, conn2) => Some (err, conn2, snd (dispatch c handler event log))
    | (None, conn2) =>
        processConnection fuel c handler conn2 (snd (dispatch c handler event log))
    end.
Proof.
  intros R Hid. simpl. rewrite R.
  destruct (dispatch c handler event log) as [response log1].
  now rewrite (TrimSpace_nonblank_eqb _ Hid).
Qed.

(** More fuel does not change what the loop returns. *)
Lemma processConnection_mono fuel : forall c handler (conn : C) log r,
  processConnection fuel c handler conn log = Some r ->
  forall fuel', (fuel <= fuel')%nat -> processConnection fuel' c handler conn log = Some r.
Proof.
  induction fuel as [|fuel IH]; intros c handler conn log r Hr fuel' Hle; [discriminate|].
  destruct fuel' as [|fuel']; [lia|]. assert (Hle' : (fuel <= fuel')%nat) by lia.
  simpl in Hr |- *.
  destruct (ReadJSON conn) as [[event|err] conn1]; [|exact Hr].
  destruct (dispatch c handler event log) as [response log1].
  destruct (String.eqb _ _); [eapply IH; eassumption|].
  destruct (WriteJSON _ conn1) as [[err|] conn2]; [exact Hr | eapply IH; eassumption].
Qed.

End Loop.

(** On a scripted connection the loop returns within one turn per scripted
    read and one more. *)
Lemma processConnection_scripted_total fuel : forall c handler (conn : scriptedConn) log,
  (length (reads conn) < fuel)%nat ->
  exists r, processConnection fuel c handler conn log = Some r.
Proof.
  induction fuel as [|fuel IH]; intros c handler conn log Hfuel; [lia|].
  simpl. unfold scripted_ReadJSON.
  destruct (reads conn) as [|[event|err] later] eqn:Hr; [eauto | | eauto].
  simpl in Hfuel.
  destruct (dispatch c handler event log) as [response log1].
  destruct (String.eqb _ _).
  - apply IH. simpl. lia.
  - unfold scripted_WriteJSON; simpl.
    destruct (writeOutcomes conn) as [|[err|] outcomes]; [| eauto |];
      apply IH; simpl; lia.
Qed.

(** C10.  An envelope whose [envelope_id] is not empty but made of white
    space only is handled as one without [envelope_id]: after the handler has
    been called, the loop goes straight to the next read with the connection
    as the read left it, so no acknowledgement is written for it; this is the
    very step the loop takes for the same envelope with an empty
    [envelope_id] when the handler answers both alike. *)
Theorem C10_blank_envelope_id_not_acked {C : Type} `{SocketModeConn C}
    fuel c handler (conn conn1 : C) log event :
  ReadJSON conn = (inl event, conn1) ->
  EnvelopeID event <> ""%string ->
  onlySpaces (EnvelopeID event) ->
  TrimSpace (EnvelopeID event) = TrimSpace ""
  /\ processConnection (S fuel) c handler conn log
     = processConnection fuel c handler conn1 (snd (dispatch c handler event log)).
Proof.
  intros R _ Hblank. apply TrimSpace_onlySpaces in Hblank.
  split; [rewrite Hblank; reflexivity|].
  now apply processConnection_unacked.
Qed.

(** An envelope whose id is a space, a tab and a no-break space (U+00A0),
    with a handler that answers with a payload: nothing is written. *)
Lemma C10_blank_envelope_id_not_acked_witness :
  let blank := String " " (String "009" (String (ascii_of_N 0xC2)
                 (String (ascii_of_N 0xA0) EmptyString))) in
  let event := envelope "events_api" blank true in
  let handler : SocketModeHandler :=
    fun _ => (Some {| ResponsePayload := anyString "done" |}, None) in
  let c := {| appToken := "xapp-test"; baseURL := Some "https://slack.com/api";
              transport := true; dialer := true; reconnectDelay := 0; logger := true |} in
  processConnection 3 c (Some handler) (freshConn [inl event] EOF) []
  = Some (EOF, freshConn [] EOF, []).
Proof.
  intros blank event handler c.
  destruct (C10_blank_envelope_id_not_acked 2 c (Some handler)
              (freshConn [inl event] EOF) (freshConn [] EOF) [] event) as [_ Hstep].
  - reflexivity.
  - discriminate.
  - exists [[" "%char]; ["009"%char]; [ascii_of_N 0xC2; ascii_of_N 0xA0]].
    split; [|reflexivity].
    repeat constructor; unfold utf8Spaces; simpl; tauto.
  - rewrite Hstep. reflexivity.
Defined.

(** *** What is written for an event *)

Lemma buildAck_envelope_id event response :
  buildAck event response !! "envelope_id"%string = Some (anyString (EnvelopeID event)).
Proof.
  unfold buildAck. destruct response as [r|]; [destruct (AcceptsResponsePayload event)|].
  - rewrite lookup_insert_ne by discriminate. apply lookup_singleton_eq.
  - apply lookup_singleton_eq.
  - apply lookup_singleton_eq.
Qed.

Lemma buildAck_payload event response :
  buildAck event response !! "payload"%string
  = match response with
    | Some r => if AcceptsResponsePayload event then Some (ResponsePayload r) else None
    | None => None
    end.
Proof.
  unfold buildAck. destruct response as [r|]; [destruct (AcceptsResponsePayload event)|].
  - apply lookup_insert_eq.
  - apply lookup_singleton_ne. discriminate.
  - apply lookup_singleton_ne. discriminate.
Qed.

(** The response the loop keeps is the handler's, when there is a handler and
    it returned no error. *)
Lemma dispatch_response c handler event log r :
  fst (dispatch c handler event log) = Some r <->
  exists h, handler = Some h /\ h event = (Some r, None).
Proof.
  unfold dispatch. destruct handler as [h|]; simpl.
  - destruct (h event) as [resp [err|]] eqn:E; simpl.
    + split; [discriminate | intros (h' & Hh & E'); congruence].
    + split.
      * intros ->. eauto.
      * intros (h' & Hh & E'). congruence.
  - split; [discriminate | intros (h' & Hh & _); discriminate].
Qed.

Lemma acknowledged_ack c handler event log :
  TrimSpace (EnvelopeID event) <> ""%string ->
  acknowledged handler event
    (Some (buildAck event (fst (dispatch c handler event log)))).
Proof.
  intros Hid. split; [split; [auto | eauto]|].
  intros ack [= <-]. split; [apply buildAck_envelope_id|].
  rewrite buildAck_payload.
  destruct (fst (dispatch c handler event log)) as [r|] eqn:D.
  - apply dispatch_response in D as (h & Hh & E).
    destruct (AcceptsResponsePayload event) eqn:A; split.
    + split; [intros _; eauto | intros _; eauto].
    + intros h' r' Hh' E' _. congruence.
    + split; [intros [x Hx]; discriminate | intros (h' & r' & _ & _ & Hf); discriminate].
    + intros h' r' _ _ Hf. discriminate.
  - split.
    + split; [intros [x Hx]; discriminate|].
      intros (h & r & Hh & E & _).
      assert (Hr : fst (dispatch c handler event log) = Some r)
        by (apply dispatch_response; eauto).
      congruence.
    + intros h r Hh E _.
      assert (Hr : fst (dispatch c handler event log) = Some r)
        by (apply dispatch_response; eauto).
      congruence.
Qed.

Lemma acknowledged_none handler event :
  TrimSpace (EnvelopeID event) = ""%string -> acknowledged handler event None.
Proof.
  intros Hid. split.
  - split; [intros [x Hx]; discriminate | intros Hn; contradiction].
  - intros ack Hack. discriminate.
Qed.

(** A whole run over a scripted connection that delivers [events] and then
    fails: what has been written at the end. *)
Lemma processConnection_scripted events : forall fuel c handler conn log,
  reads conn = map inl events ->
  writeOutcomes conn = [] ->
  (length events < fuel)%nat ->
  exists outs log',
    Forall2 (acknowledged handler) events outs
    /\ processConnection fuel c handler conn log
       = Some (readsEnd conn,
               {| reads := []; readsEnd := readsEnd conn;
                  writes := writes conn ++ omap id outs;
                  writeOutcomes := []; closed := closed conn |},
               log').
Proof.
  induction events as [|event events IH]; intros fuel c handler conn log Hr Hw Hfuel;
    (destruct fuel as [|fuel]; [simpl in Hfuel; lia|]).
  - exists [], log. split; [constructor|].
    rewrite (processConnection_read_error fuel c handler conn conn log (readsEnd conn)).
    + destruct conn as [rs re ws wo cl]; simpl in *. subst.
      now rewrite app_nil_r.
    + simpl. unfold scripted_ReadJSON. now rewrite Hr.
  - set (conn1 := {| reads := map inl events; readsEnd := readsEnd conn;
                     writes := writes conn; writeOutcomes := writeOutcomes conn;
                     closed := closed conn |}).
    assert (R : ReadJSON conn = (inl event, conn1)).
    { simpl. unfold scripted_ReadJSON. now rewrite Hr. }
    simpl in Hfuel.
    destruct (String.eqb_spec (TrimSpace (EnvelopeID event)) "") as [Hblank|Hid].
    + destruct (IH fuel c handler conn1 (snd (dispatch c handler event log)))
        as (outs & log' & Hall & Hrun); [reflexivity | exact Hw | lia |].
      exists (None :: outs), log'. split.
      * constructor; [now apply acknowledged_none | exact Hall].
      * rewrite (processConnection_unacked _ _ _ _ _ _ _ R Hblank), Hrun. reflexivity.
    + set (ack := buildAck event (fst (dispatch c handler event log))).
      set (conn2 := {| reads := map inl events; readsEnd := readsEnd conn;
                       writes := writes conn ++ [ack]; writeOutcomes := [];
                       closed := closed conn |}).
      destruct (IH fuel c handler conn2 (snd (dispatch c handler event log)))
        as (outs & log' & Hall & Hrun); [reflexivity | reflexivity | lia |].
      exists (Some ack :: outs), log'. split.
      * constructor; [now apply acknowledged_ack | exact Hall].
      * rewrite (processConnection_acked _ _ _ _ _ _ _ R Hid).
        fold ack. simpl WriteJSON. unfold scripted_WriteJSON. simpl. rewrite Hw.
        simpl. fold conn2. rewrite Hrun. simpl. now rewrite <- app_assoc.
Qed.

(** C1, as the code has it.  For an envelope the loop has read from any
    connection: when its [envelope_id] is blank (empty once leading and
    trailing white space is removed) the loop goes to the next read without a
    call of [WriteJSON]; when it is not blank the loop calls [WriteJSON] once,
    with an acknowledgement that carries the envelope's [envelope_id] and has
    a [payload] field if and only if there is a handler, it returned a
    response and no error, and the envelope has [accepts_response_payload]
    set, the field then holding the payload of the response; when that write
    succeeds the loop goes to the next read, and when it fails the loop ends
    with the error of the write.  Hence, in a run that reads [events] from a
    connection accepting every write and then meets a read failure, the
    writes are, in order, one such acknowledgement for each event whose
    [envelope_id] is not blank and nothing for the others. *)
Theorem C1_ack_iff_envelope_id_not_blank :
  (forall (C : Type) (I : SocketModeConn C) fuel c handler (conn conn1 : C) log event,
      ReadJSON conn = (inl event, conn1) ->
      let ack := buildAck event (fst (dispatch c handler event log)) in
      let log1 := snd (dispatch c handler event log) in
      (TrimSpace (EnvelopeID event) = ""%string ->
         processConnection (S fuel) c handler conn log
         = processConnection fuel c handler conn1 log1)
      /\ (TrimSpace (EnvelopeID event) <> ""%string ->
           acknowledged handler event (Some ack)
           /\ (forall conn2, WriteJSON ack conn1 = (None, conn2) ->
                  processConnection (S fuel) c handler conn log
                  = processConnection fuel c handler conn2 log1)
           /\ (forall writeErr conn2, WriteJSON ack conn1 = (Some writeErr, conn2) ->
                  processConnection (S fuel) c handler conn log
                  = Some (writeErr, conn2, log1))))
  /\ (forall events fuel c handler (conn : scriptedConn) log,
        reads conn = map inl events ->
        writeOutcomes conn = [] ->
        (length events < fuel)%nat ->
        exists outs log',
          Forall2 (acknowledged handler) events outs
          /\ processConnection fuel c handler conn log
             = Some (readsEnd conn,
                     {| reads := []; readsEnd := readsEnd conn;
                        writes := writes conn ++ omap id outs;
                        writeOutcomes := []; closed := closed conn |},
                     log')).
Proof.
  split; [|intros events; apply processConnection_scripted].
  intros C I fuel c handler conn conn1 log event R ack log1. split.
  - intros Hblank. now apply processConnection_unacked.
  - intros Hid. split; [now apply acknowledged_ack|]. split.
    + intros conn2 W.
      rewrite (processConnection_acked _ _ _ _ _ _ _ R Hid). fold ack. now rewrite W.
    + intros writeErr conn2 W.
      rewrite (processConnection_acked _ _ _ _ _ _ _ R Hid). fold ack. now rewrite W.
Qed.

(** A greeting without id, two envelopes with an id, the second of which does
    not accept a payload: two acknowledgements are written.  On a connection
    that refuses the write, the envelope "env-1" ends the loop with the error
    of the write and nothing is written. *)
Lemma C1_ack_iff_envelope_id_not_blank_witness :
  (exists outs log',
      Forall2 (acknowledged (Some answering))
        [envelope "hello" "" false; envelope "slash_commands" "env-1" true;
         envelope "events_api" "env-2" false] outs
      /\ processConnection 4 exampleClient (Some answering)
           (freshConn [inl (envelope "hello" "" false);
                       inl (envelope "slash_commands" "env-1" true);
                       inl (envelope "events_api" "env-2" false)] EOF) []
         = Some (EOF,
                 {| reads := []; readsEnd := EOF; writes := [] ++ omap id outs;
                    writeOutcomes := []; closed := false |},
                 log'))
  /\ processConnection 2 exampleClient (Some answering)
       {| reads := [inl (envelope "slash_commands" "env-1" true)]; readsEnd := EOF;
          writes := []; writeOutcomes := [Some ErrClosedPipe]; closed := false |} []
     = Some (ErrClosedPipe, freshConn [] EOF, []).
Proof.
  destruct C1_ack_iff_envelope_id_not_blank as [Hstep Hrun]. split.
  - apply (Hrun
             [envelope "hello" "" false; envelope "slash_commands" "env-1" true;
              envelope "events_api" "env-2" false]
             4%nat exampleClient (Some answering)
             (freshConn [inl (envelope "hello" "" false);
                         inl (envelope "slash_commands" "env-1" true);
                         inl (envelope "events_api" "env-2" false)] EOF) []).
    + reflexivity.
    + reflexivity.
    + simpl. lia.
  - destruct (Hstep scriptedConn scriptedConn_SocketModeConn 1%nat exampleClient
                (Some answering)
                {| reads := [inl (envelope "slash_commands" "env-1" true)];
                   readsEnd := EOF; writes := [];
                   writeOutcomes := [Some ErrClosedPipe]; closed := false |}
                {| reads := []; readsEnd := EOF; writes := [];
                   writeOutcomes := [Some ErrClosedPipe]; closed := false |}
                [] (envelope "slash_commands" "env-1" true) eq_refl) as [_ Hacked].
    destruct Hacked as (_ & _ & Hfail); [vm_compute; discriminate|].
    apply (Hfail ErrClosedPipe (freshConn [] EOF)). reflexivity.
Defined.

(** C1 as stated fails: an envelope whose [envelope_id] is one space has a
    non-empty [envelope_id], and nothing is written for it. *)
Lemma C1_blank_id_counterexample :
  EnvelopeID (envelope "events_api" " " true) <> ""%string
  /\ processConnection 2 exampleClient (Some answering)
       (freshConn [inl (envelope "events_api" " " true)] EOF) []
     = Some (EOF, freshConn [] EOF, []).
Proof. split; [discriminate | reflexivity]. Qed.

(** C7, as the code has it.  When the handler returns an error for an event
    whose [envelope_id] is not blank, the error is logged (when there is a
    logger) and nothing else comes of it: the loop calls [WriteJSON] once,
    with an acknowledgement that holds the [envelope_id] and no [payload]
    field, and when that write succeeds it goes on to the next read; only a
    failure of the write itself ends the loop. *)
Theorem C7_handler_error_still_acked {C : Type} `{SocketModeConn C}
    fuel c (h : SocketModeHandler) (conn conn1 : C) log event response err :
  ReadJSON conn = (inl event, conn1) ->
  h event = (response, Some err) ->
  TrimSpace (EnvelopeID event) <> ""%string ->
  let ack : gmap string any := {[ "envelope_id"%string := anyString (EnvelopeID event) ]} in
  let log1 := printf c log (logHandlerError err) in
  ack !! "payload"%string = None
  /\ (forall conn2, WriteJSON ack conn1 = (None, conn2) ->
        processConnection (S fuel) c (Some h) conn log
        = processConnection fuel c (Some h) conn2 log1)
  /\ (forall writeErr conn2, WriteJSON ack conn1 = (Some writeErr, conn2) ->
        processConnection (S fuel) c (Some h) conn log = Some (writeErr, conn2, log1)).
Proof.
  intros R E Hid ack log1.
  assert (D : dispatch c (Some h) event log = (None, log1)).
  { unfold dispatch. now rewrite E. }
  split; [apply lookup_singleton_ne; discriminate|].
  split.
  - intros conn2 W.
    rewrite (processConnection_acked _ _ _ _ _ _ _ R Hid), D. simpl fst.
    change (buildAck event None) with ack. now rewrite W.
  - intros writeErr conn2 W.
    rewrite (processConnection_acked _ _ _ _ _ _ _ R Hid), D. simpl fst.
    change (buildAck event None) with ack. now rewrite W.
Qed.

(** The handler fails on "env-2": the one write of the run is the bare
    acknowledgement, the error is in the log, and the loop reads on to the
    end of the stream. *)
Lemma C7_handler_error_still_acked_witness :
  processConnection 3 exampleClient (Some failing)
    (freshConn [inl (envelope "events_api" "env-2" true)] EOF) []
  = Some (EOF,
          {| reads := []; readsEnd := EOF;
             writes := [ {[ "envelope_id"%string := anyString "env-2" ]} ];
             writeOutcomes := []; closed := false |},
          [logHandlerError (errorString "handler failed")]).
Proof.
  destruct (C7_handler_error_still_acked 2 exampleClient failing
              (freshConn [inl (envelope "events_api" "env-2" true)] EOF)
              (freshConn [] EOF) [] (envelope "events_api" "env-2" true)
              None (errorString "handler failed")) as (_ & Hgo & _).
  - reflexivity.
  - reflexivity.
  - vm_compute. discriminate.
  - rewrite (Hgo {| reads := []; readsEnd := EOF;
                    writes := [ {[ "envelope_id"%string := anyString "env-2" ]} ];
                    writeOutcomes := []; closed := false |}) by reflexivity.
    reflexivity.
Defined.

(** C7 as stated fails: the handler fails on an envelope whose [envelope_id]
    is one space, which is non-empty, and no acknowledgement is written. *)
Lemma C7_blank_id_counterexample :
  EnvelopeID (envelope "events_api" " " true) <> ""%string
  /\ failing (envelope "events_api" " " true) = (None, Some (errorString "handler failed"))
  /\ processConnection 2 exampleClient (Some failing)
       (freshConn [inl (envelope "events_api" " " true)] EOF) []
     = Some (EOF, freshConn [] EOF, [logHandlerError (errorString "handler failed")]).
Proof. split; [discriminate | split; reflexivity]. Qed.

(** *** The reconnect wait and the run loop *)

Lemma waitReconnect_cancelled c ctx now pick d :
  doneAt ctx = Some d ->
  d <= now \/ d < now + reconnectDelay c ->
  waitReconnect c ctx now pick = (Some (doneErr ctx), Z.max now d).
Proof.
  intros Hd Hwhen. unfold waitReconnect, ctx_Err. rewrite Hd.
  destruct (Z.leb_spec (reconnectDelay c) 0) as [Hz|Hpos].
  - destruct (Z.leb_spec d now); [|lia]. f_equal. lia.
  - destruct (Z.ltb_spec d (now + reconnectDelay c)); [reflexivity | lia].
Qed.

Lemma waitReconnect_elapsed c ctx now pick :
  (forall d, doneAt ctx = Some d -> now + Z.max 0 (reconnectDelay c) < d) ->
  waitReconnect c ctx now pick = (None, now + Z.max 0 (reconnectDelay c)).
Proof.
  intros Hd. unfold waitReconnect, ctx_Err.
  destruct (doneAt ctx) as [d|].
  - specialize (Hd d eq_refl).
    destruct (Z.leb_spec (reconnectDelay c) 0) as [Hz|Hpos].
    + destruct (Z.leb_spec d now); [lia|]. f_equal. lia.
    + destruct (Z.ltb_spec d (now + reconnectDelay c)); [lia|].
      destruct (Z.eqb_spec d (now + reconnectDelay c)); [lia|].
      simpl. f_equal. lia.
  - destruct (Z.leb_spec (reconnectDelay c) 0); f_equal; lia.
Qed.

(** When the context is done no later than the timer fires, the wait either
    reports it or, the timer winning the tie, ends at that very instant. *)
Lemma waitReconnect_done_by_end c ctx now pick d :
  doneAt ctx = Some d ->
  d <= now + Z.max 0 (reconnectDelay c) ->
  waitReconnect c ctx now pick = (Some (doneErr ctx), Z.max now d)
  \/ (waitReconnect c ctx now pick = (None, d) /\ now < d).
Proof.
  intros Hd Hwhen.
  destruct (Z.le_gt_cases d now) as [Hle|Hgt];
    [left; apply waitReconnect_cancelled; auto|].
  destruct (Z.lt_ge_cases d (now + reconnectDelay c)) as [Hlt|Hge];
    [left; apply waitReconnect_cancelled; auto|].
  assert (Hd' : d = now + reconnectDelay c) by lia.
  unfold waitReconnect. rewrite Hd.
  destruct (Z.leb_spec (reconnectDelay c) 0); [lia|].
  destruct (Z.ltb_spec d (now + reconnectDelay c)); [lia|].
  destruct (Z.eqb_spec d (now + reconnectDelay c)); [|lia].
  destruct pick; simpl.
  - right. split; [now rewrite Hd' | lia].
  - left. f_equal. lia.
Qed.

Lemma isCancellation_EOF : isCancellation EOF = false.
Proof. reflexivity. Qed.

Lemma readMessage_close w w1 fin p :
  readFrame w = (inl (wsOpcodeClose, fin, p), w1) -> readMessage w = Some (inr EOF, w1).
Proof. intros R. rewrite readMessage_eq, readMessage_from_step, R. reflexivity. Qed.

Section Run.

Context {C : Type} `{SocketModeConn C}.

Lemma RunWithHandler_configured fuel c ctx handler (attempts : list (@attempt C)) now :
  configured c ->
  RunWithHandler fuel c (Some ctx) handler attempts now
  = RunWithHandler_loop fuel c ctx handler attempts now [].
Proof.
  intros (Htoken & Hurl & Htransport & Hdialer). unfold RunWithHandler.
  rewrite (TrimSpace_nonblank_eqb _ Htoken), Htransport, Hdialer.
  destruct (baseURL c); [reflexivity | contradiction].
Qed.

(** The turn of the run loop in which the connection is processed. *)
Lemma RunWithHandler_loop_connected fuel c ctx handler (a : @attempt C) later now log
    url conn err conn' log' :
  ctx_Err ctx now = None ->
  openResult a = inl url ->
  dialResult a = inl conn ->
  processConnection fuel c handler conn log = Some (err, conn', log') ->
  RunWithHandler_loop (S fuel) c ctx handler (a :: later) now log
  = let t := now + openTime a + dialTime a + connTime a in
    if isCancellation err then Some (err, t, log')
    else match ctx_Err ctx t with
         | Some ctxErr => Some (ctxErr, t, log')
         | None =>
             match waitReconnect c ctx t (timerWins a) with
             | (Some waitErr, t') =>
                 Some (waitErr, t', printf c log' (logConnectionEnded err))
             | (None, t') =>
                 RunWithHandler_loop fuel c ctx handler later t'
                   (printf c log' (logConnectionEnded err))
             end
         end.
Proof.
  intros Hctx Hopen Hdial Hconn. simpl.
  rewrite Hctx, Hopen, Hdial, Hconn. reflexivity.
Qed.

(** The turn of the run loop in which the dial fails. *)
Lemma RunWithHandler_loop_dial_failed fuel c ctx handler (a : @attempt C) later now log
    url err :
  ctx_Err ctx now = None ->
  openResult a = inl url ->
  dialResult a = inr err ->
  RunWithHandler_loop (S fuel) c ctx handler (a :: later) now log
  = match waitReconnect c ctx (now + openTime a + dialTime a) (timerWins a) with
    | (Some waitErr, t') => Some (waitErr, t', printf c log (logDialFailed err))
    | (None, t') =>
        RunWithHandler_loop fuel c ctx handler later t' (printf c log (logDialFailed err))
    end.
Proof.
  intros Hctx Hopen Hdial. simpl.
  rewrite Hctx, Hopen, Hdial. reflexivity.
Qed.

Lemma RunWithHandler_loop_mono fuel : forall c ctx handler (attempts : list (@attempt C))
    now log r,
  RunWithHandler_loop fuel c ctx handler attempts now log = Some r ->
  forall fuel', (fuel <= fuel')%nat ->
  RunWithHandler_loop fuel' c ctx handler attempts now log = Some r.
Proof.
  induction fuel as [|fuel IH]; intros c ctx handler attempts now log r Hr fuel' Hle;
    [discriminate|].
  destruct fuel' as [|fuel']; [lia|]. assert (Hle' : (fuel <= fuel')%nat) by lia.
  simpl in Hr |- *.
  destruct (ctx_Err ctx now); [exact Hr|].
  destruct attempts as [|a later]; [discriminate|].
  destruct (openResult a); [|exact Hr].
  destruct (dialResult a) as [conn|err].
  - destruct (processConnection fuel c handler conn log) as [[[err conn'] log']|] eqn:P;
      [|discriminate].
    rewrite (processConnection_mono _ _ _ _ _ _ P _ Hle').
    destruct (isCancellation err); [exact Hr|].
    destruct (ctx_Err ctx _); [exact Hr|].
    destruct (waitReconnect _ _ _ _) as [[waitErr|] t]; [exact Hr|].
    eapply IH; eassumption.
  - destruct (waitReconnect _ _ _ _) as [[waitErr|] t]; [exact Hr|].
    eapply IH; eassumption.
Qed.

End Run.

(** C3.  A read that fails ends the processing loop with the error of the
    read; a close frame, like the end of the stream, makes the websocket read
    fail with [io.EOF], which is no cancellation.  When the processing loop has ended with [err], the run
    loop returns [err] itself if it is or wraps [context.Canceled] or
    [context.DeadlineExceeded]; otherwise it returns the context's error if
    the context is done by then; otherwise it logs, waits for the reconnect
    delay and, the context staying live through the wait, starts the next
    attempt. *)
Theorem C3_read_failure_reconnects {C : Type} `{SocketModeConn C} :
  (forall fuel c handler (conn conn1 : C) log err,
      ReadJSON conn = (inr err, conn1) ->
      processConnection (S fuel) c handler conn log = Some (err, conn1, log))
  /\ (forall w w1 fin p,
      readFrame w = (inl (wsOpcodeClose, fin, p), w1) ->
      readMessage w = Some (inr EOF, w1) /\ isCancellation EOF = false)
  /\ (forall w,
      reader w = [] -> readerErr w = EOF -> readMessage w = Some (inr EOF, w))
  /\ (forall fuel c ctx handler (a : @attempt C) later now log url conn err conn' log',
      ctx_Err ctx now = None ->
      openResult a = inl url ->
      dialResult a = inl conn ->
      processConnection fuel c handler conn log = Some (err, conn', log') ->
      let t := now + openTime a + dialTime a + connTime a in
      let log'' := printf c log' (logConnectionEnded err) in
      (isCancellation err = true ->
       RunWithHandler_loop (S fuel) c ctx handler (a :: later) now log
       = Some (err, t, log'))
      /\ (isCancellation err = false ->
          forall ctxErr, ctx_Err ctx t = Some ctxErr ->
          RunWithHandler_loop (S fuel) c ctx handler (a :: later) now log
          = Some (ctxErr, t, log'))
      /\ (isCancellation err = false -> ctx_Err ctx t = None ->
          RunWithHandler_loop (S fuel) c ctx handler (a :: later) now log
          = match waitReconnect c ctx t (timerWins a) with
            | (Some waitErr, t') => Some (waitErr, t', log'')
            | (None, t') => RunWithHandler_loop fuel c ctx handler later t' log''
            end)
      /\ (isCancellation err = false ->
          (forall d, doneAt ctx = Some d -> t + Z.max 0 (reconnectDelay c) < d) ->
          RunWithHandler_loop (S fuel) c ctx handler (a :: later) now log
          = RunWithHandler_loop fuel c ctx handler later
              (t + Z.max 0 (reconnectDelay c)) log'')).
Proof.
  split; [intros; now apply processConnection_read_error|].
  split; [intros w w1 fin p R; split;
          [eapply readMessage_close; exact R | apply isCancellation_EOF]|].
  split; [intros [nc r e pool]; simpl; intros -> ->; reflexivity|].
  intros fuel c ctx handler a later now log url conn err conn' log'
    Hctx Hopen Hdial Hconn t log''.
  rewrite (RunWithHandler_loop_connected _ _ _ _ _ _ _ _ _ _ _ _ _ Hctx Hopen Hdial Hconn).
  cbv zeta. fold t. fold log''.
  split; [intros ->; reflexivity|].
  split; [intros -> ctxErr ->; reflexivity|].
  split; [intros -> ->; reflexivity|].
  intros -> Hlive.
  assert (Hnow : ctx_Err ctx t = None).
  { unfold ctx_Err. destruct (doneAt ctx) as [d|]; [|reflexivity].
    specialize (Hlive d eq_refl). destruct (Z.leb_spec d t); [lia | reflexivity]. }
  rewrite Hnow, (waitReconnect_elapsed _ _ _ _ Hlive). reflexivity.
Qed.

(** C9.  If the context is done when [waitReconnect] is entered, or becomes
    done before the reconnect delay has passed, [waitReconnect] returns the
    context's error, and it returns at the instant the context is done (at
    once when it already is); this holds for every delay, zero and negative
    ones included, for which only the first case arises.  In the turn of the
    run loop in which the dial fails, the run loop then returns that error,
    whatever attempts would follow and with no more fuel than that turn's.
    When the context is done at the very instant the timer fires, the pick of
    the [select] does not matter to the run loop: if the wait returns nil, the
    check of [ctx.Err()] that opens the next turn returns the error. *)
Theorem C9_cancelled_wait_returns {C : Type} `{SocketModeConn C} :
  (forall c ctx now pick d,
      doneAt ctx = Some d ->
      d <= now \/ d < now + reconnectDelay c ->
      waitReconnect c ctx now pick = (Some (doneErr ctx), Z.max now d))
  /\ (forall fuel c ctx handler (a : @attempt C) later now log url err d,
      ctx_Err ctx now = None ->
      openResult a = inl url ->
      dialResult a = inr err ->
      doneAt ctx = Some d ->
      let t := now + openTime a + dialTime a in
      d <= t \/ d < t + reconnectDelay c ->
      RunWithHandler_loop (S fuel) c ctx handler (a :: later) now log
      = Some (doneErr ctx, Z.max t d, printf c log (logDialFailed err)))
  /\ (forall fuel c ctx handler (a : @attempt C) later now url err d,
      configured c ->
      ctx_Err ctx now = None ->
      openResult a = inl url ->
      dialResult a = inr err ->
      doneAt ctx = Some d ->
      let t := now + openTime a + dialTime a in
      d <= t \/ d < t + reconnectDelay c ->
      RunWithHandler (S fuel) c (Some ctx) handler (a :: later) now
      = Some (doneErr ctx, Z.max t d, printf c [] (logDialFailed err)))
  /\ (forall fuel c ctx handler (a : @attempt C) later now log url err d,
      ctx_Err ctx now = None ->
      openResult a = inl url ->
      dialResult a = inr err ->
      doneAt ctx = Some d ->
      let t := now + openTime a + dialTime a in
      d <= t + Z.max 0 (reconnectDelay c) ->
      RunWithHandler_loop (S (S fuel)) c ctx handler (a :: later) now log
      = Some (doneErr ctx, Z.max t d, printf c log (logDialFailed err))).
Proof.
  split; [exact waitReconnect_cancelled|].
  assert (Hloop : forall fuel c ctx handler (a : @attempt C) later now log url err d,
             ctx_Err ctx now = None ->
             openResult a = inl url ->
             dialResult a = inr err ->
             doneAt ctx = Some d ->
             d <= now + openTime a + dialTime a
             \/ d < now + openTime a + dialTime a + reconnectDelay c ->
             RunWithHandler_loop (S fuel) c ctx handler (a :: later) now log
             = Some (doneErr ctx, Z.max (now + openTime a + dialTime a) d,
                     printf c log (logDialFailed err))).
  { intros fuel c ctx handler a later now log url err d Hctx Hopen Hdial Hd Hwhen.
    rewrite (RunWithHandler_loop_dial_failed _ _ _ _ _ _ _ _ _ _ Hctx Hopen Hdial).
    now rewrite (waitReconnect_cancelled _ _ _ _ _ Hd Hwhen). }
  split; [|split].
  - intros fuel c ctx handler a later now log url err d Hctx Hopen Hdial Hd t Hwhen.
    now apply (Hloop fuel c ctx handler a later now log url err d).
  - intros fuel c ctx handler a later now url err d Hcfg Hctx Hopen Hdial Hd t Hwhen.
    rewrite (RunWithHandler_configured _ _ _ _ _ _ Hcfg).
    now apply (Hloop fuel c ctx handler a later now [] url err d).
  - intros fuel c ctx handler a later now log url err d Hctx Hopen Hdial Hd t Hwhen.
    rewrite (RunWithHandler_loop_dial_failed _ _ _ _ _ _ _ _ _ _ Hctx Hopen Hdial).
    fold t.
    destruct (waitReconnect_done_by_end c ctx t (timerWins a) d Hd Hwhen)
      as [-> | [-> Hlt]]; [reflexivity|].
    simpl. unfold ctx_Err. rewrite Hd.
    destruct (Z.leb_spec d d); [|lia].
    do 3 f_equal. lia.
Qed.

(** The run loop on a connection that ends at once: with [io.EOF] and a live
    context it waits and starts over; with an error that wraps
    [context.Canceled] it returns that error; with [io.EOF] and a context
    cancelled while the connection was processed it returns
    [context.Canceled]. *)
Lemma C3_read_failure_reconnects_witness :
  processConnection 1 exampleClient None (freshConn [] EOF) []
  = Some (EOF, freshConn [] EOF, [])
  /\ readMessage (idleConn [0x88; 0x00] []) = Some (inr EOF, idleConn [] [])
  /\ readMessage (idleConn [] []) = Some (inr EOF, idleConn [] [])
  /\ RunWithHandler_loop 2 patientClient background None
       [connecting (freshConn [] (wrapError "read" Canceled))] 0 []
     = Some (wrapError "read" Canceled, 112, [])
  /\ RunWithHandler_loop 2 patientClient (cancelledAt 50) None
       [connecting (freshConn [] EOF)] 0 []
     = Some (Canceled, 112, [])
  /\ RunWithHandler_loop 2 patientClient background None
       [connecting (freshConn [] EOF); dialFailing] 0 []
     = RunWithHandler_loop 1 patientClient background None
         [dialFailing] 1000000112 [logConnectionEnded EOF].
Proof.
  destruct (@C3_read_failure_reconnects scriptedConn _)
    as (Hread & Hclose & Hend & Hrun).
  split; [|split; [|split; [|split; [|split]]]].
  - apply (Hread 0%nat exampleClient None (freshConn [] EOF)). reflexivity.
  - apply (Hclose (idleConn [0x88; 0x00] []) (idleConn [] []) true []). reflexivity.
  - apply (Hend (idleConn [] [])); reflexivity.
  - destruct (Hrun 1%nat patientClient background None
                (connecting (freshConn [] (wrapError "read" Canceled))) [] 0 []
                "wss://socket.example/connection-1"%string
                (freshConn [] (wrapError "read" Canceled))
                (wrapError "read" Canceled)
                (freshConn [] (wrapError "read" Canceled)) [])
      as (Hcancel & _); [reflexivity | reflexivity | reflexivity | reflexivity |].
    apply Hcancel. reflexivity.
  - destruct (Hrun 1%nat patientClient (cancelledAt 50) None
                (connecting (freshConn [] EOF)) [] 0 []
                "wss://socket.example/connection-1"%string
                (freshConn [] EOF) EOF (freshConn [] EOF) [])
      as (_ & Hdone & _); [reflexivity | reflexivity | reflexivity | reflexivity |].
    apply Hdone; reflexivity.
  - destruct (Hrun 1%nat patientClient background None
                (connecting (freshConn [] EOF)) [dialFailing] 0 []
                "wss://socket.example/connection-1"%string
                (freshConn [] EOF) EOF (freshConn [] EOF) [])
      as (_ & _ & _ & Hlive); [reflexivity | reflexivity | reflexivity | reflexivity |].
    apply Hlive; [reflexivity | discriminate].
Defined.

(** A dial that fails at instant 12 with the context cancelled at instant
    500, inside the reconnect delay of one second: the run loop returns
    [context.Canceled] at instant 500.  With no delay and the context
    cancelled at instant 10, while dialing, it returns at instant 12.  With
    the context cancelled at the instant the timer fires and the timer
    winning the [select], it returns at that instant from the next turn. *)
Lemma C9_cancelled_wait_returns_witness :
  waitReconnect patientClient (cancelledAt 500) 12 true = (Some Canceled, 500)
  /\ RunWithHandler_loop 1 patientClient (cancelledAt 500) None
       [dialFailing; dialFailing] 0 []
     = Some (Canceled, 500, [logDialFailed (errorString "temporary dial failure")])
  /\ RunWithHandler 1 exampleClient (Some (cancelledAt 10)) None
       [dialFailing; dialFailing] 0
     = Some (Canceled, 12, [logDialFailed (errorString "temporary dial failure")])
  /\ RunWithHandler_loop 2 patientClient (cancelledAt 1000000012) None
       [dialFailing; dialFailing] 0 []
     = Some (Canceled, 1000000012,
             [logDialFailed (errorString "temporary dial failure")]).
Proof.
  destruct (@C9_cancelled_wait_returns scriptedConn _) as (Hwait & Hloop & Hrun & Htie).
  split; [|split; [|split]].
  - apply (Hwait patientClient (cancelledAt 500) 12 true 500).
    + reflexivity.
    + right. simpl. lia.
  - apply (Hloop 0%nat patientClient (cancelledAt 500) None dialFailing [dialFailing] 0 []
             "wss://socket.example/reconnect"%string
             (errorString "temporary dial failure") 500).
    + reflexivity.
    + reflexivity.
    + reflexivity.
    + reflexivity.
    + right. simpl. lia.
  - apply (Hrun 0%nat exampleClient (cancelledAt 10) None dialFailing [dialFailing] 0
             "wss://socket.example/reconnect"%string
             (errorString "temporary dial failure") 10).
    + repeat split; discriminate.
    + reflexivity.
    + reflexivity.
    + reflexivity.
    + reflexivity.
    + left. simpl. lia.
  - apply (Htie 0%nat patientClient (cancelledAt 1000000012) None dialFailing [dialFailing]
             0 [] "wss://socket.example/reconnect"%string
             (errorString "temporary dial failure") 1000000012).
    + reflexivity.
    + reflexivity.
    + reflexivity.
    + reflexivity.
    + simpl. lia.
Defined.

(** * Further properties of the frame codec *)

(** X1.  Masking is its own inverse: applying the masking loop twice with the
    same key, from the same index, gives the payload back, for every key
    (of any length) and every payload; and masking keeps the length. *)
Theorem X1_masking_is_an_involution mask i payload :
  xorMask mask i (xorMask mask i payload) = payload
  /\ length (xorMask mask i payload) = length payload.
Proof. split; [apply xorMask_involutive | apply xorMask_length]. Qed.

(** X2.  For every four-bit opcode and every payload up to the maximum frame
    size, [readFrame] returns exactly the opcode, FIN set and the payload from
    the frame [buildClientFrame] builds, and leaves what follows the frame on
    the reader. *)
Theorem X2_decode_inverts_encode_up_to_maximum opcode payload pool rest c :
  0 <= opcode < 16 ->
  Z.of_nat (length payload) <= maxWebSocketFrameSize ->
  (4 <= length pool)%nat ->
  exists frame,
    buildClientFrame opcode payload pool = (inl frame, skipn 4 pool)
    /\ readFrame (set_reader c (frame ++ rest))
       = (inl (opcode, true, payload), set_reader c rest).
Proof. apply readFrame_buildClientFrame. Qed.

(** A binary frame of 300 bytes, which takes the 16-bit length field. *)
Lemma X2_decode_inverts_encode_up_to_maximum_witness :
  exists frame,
    buildClientFrame wsOpcodeBinary (repeat 0x5A 300) [0x01; 0x02; 0x03; 0x04; 0x05]
    = (inl frame, [0x05])
    /\ readFrame (set_reader (idleConn [] []) (frame ++ [0x88; 0x00]))
       = (inl (wsOpcodeBinary, true, repeat 0x5A 300),
          set_reader (idleConn [] []) [0x88; 0x00]).
Proof.
  apply (X2_decode_inverts_encode_up_to_maximum wsOpcodeBinary (repeat 0x5A 300)
           [0x01; 0x02; 0x03; 0x04; 0x05] [0x88; 0x00] (idleConn [] [])).
  - unfold wsOpcodeBinary. lia.
  - rewrite repeat_length. vm_compute. discriminate.
  - simpl. lia.
Defined.

(** *** Frames are made of bytes *)

Lemma is_byte_iff v : is_byte v <-> byte_of v = v.
Proof.
  split; [apply byte_of_small|]. intros <-. apply byte_of_range.
Qed.

Lemma is_byte_lor a b : is_byte a -> is_byte b -> is_byte (Z.lor a b).
Proof.
  rewrite !is_byte_iff. unfold byte_of. intros Ha Hb.
  now rewrite Z.land_lor_distr_l, Ha, Hb.
Qed.

Lemma land_lxor_distr a b c :
  Z.land (Z.lxor a b) c = Z.lxor (Z.land a c) (Z.land b c).
Proof.
  apply Z.bits_inj'. intros i Hi.
  rewrite Z.land_spec, !Z.lxor_spec, !Z.land_spec.
  now destruct (Z.testbit a i), (Z.testbit b i), (Z.testbit c i).
Qed.

Lemma is_byte_lxor a b : is_byte a -> is_byte b -> is_byte (Z.lxor a b).
Proof.
  rewrite !is_byte_iff. unfold byte_of. intros Ha Hb.
  now rewrite land_lxor_distr, Ha, Hb.
Qed.

Lemma at_is_byte l i : Forall is_byte l -> is_byte (at_ l i).
Proof.
  intros Hl. unfold at_. revert i.
  induction Hl as [|x l Hx Hl IH]; intros [|i]; simpl;
    try (unfold is_byte; lia); auto.
Qed.

Lemma xorMask_bytes mask i payload :
  Forall is_byte mask -> Forall is_byte payload -> Forall is_byte (xorMask mask i payload).
Proof.
  intros Hm Hp. revert i. induction Hp as [|b rest Hb Hrest IH]; intros i; simpl.
  - constructor.
  - constructor; [|apply IH]. apply is_byte_lxor; [exact Hb | now apply at_is_byte].
Qed.

Lemma lengthField_bytes n : Forall is_byte (lengthField n).
Proof.
  unfold lengthField. destruct (n <? 126); [constructor|].
  destruct (n <=? 0xFFFF); unfold PutUint16, PutUint64;
    repeat constructor; apply byte_of_range.
Qed.

Lemma buildClientFrame_inv opcode payload pool frame pool' :
  buildClientFrame opcode payload pool = (inl frame, pool') ->
  (4 <= length pool)%nat /\ pool' = skipn 4 pool.
Proof.
  unfold buildClientFrame, rand_Read.
  destruct (Nat.leb_spec 4 (length pool)) as [Hle|Hgt]; [|discriminate].
  intros E. split; [exact Hle|]. now injection E as _ <-.
Qed.

Lemma buildClientFrame_layout opcode payload pool :
  (4 <= length pool)%nat ->
  buildClientFrame opcode payload pool
  = (inl ([Z.lor 0x80 opcode; Z.lor (lengthCode (Z.of_nat (length payload))) 0x80]
          ++ lengthField (Z.of_nat (length payload))
          ++ firstn 4 pool ++ xorMask (firstn 4 pool) 0 payload),
     skipn 4 pool).
Proof.
  intros Hpool. unfold buildClientFrame, rand_Read, lengthField, lengthCode.
  destruct (Nat.leb_spec 4 (length pool)) as [_|]; [|lia].
  destruct (_ <? 126); [reflexivity|]. destruct (_ <=? 0xFFFF); reflexivity.
Qed.

Lemma lengthCode_byte n : is_byte (lengthCode n).
Proof.
  unfold lengthCode. destruct (n <? 126); [apply byte_of_range|].
  destruct (n <=? 0xFFFF); unfold is_byte; lia.
Qed.

(** X3.  Whatever the opcode byte and the payload, the frame
    [buildClientFrame] returns is a sequence of bytes whose first byte has the
    FIN bit set and whose second byte has the MASK bit set, and exactly four
    bytes of entropy have been used for it. *)
Theorem X3_client_frames_are_masked_bytes opcode payload pool :
  is_byte opcode -> Forall is_byte payload -> Forall is_byte pool ->
  (4 <= length pool)%nat ->
  exists frame,
    buildClientFrame opcode payload pool = (inl frame, skipn 4 pool)
    /\ Forall is_byte frame
    /\ Z.testbit (at_ frame 0) 7 = true
    /\ Z.testbit (at_ frame 1) 7 = true.
Proof.
  intros Hop Hpayload Hpool Hlen.
  eexists. split; [apply buildClientFrame_layout; exact Hlen|].
  assert (H80 : is_byte 0x80) by (unfold is_byte; lia).
  split; [|split].
  - apply Forall_app_2; [|apply Forall_app_2; [|apply Forall_app_2]].
    + constructor; [now apply is_byte_lor|].
      constructor; [|constructor].
      apply is_byte_lor; [apply lengthCode_byte | exact H80].
    + apply lengthField_bytes.
    + now apply Forall_take.
    + apply xorMask_bytes; [now apply Forall_take | exact Hpayload].
  - unfold at_; simpl nth. now rewrite Z.lor_spec.
  - unfold at_; simpl nth. rewrite Z.lor_spec. apply orb_true_r.
Qed.

Lemma X3_client_frames_are_masked_bytes_witness :
  exists frame,
    buildClientFrame wsOpcodePing [0x48; 0x69] [0x37; 0xFA; 0x21; 0x3D] = (inl frame, [])
    /\ Forall is_byte frame
    /\ Z.testbit (at_ frame 0) 7 = true
    /\ Z.testbit (at_ frame 1) 7 = true.
Proof.
  assert (Hb : forall l, Forall (fun b => 0 <= b < 256) l -> Forall is_byte l)
    by (intros l Hl; exact Hl).
  apply (X3_client_frames_are_masked_bytes wsOpcodePing [0x48; 0x69]
           [0x37; 0xFA; 0x21; 0x3D]).
  - unfold is_byte, wsOpcodePing. lia.
  - apply Hb. repeat constructor; lia.
  - apply Hb. repeat constructor; lia.
  - simpl. lia.
Defined.

(** *** What decoding leaves alone *)

Lemma readsOnly_ret {A} (a : A) : readsOnly (ret a).
Proof.
  intros c r c' E. unfold ret in E. injection E as _ <-.
  repeat split. now exists [].
Qed.

Lemma readsOnly_fail {A} e : readsOnly (@fail A e).
Proof.
  intros c r c' E. unfold fail in E. injection E as _ <-.
  repeat split. now exists [].
Qed.

Lemma readsOnly_ReadFull n : readsOnly (ReadFull n).
Proof.
  intros c r c' E. unfold ReadFull in E.
  destruct (n <=? length (reader c))%nat; injection E as _ <-; repeat split; simpl.
  - exists (firstn n (reader c)). symmetry. apply firstn_skipn.
  - exists (reader c). now rewrite app_nil_r.
Qed.

Lemma readsOnly_bind {A B} (m : M A) (f : A -> M B) :
  readsOnly m -> (forall a, readsOnly (f a)) -> readsOnly (bind m f).
Proof.
  intros Hm Hf c r c' E. unfold bind in E.
  destruct (m c) as [[a|e] c1] eqn:Em.
  - destruct (Hm _ _ _ Em) as (C1 & P1 & R1 & u1 & U1).
    destruct (Hf a _ _ _ E) as (C2 & P2 & R2 & u2 & U2).
    repeat split; try congruence.
    exists (u1 ++ u2). rewrite U1, U2. apply app_assoc.
  - injection E as _ <-. exact (Hm _ _ _ Em).
Qed.

Lemma readsOnly_if {A} (b : bool) (m1 m2 : M A) :
  readsOnly m1 -> readsOnly m2 -> readsOnly (if b then m1 else m2).
Proof. now destruct b. Qed.

Lemma readsOnly_readPayloadLength base : readsOnly (readPayloadLength base).
Proof.
  unfold readPayloadLength. apply readsOnly_if.
  - apply readsOnly_bind; [apply readsOnly_ReadFull | intros; apply readsOnly_ret].
  - apply readsOnly_if; [|apply readsOnly_ret].
    apply readsOnly_bind; [apply readsOnly_ReadFull|]. intros ext.
    apply readsOnly_if; [apply readsOnly_fail | apply readsOnly_ret].
Qed.

Lemma readsOnly_readFrame : readsOnly readFrame.
Proof.
  unfold readFrame.
  apply readsOnly_bind; [apply readsOnly_ReadFull|]. intros header.
  apply readsOnly_bind; [apply readsOnly_readPayloadLength|]. intros n.
  apply readsOnly_if; [apply readsOnly_fail|].
  apply readsOnly_bind;
    [apply readsOnly_if; [apply readsOnly_ReadFull | apply readsOnly_ret]|].
  intros mask.
  apply readsOnly_bind;
    [apply readsOnly_if; [apply readsOnly_ReadFull | apply readsOnly_ret]|].
  intros payload. apply readsOnly_ret.
Qed.

Lemma evolves_refl c : evolves c c.
Proof.
  split; [reflexivity|]. split; [now exists []|].
  exists []. destruct (conn c); [now rewrite app_nil_r | exact I].
Qed.

Lemma evolves_trans c1 c2 c3 : evolves c1 c2 -> evolves c2 c3 -> evolves c1 c3.
Proof.
  intros (R1 & (u1 & U1) & (x1 & X1)) (R2 & (u2 & U2) & (x2 & X2)).
  split; [congruence|]. split.
  - exists (u1 ++ u2). rewrite U1, U2. apply app_assoc.
  - exists (x1 ++ x2).
    destruct (conn c1), (conn c2), (conn c3); try contradiction; [|exact I].
    rewrite X2, X1. symmetry. apply app_assoc.
Qed.

Lemma readFrame_evolves c r c' : readFrame c = (r, c') -> evolves c c'.
Proof.
  intros E. destruct (readsOnly_readFrame _ _ _ E) as (Hc & _ & Hr & Hu).
  split; [exact Hr|]. split; [exact Hu|].
  exists []. rewrite Hc. destruct (conn c); [now rewrite app_nil_r | exact I].
Qed.

Lemma writeFrame_evolves opcode payload c r c' :
  writeFrame opcode payload c = (r, c') -> evolves c c'.
Proof.
  unfold writeFrame. intros E.
  destruct (conn c) as [nc|] eqn:Hc.
  - destruct (buildClientFrame _ _ _) as [[frame|err] pool'].
    + destruct (writeResults nc) as [|[err|] later]; injection E as _ <-;
        (split; [reflexivity|]; split; [now exists []|]); simpl; rewrite Hc.
      * now exists [frame].
      * exists []. now rewrite app_nil_r.
      * now exists [frame].
    + injection E as _ <-. split; [reflexivity|]. split; [now exists []|].
      exists []. simpl. rewrite Hc. now rewrite app_nil_r.
  - injection E as _ <-. apply evolves_refl.
Qed.

Lemma readMessage_loop_evolves fuel : forall buffer expect c r c',
  readMessage_loop fuel buffer expect c = Some (r, c') -> evolves c c'.
Proof.
  induction fuel as [|fuel IH]; intros buffer expect c r c' E; [discriminate|].
  simpl in E.
  destruct (readFrame c) as [[[[opcode fin] payload]|err] c1] eqn:R.
  - apply readFrame_evolves in R.
    repeat match type of E with
           | (if ?b then _ else _) = _ => destruct b
           | match writeFrame ?o ?p ?k with _ => _ end = _ =>
               let W := fresh "W" in
               destruct (writeFrame o p k) as [[[]|?] c2] eqn:W;
               apply writeFrame_evolves in W
           end;
      try (injection E as _ <-; eauto using evolves_trans);
      try (apply IH in E; eauto using evolves_trans).
  - injection E as _ <-. eapply readFrame_evolves; exact R.
Qed.

(** X4.  [readFrame] only reads: whether it returns a frame or an error, the
    transport, what has been written to it, the entropy and the transport's
    final error are as before, and the reader holds a suffix of what it held;
    when a frame is returned at least the two header bytes have been taken,
    and the payload is within the maximum frame size. *)
Theorem X4_readFrame_only_reads c r c' :
  readFrame c = (r, c') ->
  conn c' = conn c /\ entropy c' = entropy c /\ readerErr c' = readerErr c
  /\ (exists used, reader c = used ++ reader c'
        /\ forall opcode fin payload, r = inl (opcode, fin, payload) ->
             (2 <= length used)%nat
             /\ Z.of_nat (length payload) <= maxWebSocketFrameSize).
Proof.
  intros E. destruct (readsOnly_readFrame _ _ _ E) as (Hc & Hp & Hr & used & Hu).
  repeat (split; [assumption|]).
  exists used. split; [exact Hu|].
  intros opcode fin payload ->. split.
  - destruct (consumes_readFrame _ _ _ E) as [_ L].
    rewrite Hu, length_app in L. lia.
  - eapply readFrame_payload_bound; exact E.
Qed.

Lemma X4_readFrame_only_reads_witness :
  conn (idleConn [0x88; 0x00] [0x01]) = conn (idleConn [0x81; 0x01; 0x48; 0x88; 0x00] [0x01])
  /\ entropy (idleConn [0x88; 0x00] [0x01]) = [0x01]
  /\ readerErr (idleConn [0x88; 0x00] [0x01]) = EOF
  /\ exists used,
       [0x81; 0x01; 0x48; 0x88; 0x00] = used ++ [0x88; 0x00]
       /\ forall opcode fin payload,
            @inl (Z * bool * list Z) error (wsOpcodeText, true, [0x48])
            = inl (opcode, fin, payload) ->
            (2 <= length used)%nat
            /\ Z.of_nat (length payload) <= maxWebSocketFrameSize.
Proof.
  apply (X4_readFrame_only_reads (idleConn [0x81; 0x01; 0x48; 0x88; 0x00] [0x01])
           (inl (wsOpcodeText, true, [0x48])) (idleConn [0x88; 0x00] [0x01])).
  reflexivity.
Defined.

(** X5.  [readMessage] returns for every state of the connection: it never
    runs on once the bytes on the reader are used up.  Whatever it returns,
    the reader is left with a suffix of what it held, nothing that had been
    written is lost or changed (pong frames are only added at the end), and
    the connection is closed afterwards exactly if it was closed before. *)
Theorem X5_readMessage_returns c :
  exists r c', readMessage c = Some (r, c') /\ evolves c c'.
Proof.
  destruct (readMessage_from_total [] false c) as [[r c'] E].
  exists r, c'. split; [exact E|].
  eapply readMessage_loop_evolves. exact E.
Qed.

(** *** Control frames between the frames of a message *)

Lemma buildClientFrame_decodes opcode payload pool frame pool' :
  buildClientFrame opcode payload pool = (inl frame, pool') ->
  0 <= opcode < 16 ->
  Z.of_nat (length payload) <= maxWebSocketFrameSize ->
  forall k rest,
    readFrame (set_reader k (frame ++ rest))
    = (inl (opcode, true, payload), set_reader k rest).
Proof.
  intros Hb Hop Hmax k rest.
  destruct (buildClientFrame_inv _ _ _ _ _ Hb) as [Hpool _].
  destruct (readFrame_buildClientFrame opcode payload pool rest k Hop Hmax Hpool)
    as (frame' & Hb' & Hr).
  rewrite Hb in Hb'. injection Hb' as -> _. exact Hr.
Qed.

Lemma writeFrame_inl_inv opcode payload c u c2 :
  writeFrame opcode payload c = (inl u, c2) ->
  exists frame pool',
    buildClientFrame opcode payload (entropy c) = (inl frame, pool')
    /\ writtenOn c2 = writtenOn c ++ [frame].
Proof.
  unfold writeFrame, writtenOn. intros E.
  destruct (conn c) as [nc|]; [|discriminate].
  destruct (buildClientFrame _ _ _) as [[frame|err] pool']; [|discriminate].
  exists frame, pool'. split; [reflexivity|].
  destruct (writeResults nc) as [|[err|] later]; [| discriminate |];
    injection E as _ <-; reflexivity.
Qed.

Lemma readFrame_writtenOn c r c' : readFrame c = (r, c') -> writtenOn c' = writtenOn c.
Proof.
  intros E. destruct (readsOnly_readFrame _ _ _ E) as (Hc & _).
  unfold writtenOn. now rewrite Hc.
Qed.

(** X6.  Pings and pongs that arrive before a message or between its
    fragments do not disturb it, as long as the pong for each ping is written
    without error (the connection is open, the masking key is drawn and the
    transport accepts the write): the loop of [readMessage] is then where it
    was, with the same buffered fragments and the same expectation of a
    continuation, so it returns what the frames after them give.  What has
    been written meanwhile is exactly one pong per ping, in the order of the
    pings, each carrying the payload of its ping; pongs received add
    nothing. *)
Theorem X6_control_frames_are_transparent frames : forall c c' buffer expect,
  skipsControl c frames c' ->
  readMessage_from buffer expect c = readMessage_from buffer expect c'
  /\ exists pongs,
       writtenOn c' = writtenOn c ++ pongs
       /\ Forall2 isPongFor (pingPayloads frames) pongs.
Proof.
  induction frames as [|[[opcode fin] payload] later IH]; intros c c' buffer expect S.
  - simpl in S. subst c'. split; [reflexivity|].
    exists []. split; [now rewrite app_nil_r | constructor].
  - simpl in S. destruct S as (c1 & R & [[-> S] | [-> (c2 & W & S)]]).
    + destruct (IH _ _ buffer expect S) as (Hgo & pongs & Hw & Hall).
      split.
      * rewrite readMessage_from_step, R. exact Hgo.
      * exists pongs. split; [|exact Hall].
        now rewrite Hw, (readFrame_writtenOn _ _ _ R).
    + destruct (IH _ _ buffer expect S) as (Hgo & pongs & Hw & Hall).
      destruct (writeFrame_inl_inv _ _ _ _ _ W) as (frame & pool' & Hb & Hw2).
      split.
      * rewrite readMessage_from_step, R. simpl. rewrite W. exact Hgo.
      * exists (frame :: pongs). split.
        -- rewrite Hw, Hw2, (readFrame_writtenOn _ _ _ R), <- app_assoc. reflexivity.
        -- unfold pingPayloads. simpl. constructor; [|exact Hall].
           intros k rest. eapply buildClientFrame_decodes; [exact Hb | | ].
           ++ unfold wsOpcodePong. lia.
           ++ eapply readFrame_payload_bound; exact R.
Qed.

(** A ping "A", a pong and a ping "B" ahead of the text frame "C": two pongs
    are written, "A" then "B". *)
Lemma X6_control_frames_are_transparent_witness :
  readMessage_from [] false
    (busyConn [] [0x89; 0x01; 0x41; 0x8A; 0x00; 0x89; 0x01; 0x42; 0x81; 0x01; 0x43]
       [1; 2; 3; 4; 5; 6; 7; 8])
  = readMessage_from [] false
      (busyConn [[0x8A; 0x81; 1; 2; 3; 4; 0x40]; [0x8A; 0x81; 5; 6; 7; 8; 0x47]]
         [0x81; 0x01; 0x43] [])
  /\ exists pongs,
       [[0x8A; 0x81; 1; 2; 3; 4; 0x40]; [0x8A; 0x81; 5; 6; 7; 8; 0x47]] = [] ++ pongs
       /\ Forall2 isPongFor [[0x41]; [0x42]] pongs.
Proof.
  apply (X6_control_frames_are_transparent
           [(wsOpcodePing, true, [0x41]); (wsOpcodePong, true, []);
            (wsOpcodePing, true, [0x42])]
           (busyConn [] [0x89; 0x01; 0x41; 0x8A; 0x00; 0x89; 0x01; 0x42; 0x81; 0x01; 0x43]
              [1; 2; 3; 4; 5; 6; 7; 8])
           (busyConn [[0x8A; 0x81; 1; 2; 3; 4; 0x40]; [0x8A; 0x81; 5; 6; 7; 8; 0x47]]
              [0x81; 0x01; 0x43] [])).
  simpl.
  exists (busyConn [] [0x8A; 0x00; 0x89; 0x01; 0x42; 0x81; 0x01; 0x43]
            [1; 2; 3; 4; 5; 6; 7; 8]).
  split; [reflexivity|]. right. split; [reflexivity|].
  exists (busyConn [[0x8A; 0x81; 1; 2; 3; 4; 0x40]]
            [0x8A; 0x00; 0x89; 0x01; 0x42; 0x81; 0x01; 0x43] [5; 6; 7; 8]).
  split; [reflexivity|].
  exists (busyConn [[0x8A; 0x81; 1; 2; 3; 4; 0x40]]
            [0x89; 0x01; 0x42; 0x81; 0x01; 0x43] [5; 6; 7; 8]).
  split; [reflexivity|]. left. split; [reflexivity|].
  exists (busyConn [[0x8A; 0x81; 1; 2; 3; 4; 0x40]] [0x81; 0x01; 0x43] [5; 6; 7; 8]).
  split; [reflexivity|]. right. split; [reflexivity|].
  exists (busyConn [[0x8A; 0x81; 1; 2; 3; 4; 0x40]; [0x8A; 0x81; 5; 6; 7; 8; 0x47]]
            [0x81; 0x01; 0x43] []).
  split; reflexivity.
Defined.

(** *** Streams that end inside a frame *)

Lemma app_eq_split {A} (p : list A) : forall q a b,
  p ++ q = a ++ b ->
  (exists a2, a = p ++ a2 /\ a2 <> [] /\ q = a2 ++ b)
  \/ (exists p', p = a ++ p' /\ p' ++ q = b).
Proof.
  induction p as [|x p IH]; intros q a b E.
  - destruct a as [|y a].
    + right. exists []. auto.
    + left. exists (y :: a). repeat split; [discriminate | exact E].
  - destruct a as [|y a].
    + right. exists (x :: p). auto.
    + simpl in E. injection E as -> E.
      destruct (IH _ _ _ E) as [(a2 & -> & Ha2 & ->) | (p' & -> & <-)].
      * left. exists a2. auto.
      * right. exists p'. auto.
Qed.

Lemma ReadFull_short n l c :
  readerErr c = EOF ->
  (length l < n)%nat ->
  ReadFull n (set_reader c l)
  = (inr (match l with [] => EOF | _ => ErrUnexpectedEOF end), set_reader c []).
Proof.
  intros He Hlen. unfold ReadFull. rewrite reader_set_reader.
  destruct (Nat.leb_spec n (length l)); [lia|].
  simpl. rewrite He. destruct l; reflexivity.
Qed.

(** The stream ends in the key or in the payload. *)
Lemma readFrame_cut_after_length c h0 h1 ext mask masked p2 q n :
  readerErr c = EOF ->
  length mask = 4%nat ->
  length masked = Z.to_nat n ->
  0 <= n <= maxWebSocketFrameSize ->
  (Z.land h1 0x80 =? 0) = false ->
  readPayloadLength (Z.land h1 0x7F) (set_reader c (ext ++ p2)) = (inl n, set_reader c p2) ->
  p2 ++ q = mask ++ masked ->
  q <> [] ->
  readFrame (set_reader c ([h0; h1] ++ ext ++ p2))
  = (inr (if (length p2 =? 0)%nat || (length p2 =? 4)%nat
          then EOF else ErrUnexpectedEOF),
     set_reader c []).
Proof.
  intros He Hmask Hmasked Hn Hbit Hpl Hsplit Hq. unfold readFrame.
  rewrite (bind_inl _ _ _ _ _ (ReadFull_app_n 2 [h0; h1] _ c eq_refl)).
  unfold at_; simpl nth.
  rewrite (bind_inl _ _ _ _ _ Hpl).
  destruct (Z.gtb_spec n maxWebSocketFrameSize) as [|_]; [lia|].
  rewrite Hbit; simpl negb.
  destruct (app_eq_split _ _ _ _ Hsplit) as [(m2 & Hm & Hm2 & _) | (p3 & -> & Hp3)].
  - assert (Hshort : (length p2 < 4)%nat).
    { rewrite <- Hmask, Hm, length_app. destruct m2; [contradiction | simpl; lia]. }
    rewrite (bind_inr _ _ _ _ _ (ReadFull_short 4 p2 c He Hshort)).
    destruct p2 as [|? [|? [|? [|? ?]]]]; simpl in Hshort; try lia; reflexivity.
  - rewrite (bind_inl _ _ _ _ _ (ReadFull_app_n 4 mask _ c Hmask)).
    assert (Hshort : (length p3 < Z.to_nat n)%nat).
    { rewrite <- Hmasked, <- Hp3, length_app. destruct q; [contradiction | simpl; lia]. }
    destruct (Z.gtb_spec n 0) as [_|Hz]; [|lia].
    rewrite (bind_inr _ _ _ _ _ (ReadFull_short _ p3 c He Hshort)).
    destruct mask as [|? [|? [|? [|? [|? ?]]]]]; try discriminate.
    destruct p3; reflexivity.
Qed.

(** The stream ends in the header or in the extended length. *)
Lemma readFrame_cut_in_header c p :
  readerErr c = EOF ->
  (length p < 2)%nat ->
  readFrame (set_reader c p)
  = (inr (match p with [] => EOF | _ => ErrUnexpectedEOF end), set_reader c []).
Proof.
  intros He Hlen. unfold readFrame.
  now rewrite (bind_inr _ _ _ _ _ (ReadFull_short 2 p c He Hlen)).
Qed.

Lemma readFrame_cut_in_length c h0 h1 p1 code size :
  readerErr c = EOF ->
  Z.land h1 0x7F = code ->
  (code = 126 /\ size = 2%nat) \/ (code = 127 /\ size = 8%nat) ->
  (length p1 < size)%nat ->
  readFrame (set_reader c ([h0; h1] ++ p1))
  = (inr (match p1 with [] => EOF | _ => ErrUnexpectedEOF end), set_reader c []).
Proof.
  intros He Hcode Hsize Hlen. unfold readFrame.
  rewrite (bind_inl _ _ _ _ _ (ReadFull_app_n 2 [h0; h1] _ c eq_refl)).
  unfold at_; simpl nth. rewrite Hcode.
  apply bind_inr. unfold readPayloadLength.
  destruct Hsize as [[-> ->] | [-> ->]].
  - change (126 =? 126) with true; cbv iota.
    apply bind_inr. now apply ReadFull_short.
  - change (127 =? 126) with false; change (127 =? 127) with true; cbv iota.
    apply bind_inr. now apply ReadFull_short.
Qed.

Ltac split_tests :=
  repeat match goal with
         | |- context [Nat.eqb ?a ?b] => destruct (Nat.eqb_spec a b); try lia
         | |- context [Z.eqb ?a ?b] => destruct (Z.eqb_spec a b); try lia
         end.

(** X7.  A stream that ends inside a frame built by [buildClientFrame] for a
    payload of at most the maximum frame size never yields a frame:
    [readFrame] fails, having used up the reader.  The error is
    [io.ErrUnexpectedEOF] when the stream ends inside a field, and the plain
    [io.EOF] of a closed stream when it ends exactly between two fields
    (before the header, after it, after the extended length, after the
    key). *)
Theorem X7_truncated_frame_is_not_decoded opcode payload pool frame pool' p q c :
  buildClientFrame opcode payload pool = (inl frame, pool') ->
  Z.of_nat (length payload) <= maxWebSocketFrameSize ->
  frame = p ++ q ->
  q <> [] ->
  readerErr c = EOF ->
  readFrame (set_reader c p)
  = (inr (if cutAtFieldBoundary (Z.of_nat (length payload)) (Z.of_nat (length p))
          then EOF else ErrUnexpectedEOF),
     set_reader c []).
Proof.
  intros Hb Hmax Hsplit Hq He.
  destruct (buildClientFrame_inv _ _ _ _ _ Hb) as [Hpool _].
  destruct (buildClientFrame_ok opcode payload pool Hpool) as (h1 & Hb' & Hbit & Hfield).
  rewrite Hb in Hb'. injection Hb' as Hframe. clear Hb.
  assert (Hmaxv : maxWebSocketFrameSize = 33554432) by reflexivity.
  assert (Hint : maxInt = 2 ^ 63 - 1) by reflexivity.
  set (n := Z.of_nat (length payload)) in *.
  set (mask := firstn 4 pool) in *.
  assert (Hmask : length mask = 4%nat) by (unfold mask; rewrite length_take; lia).
  assert (Hmasked : length (xorMask mask 0 payload) = Z.to_nat n)
    by (rewrite xorMask_length; unfold n; now rewrite Nat2Z.id).
  rewrite Hframe in Hsplit. symmetry in Hsplit.
  destruct (app_eq_split p q [Z.lor 0x80 opcode; h1]
              (lengthField n ++ mask ++ xorMask mask 0 payload) Hsplit)
    as [(a2 & Ha & Ha2 & _) | (p1 & -> & Hp1)].
  - (* in the header *)
    assert (Hlen : (length p < 2)%nat).
    { apply (f_equal (@length Z)) in Ha. rewrite length_app in Ha. simpl in Ha.
      destruct a2; [contradiction | simpl in Ha; lia]. }
    rewrite (readFrame_cut_in_header c p He Hlen).
    f_equal. f_equal. unfold cutAtFieldBoundary, extendedLengthBytes.
    destruct p as [|x [|y p]]; simpl in Hlen; try lia; simpl length;
      destruct (n <? 126); [| destruct (n <=? 0xFFFF) | | destruct (n <=? 0xFFFF)];
      reflexivity.
  - unfold lengthField in Hp1. unfold cutAtFieldBoundary, extendedLengthBytes.
    destruct (Z.ltb_spec n 126) as [H1|H1]; [|destruct (Z.leb_spec n 0xFFFF) as [H2|H2]].
    + (* length in the header *)
      rewrite (readFrame_cut_after_length c _ h1 [] mask _ p1 q n He Hmask Hmasked);
        [ | lia | exact Hbit | | exact Hp1 | exact Hq ].
      * f_equal. f_equal. rewrite length_app. simpl length.
        rewrite Nat2Z.inj_add. simpl Z.of_nat.
        split_tests; reflexivity.
      * rewrite Hfield. apply readPayloadLength_inline. lia.
    + (* 16-bit length *)
      unfold uint16 in Hp1. rewrite Z.mod_small in Hp1 by lia.
      destruct (app_eq_split _ _ _ _ Hp1) as [(e2 & He2 & Hne & _) | (p2 & -> & Hp2)].
      * assert (Hlen : (length p1 < 2)%nat).
        { apply (f_equal (@length Z)) in He2. rewrite length_app in He2. simpl in He2.
          destruct e2; [contradiction | simpl in He2; lia]. }
        rewrite (readFrame_cut_in_length c _ h1 p1 126 2 He Hfield); [|auto|exact Hlen].
        f_equal. f_equal. rewrite length_app.
        destruct p1 as [|x [|y p1]]; simpl in Hlen; try lia; reflexivity.
      * rewrite (readFrame_cut_after_length c _ h1 (PutUint16 n) mask _ p2 q n
                   He Hmask Hmasked);
          [ | lia | exact Hbit | | exact Hp2 | exact Hq ].
        -- f_equal. f_equal. rewrite !length_app. simpl length.
           rewrite !Nat2Z.inj_add. simpl Z.of_nat.
           split_tests; reflexivity.
        -- rewrite Hfield. apply readPayloadLength_16. lia.
    + (* 64-bit length *)
      unfold uint64 in Hp1. rewrite Z.mod_small in Hp1 by lia.
      destruct (app_eq_split _ _ _ _ Hp1) as [(e2 & He2 & Hne & _) | (p2 & -> & Hp2)].
      * assert (Hlen : (length p1 < 8)%nat).
        { apply (f_equal (@length Z)) in He2. rewrite length_app in He2. simpl in He2.
          destruct e2; [contradiction | simpl in He2; lia]. }
        rewrite (readFrame_cut_in_length c _ h1 p1 127 8 He Hfield); [|auto|exact Hlen].
        f_equal. f_equal. rewrite length_app. simpl length.
        rewrite Nat2Z.inj_add. simpl Z.of_nat.
        destruct p1 as [|x p1]; simpl length in *.
        -- reflexivity.
        -- rewrite Nat2Z.inj_succ. split_tests; reflexivity.
      * rewrite (readFrame_cut_after_length c _ h1 (PutUint64 n) mask _ p2 q n
                   He Hmask Hmasked);
          [ | lia | exact Hbit | | exact Hp2 | exact Hq ].
        -- f_equal. f_equal. rewrite !length_app. simpl length.
           rewrite !Nat2Z.inj_add. simpl Z.of_nat.
           split_tests; reflexivity.
        -- rewrite Hfield. apply readPayloadLength_64. lia.
Qed.

(** The frame of the text "Hi" cut inside its key, and cut after its header. *)
Lemma X7_truncated_frame_is_not_decoded_witness :
  readFrame (set_reader (idleConn [] []) [0x81; 0x82; 0x37])
  = (inr ErrUnexpectedEOF, set_reader (idleConn [] []) [])
  /\ readFrame (set_reader (idleConn [] []) [0x81; 0x82])
     = (inr EOF, set_reader (idleConn [] []) []).
Proof.
  split.
  - apply (X7_truncated_frame_is_not_decoded wsOpcodeText [0x48; 0x69]
             [0x37; 0xFA; 0x21; 0x3D] [0x81; 0x82; 0x37; 0xFA; 0x21; 0x3D; 0x7F; 0x93] []
             [0x81; 0x82; 0x37] [0xFA; 0x21; 0x3D; 0x7F; 0x93] (idleConn [] [])).
    + reflexivity.
    + vm_compute. discriminate.
    + reflexivity.
    + discriminate.
    + reflexivity.
  - apply (X7_truncated_frame_is_not_decoded wsOpcodeText [0x48; 0x69]
             [0x37; 0xFA; 0x21; 0x3D] [0x81; 0x82; 0x37; 0xFA; 0x21; 0x3D; 0x7F; 0x93] []
             [0x81; 0x82] [0x37; 0xFA; 0x21; 0x3D; 0x7F; 0x93] (idleConn [] [])).
    + reflexivity.
    + vm_compute. discriminate.
    + reflexivity.
    + discriminate.
    + reflexivity.
Defined.

(** * Properties of the websocket connection *)

Lemma readMessage_single_frame opcode payload frame pool pool' rest c :
  buildClientFrame opcode payload pool = (inl frame, pool') ->
  isDataOpcode opcode ->
  Z.of_nat (length payload) <= maxWebSocketFrameSize ->
  readMessage (set_reader c (frame ++ rest)) = Some (inl payload, set_reader c rest).
Proof.
  intros Hb Hop Hmax.
  rewrite readMessage_eq, readMessage_from_step.
  rewrite (buildClientFrame_decodes _ _ _ _ _ Hb); [| |exact Hmax].
  - now destruct Hop as [-> | ->].
  - destruct Hop as [-> | ->]; [unfold wsOpcodeText | unfold wsOpcodeBinary]; lia.
Qed.

(** X8.  What [WriteJSON] sends, [ReadJSON] receives: when the value encodes
    to at most the maximum frame size and decodes back to itself, a
    [WriteJSON] on an open connection whose write succeeds adds exactly one
    frame to what is written, a complete text frame, and leaves its own reader
    alone; a connection that finds this frame on its reader returns the value
    from [ReadJSON] and keeps what follows the frame for the next read. *)
Theorem X8_WriteJSON_then_ReadJSON {V : Type}
    (Unmarshal : list Z -> result V) (Marshal : V -> result (list Z))
    v payload sender nc receiver rest :
  Marshal v = inl payload ->
  Unmarshal payload = inl v ->
  Z.of_nat (length payload) <= maxWebSocketFrameSize ->
  conn sender = Some nc ->
  nextWriteSucceeds nc = true ->
  (4 <= length (entropy sender))%nat ->
  exists frame sender',
    websocketConn_WriteJSON Marshal v sender = (inl tt, sender')
    /\ writtenOn sender' = writtenOn sender ++ [frame]
    /\ reader sender' = reader sender
    /\ websocketConn_ReadJSON Unmarshal (set_reader receiver (frame ++ rest))
       = Some (inl v, set_reader receiver rest).
Proof.
  intros Hm Hu Hmax Hc Hw Hpool.
  destruct (writeFrame_ok wsOpcodeText payload sender nc Hc Hw Hpool)
    as (frame & Hb & Hwf).
  exists frame. eexists. unfold websocketConn_WriteJSON. rewrite Hm.
  split; [exact Hwf|]. split; [|split].
  - unfold writtenOn. simpl. now rewrite Hc.
  - reflexivity.
  - unfold websocketConn_ReadJSON.
    rewrite (readMessage_single_frame _ _ _ _ _ rest receiver Hb); [|now left|exact Hmax].
    now rewrite Hu.
Qed.

(** With the identity as codec: the bytes "Hi" sent and received, a close
    frame following on the receiver's side. *)
Lemma X8_WriteJSON_then_ReadJSON_witness :
  exists frame sender',
    websocketConn_WriteJSON (fun v : list Z => inl v) [0x48; 0x69]
      (idleConn [] [0x37; 0xFA; 0x21; 0x3D])
    = (inl tt, sender')
    /\ writtenOn sender' = writtenOn (idleConn [] [0x37; 0xFA; 0x21; 0x3D]) ++ [frame]
    /\ reader sender' = reader (idleConn [] [0x37; 0xFA; 0x21; 0x3D])
    /\ websocketConn_ReadJSON (fun m : list Z => inl m)
         (set_reader (idleConn [] []) (frame ++ [0x88; 0x00]))
       = Some (inl [0x48; 0x69], set_reader (idleConn [] []) [0x88; 0x00]).
Proof.
  apply (X8_WriteJSON_then_ReadJSON (fun m : list Z => inl m) (fun v : list Z => inl v)
           [0x48; 0x69] [0x48; 0x69] (idleConn [] [0x37; 0xFA; 0x21; 0x3D])
           {| written := []; writeResults := [] |} (idleConn [] []) [0x88; 0x00]).
  - reflexivity.
  - reflexivity.
  - vm_compute. discriminate.
  - reflexivity.
  - reflexivity.
  - simpl. lia.
Defined.

(** *** Closing *)

(** X9.  [Close] is idempotent and final.  The first [Close] closes the
    transport and returns what that returns; any later [Close] returns nil
    and changes nothing; after it every [writeFrame], and so every
    [WriteJSON] whose value encodes, fails with [io.ErrClosedPipe] without
    drawing entropy.  What was buffered on the reader stays readable. *)
Theorem X9_Close_is_idempotent {W : Type} (Marshal : W -> result (list Z))
    closeResult closeResult' c opcode payload v :
  let closed := snd (websocketConn_Close closeResult c) in
  fst (websocketConn_Close closeResult c)
  = match conn c with Some _ => closeResult | None => None end
  /\ websocketConn_Close closeResult' closed = (None, closed)
  /\ writeFrame opcode payload closed = (inr ErrClosedPipe, closed)
  /\ (Marshal v = inl payload ->
      websocketConn_WriteJSON Marshal v closed = (inr ErrClosedPipe, closed))
  /\ reader closed = reader c /\ readerErr closed = readerErr c
  /\ entropy closed = entropy c.
Proof.
  unfold websocketConn_Close, websocketConn_WriteJSON, writeFrame.
  destruct (conn c) as [nc|] eqn:Hc; simpl; rewrite ?Hc;
    repeat split; try reflexivity; intros ->; reflexivity.
Qed.

(** Closing a connection whose transport reports an error on close. *)
Lemma X9_Close_is_idempotent_witness :
  let closed := snd (websocketConn_Close (Some (errorString "close failed"))
                       (idleConn [0x81; 0x00] [1; 2; 3; 4])) in
  fst (websocketConn_Close (Some (errorString "close failed"))
         (idleConn [0x81; 0x00] [1; 2; 3; 4]))
  = Some (errorString "close failed")
  /\ websocketConn_Close (Some (errorString "close failed")) closed = (None, closed)
  /\ writeFrame wsOpcodeText [0x48] closed = (inr ErrClosedPipe, closed)
  /\ websocketConn_WriteJSON (fun v : list Z => inl v) [0x48] closed
     = (inr ErrClosedPipe, closed)
  /\ reader closed = [0x81; 0x00] /\ readerErr closed = EOF
  /\ entropy closed = [1; 2; 3; 4].
Proof.
  intros closed.
  destruct (X9_Close_is_idempotent (fun v : list Z => inl v)
              (Some (errorString "close failed")) (Some (errorString "close failed"))
              (idleConn [0x81; 0x00] [1; 2; 3; 4]) wsOpcodeText [0x48] [0x48])
    as (H1 & H2 & H3 & H4 & H5 & H6 & H7).
  split; [exact H1|]. split; [exact H2|]. split; [exact H3|].
  split; [apply H4; reflexivity|]. auto.
Defined.

(** * Further properties of the supervisor *)

(** *** What a run writes *)

Lemma dispatch_no_handler c event log : dispatch c None event log = (None, log).
Proof. reflexivity. Qed.

(** X10.  Without a handler, as under [Run], in a run that reads [events]
    from a connection accepting every write and then meets a read failure,
    the processing loop acknowledges every envelope whose [envelope_id] is
    not blank with the bare acknowledgement, the [envelope_id] and no payload,
    whatever [accepts_response_payload] says, in the order of arrival; it
    writes nothing else and logs nothing. *)
Theorem X10_no_handler_bare_acks events : forall fuel c (conn : scriptedConn) log,
  reads conn = map inl events ->
  writeOutcomes conn = [] ->
  (length events < fuel)%nat ->
  processConnection fuel c None conn log
  = Some (readsEnd conn,
          {| reads := []; readsEnd := readsEnd conn;
             writes := writes conn ++ map bareAck (List.filter needsAck events);
             writeOutcomes := []; closed := closed conn |},
          log).
Proof.
  induction events as [|event events IH]; intros fuel c conn log Hr Hw Hfuel;
    (destruct fuel as [|fuel]; [simpl in Hfuel; lia|]).
  - rewrite (processConnection_read_error fuel c None conn conn log (readsEnd conn)).
    + destruct conn as [rs re ws wo cl]; simpl in *. subst.
      now rewrite app_nil_r.
    + simpl. unfold scripted_ReadJSON. now rewrite Hr.
  - set (conn1 := {| reads := map inl events; readsEnd := readsEnd conn;
                     writes := writes conn; writeOutcomes := writeOutcomes conn;
                     closed := closed conn |}).
    assert (R : ReadJSON conn = (inl event, conn1)).
    { simpl. unfold scripted_ReadJSON. now rewrite Hr. }
    simpl in Hfuel. cbn [List.filter]. unfold needsAck at 1.
    destruct (String.eqb_spec (TrimSpace (EnvelopeID event)) "") as [Hblank|Hid].
    + rewrite (processConnection_unacked _ _ _ _ _ _ _ R Hblank), dispatch_no_handler.
      simpl snd. rewrite (IH fuel c conn1 log); [reflexivity | reflexivity | exact Hw | lia].
    + rewrite (processConnection_acked _ _ _ _ _ _ _ R Hid), dispatch_no_handler.
      simpl fst. simpl snd. change (buildAck event None) with (bareAck event).
      simpl WriteJSON. unfold scripted_WriteJSON. simpl. rewrite Hw. simpl.
      rewrite (IH fuel c _ log); [|reflexivity|reflexivity|lia].
      simpl. now rewrite <- app_assoc.
Qed.

Lemma X10_no_handler_bare_acks_witness :
  processConnection 4 exampleClient None
    (freshConn [inl (envelope "hello" "" false);
                inl (envelope "slash_commands" "env-1" true);
                inl (envelope "events_api" "  " true)] EOF) []
  = Some (EOF,
          {| reads := []; readsEnd := EOF;
             writes := [] ++ map bareAck
                         (List.filter needsAck
                            [envelope "hello" "" false;
                             envelope "slash_commands" "env-1" true;
                             envelope "events_api" "  " true]);
             writeOutcomes := []; closed := false |},
          []).
Proof.
  apply (X10_no_handler_bare_acks
           [envelope "hello" "" false; envelope "slash_commands" "env-1" true;
            envelope "events_api" "  " true]
           4 exampleClient
           (freshConn [inl (envelope "hello" "" false);
                       inl (envelope "slash_commands" "env-1" true);
                       inl (envelope "events_api" "  " true)] EOF) []).
  - reflexivity.
  - reflexivity.
  - simpl. lia.
Defined.

(** *** A write that fails *)

(** X11.  A failed write of an acknowledgement ends the processing loop with
    the error of the write.  In a run whose first [k] acknowledgements are
    written and whose next write fails with [err], the loop returns [err]
    right after the event whose acknowledgement it was: the [k] earlier
    acknowledgements are all that is written, and the events after that one
    are left unread, so the handler never sees them. *)
Theorem X11_failed_ack_ends_the_loop before : forall fuel c handler (conn : scriptedConn)
    log event later err outcomes,
  reads conn = map inl before ++ inl event :: later ->
  needsAck event = true ->
  writeOutcomes conn
  = repeat None (length (List.filter needsAck before)) ++ Some err :: outcomes ->
  (length before < fuel)%nat ->
  exists acks log',
    length acks = length (List.filter needsAck before)
    /\ processConnection fuel c handler conn log
       = Some (err,
               {| reads := later; readsEnd := readsEnd conn;
                  writes := writes conn ++ acks;
                  writeOutcomes := outcomes; closed := closed conn |},
               log').
Proof.
  induction before as [|first before IH];
    intros fuel c handler conn log event later err outcomes Hr Hack Hw Hfuel;
    (destruct fuel as [|fuel]; [simpl in Hfuel; lia|]).
  - simpl in Hr, Hw.
    set (conn1 := {| reads := later; readsEnd := readsEnd conn;
                     writes := writes conn; writeOutcomes := writeOutcomes conn;
                     closed := closed conn |}).
    assert (R : ReadJSON conn = (inl event, conn1)).
    { simpl. unfold scripted_ReadJSON. now rewrite Hr. }
    unfold needsAck in Hack. apply negb_true_iff, String.eqb_neq in Hack.
    exists [], (snd (dispatch c handler event log)). split; [reflexivity|].
    rewrite (processConnection_acked _ _ _ _ _ _ _ R Hack).
    simpl WriteJSON. unfold scripted_WriteJSON. simpl. rewrite Hw.
    now rewrite app_nil_r.
  - simpl in Hr, Hfuel. cbn [List.filter] in Hw |- *.
    set (conn1 := {| reads := map inl before ++ inl event :: later;
                     readsEnd := readsEnd conn; writes := writes conn;
                     writeOutcomes := writeOutcomes conn; closed := closed conn |}).
    assert (R : ReadJSON conn = (inl first, conn1)).
    { simpl. unfold scripted_ReadJSON. now rewrite Hr. }
    unfold needsAck at 1 in Hw. unfold needsAck at 1.
    destruct (String.eqb_spec (TrimSpace (EnvelopeID first)) "") as [Hblank|Hid];
      simpl negb in *; cbv iota in *.
    + destruct (IH fuel c handler conn1 (snd (dispatch c handler first log))
                  event later err outcomes) as (acks & log' & Hlen & Hrun);
        [reflexivity | exact Hack | exact Hw | lia |].
      exists acks, log'. split; [exact Hlen|].
      rewrite (processConnection_unacked _ _ _ _ _ _ _ R Hblank). exact Hrun.
    + simpl in Hw.
      set (ack := buildAck first (fst (dispatch c handler first log))).
      set (conn2 := {| reads := map inl before ++ inl event :: later;
                       readsEnd := readsEnd conn; writes := writes conn ++ [ack];
                       writeOutcomes := repeat None (length (List.filter needsAck before))
                                        ++ Some err :: outcomes;
                       closed := closed conn |}).
      destruct (IH fuel c handler conn2 (snd (dispatch c handler first log))
                  event later err outcomes) as (acks & log' & Hlen & Hrun);
        [reflexivity | exact Hack | reflexivity | lia |].
      exists (ack :: acks), log'. split; [simpl; now rewrite Hlen|].
      rewrite (processConnection_acked _ _ _ _ _ _ _ R Hid). fold ack.
      simpl WriteJSON. unfold scripted_WriteJSON. simpl. rewrite Hw. simpl.
      fold conn2. rewrite Hrun. simpl. now rewrite <- app_assoc.
Qed.

(** The second acknowledgement cannot be written: "env-3" is never read. *)
Lemma X11_failed_ack_ends_the_loop_witness :
  exists acks log',
    length acks = 1%nat
    /\ processConnection 5 exampleClient (Some answering)
         {| reads := [inl (envelope "events_api" "env-1" false);
                      inl (envelope "events_api" "env-2" false);
                      inl (envelope "events_api" "env-3" false)];
            readsEnd := EOF; writes := [];
            writeOutcomes := [None; Some ErrClosedPipe]; closed := false |} []
       = Some (ErrClosedPipe,
               {| reads := [inl (envelope "events_api" "env-3" false)];
                  readsEnd := EOF; writes := [] ++ acks;
                  writeOutcomes := []; closed := false |},
               log').
Proof.
  apply (X11_failed_ack_ends_the_loop [envelope "events_api" "env-1" false]
           5 exampleClient (Some answering)
           {| reads := [inl (envelope "events_api" "env-1" false);
                        inl (envelope "events_api" "env-2" false);
                        inl (envelope "events_api" "env-3" false)];
              readsEnd := EOF; writes := [];
              writeOutcomes := [None; Some ErrClosedPipe]; closed := false |} []
           (envelope "events_api" "env-2" false)
           [inl (envelope "events_api" "env-3" false)] ErrClosedPipe []).
  - reflexivity.
  - reflexivity.
  - reflexivity.
  - simpl. lia.
Defined.

(** *** The log *)

Lemma printf_grows c log l :
  exists extra, printf c log l = log ++ extra /\ (logger c = false -> extra = []).
Proof.
  unfold printf. destruct (logger c).
  - exists [l]. split; [reflexivity | discriminate].
  - exists []. split; [now rewrite app_nil_r | reflexivity].
Qed.

Section Logs.

Context {C : Type} `{SocketModeConn C}.

Lemma processConnection_log fuel : forall c handler (conn : C) log err conn' log',
  processConnection fuel c handler conn log = Some (err, conn', log') ->
  exists extra,
    log' = log ++ extra
    /\ Forall (fun l => exists e, l = logHandlerError e) extra
    /\ (logger c = false -> extra = []).
Proof.
  induction fuel as [|fuel IH]; intros c handler conn log err conn' log' E; [discriminate|].
  simpl in E.
  destruct (ReadJSON conn) as [[event|rerr] conn1].
  - assert (D : exists extra,
               snd (dispatch c handler event log) = log ++ extra
               /\ Forall (fun l => exists e, l = logHandlerError e) extra
               /\ (logger c = false -> extra = [])).
    { unfold dispatch. destruct handler as [h|].
      - destruct (h event) as [resp [herr|]]; simpl.
        + unfold printf. destruct (logger c).
          * exists [logHandlerError herr]. repeat split; [|discriminate].
            constructor; [eauto | constructor].
          * exists []. rewrite app_nil_r. repeat split. constructor.
        + exists []. rewrite app_nil_r. repeat split. constructor.
      - exists []. simpl. rewrite app_nil_r. repeat split. constructor. }
    destruct (dispatch c handler event log) as [response log1].
    destruct D as (x1 & D & F1 & N1). simpl in D. subst log1. simpl in E.
    assert (Hrec : forall conn2,
               processConnection fuel c handler conn2 (log ++ x1) = Some (err, conn', log') ->
               exists extra,
                 log' = log ++ extra
                 /\ Forall (fun l => exists e, l = logHandlerError e) extra
                 /\ (logger c = false -> extra = [])).
    { intros conn2 E2. destruct (IH _ _ _ _ _ _ _ E2) as (x2 & -> & F2 & N2).
      exists (x1 ++ x2). rewrite app_assoc. repeat split.
      - now apply Forall_app_2.
      - intros Hl. now rewrite N1, N2. }
    destruct (String.eqb _ _); [eapply Hrec; exact E|].
    destruct (WriteJSON _ conn1) as [[werr|] conn2]; [|eapply Hrec; exact E].
    injection E as _ _ <-. exists x1. auto.
  - injection E as _ _ <-. exists []. rewrite app_nil_r. repeat split. constructor.
Qed.

Lemma RunWithHandler_loop_log fuel : forall c ctx handler (attempts : list (@attempt C))
    now log err t log',
  RunWithHandler_loop fuel c ctx handler attempts now log = Some (err, t, log') ->
  exists extra, log' = log ++ extra /\ (logger c = false -> extra = []).
Proof.
  induction fuel as [|fuel IH]; intros c ctx handler attempts now log err t log' E;
    [discriminate|].
  assert (Hsame : exists extra : list logLine,
             log = log ++ extra /\ (logger c = false -> extra = []))
    by (exists []; now rewrite app_nil_r).
  assert (Hstep : forall l0 x0 l1,
             l0 = log ++ x0 -> (logger c = false -> x0 = []) ->
             (exists x1, l1 = l0 ++ x1 /\ (logger c = false -> x1 = [])) ->
             exists extra, l1 = log ++ extra /\ (logger c = false -> extra = [])).
  { intros l0 x0 l1 -> N0 (x1 & -> & N1). exists (x0 ++ x1).
    rewrite app_assoc. split; [reflexivity|]. intros Hl. now rewrite N0, N1. }
  simpl in E.
  destruct (ctx_Err ctx now); [injection E as _ _ <-; exact Hsame|].
  destruct attempts as [|a later]; [discriminate|].
  destruct (openResult a); [|injection E as _ _ <-; exact Hsame].
  destruct (dialResult a) as [conn|derr].
  - destruct (processConnection fuel c handler conn log) as [[[perr conn'] plog]|] eqn:P;
      [|discriminate].
    destruct (processConnection_log _ _ _ _ _ _ _ _ P) as (x0 & Hx0 & _ & N0).
    destruct (isCancellation perr); [injection E as _ _ <-; eauto|].
    destruct (ctx_Err ctx _); [injection E as _ _ <-; eauto|].
    destruct (printf_grows c plog (logConnectionEnded perr)) as (x1 & Hx1 & N1).
    destruct (waitReconnect _ _ _ _) as [[waitErr|] t1].
    + injection E as _ _ <-. eapply Hstep; eauto.
    + apply IH in E. destruct E as (x2 & -> & N2).
      eapply (Hstep plog x0); [exact Hx0 | exact N0 |].
      exists (x1 ++ x2). rewrite Hx1, app_assoc. split; [reflexivity|].
      intros Hl. now rewrite N1, N2.
  - destruct (printf_grows c log (logDialFailed derr)) as (x1 & Hx1 & N1).
    destruct (waitReconnect _ _ _ _) as [[waitErr|] t1].
    + injection E as _ _ <-. eauto.
    + apply IH in E. destruct E as (x2 & -> & N2).
      exists (x1 ++ x2). rewrite Hx1, app_assoc. split; [reflexivity|].
      intros Hl. now rewrite N1, N2.
Qed.

End Logs.

(** X12.  The log only grows: when the processing loop or the run loop
    returns, the log it leaves is the log it was given followed by what it
    logged; the processing loop logs nothing but handler errors; and a client
    without a logger logs nothing at all. *)
Theorem X12_log_only_grows {C : Type} `{SocketModeConn C} :
  (forall fuel c handler (conn : C) log err conn' log',
      processConnection fuel c handler conn log = Some (err, conn', log') ->
      exists extra,
        log' = log ++ extra
        /\ Forall (fun l => exists e, l = logHandlerError e) extra
        /\ (logger c = false -> extra = []))
  /\ (forall fuel c ctx handler (attempts : list (@attempt C)) now log err t log',
      RunWithHandler_loop fuel c ctx handler attempts now log = Some (err, t, log') ->
      exists extra, log' = log ++ extra /\ (logger c = false -> extra = [])).
Proof.
  split.
  - intros fuel. apply processConnection_log.
  - intros fuel. apply RunWithHandler_loop_log.
Qed.

Lemma X12_log_only_grows_witness :
  (exists extra,
      [logDialFailed EOF; logHandlerError (errorString "handler failed")]
      = [logDialFailed EOF] ++ extra
      /\ Forall (fun l => exists e, l = logHandlerError e) extra
      /\ (logger exampleClient = false -> extra = []))
  /\ exists extra,
       [logDialFailed (errorString "temporary dial failure")] = [] ++ extra
       /\ (logger patientClient = false -> extra = []).
Proof.
  destruct (@X12_log_only_grows scriptedConn _) as (Hloop & Hrun).
  split.
  - apply (Hloop 3%nat exampleClient (Some failing)
             (freshConn [inl (envelope "events_api" "env-2" true)] EOF)
             [logDialFailed EOF] EOF
             {| reads := []; readsEnd := EOF;
                writes := [ {[ "envelope_id"%string := anyString "env-2" ]} ];
                writeOutcomes := []; closed := false |}).
    reflexivity.
  - apply (Hrun 1%nat patientClient (cancelledAt 500) None [dialFailing; dialFailing]
             0 [] Canceled 500).
    reflexivity.
Defined.

(** *** Configuration *)

(** X13.  [RunWithHandler] enters its loop exactly when the client is
    configured (an app-level token that is not blank, a base URL, a transport
    and a dialer) and the context is not nil.  Otherwise it returns an error
    at once: at the instant it was called, with nothing logged, whatever
    attempts the world has in store and even with no fuel at all, that is
    before any call to the control plane or any dial. *)
Theorem X13_configuration_checked_first {C : Type} `{SocketModeConn C}
    fuel c handler (attempts : list (@attempt C)) now :
  (exists msg,
      RunWithHandler fuel c None handler attempts now = Some (errorString msg, now, []))
  /\ (forall ctx, ~ configured c ->
      exists msg,
        RunWithHandler fuel c (Some ctx) handler attempts now
        = Some (errorString msg, now, []))
  /\ (forall ctx, configured c ->
      RunWithHandler fuel c (Some ctx) handler attempts now
      = RunWithHandler_loop fuel c ctx handler attempts now []).
Proof.
  split; [eexists; reflexivity|]. split.
  - intros ctx Hnot. unfold RunWithHandler.
    destruct (String.eqb_spec (TrimSpace (appToken c)) "") as [Ht|Ht]; [eauto|].
    destruct (baseURL c) as [url|] eqn:Hu; [|eauto].
    destruct (transport c) eqn:Htr; [|eauto].
    destruct (dialer c) eqn:Hd; [|eauto].
    exfalso. apply Hnot. repeat split; try assumption. now rewrite Hu.
  - intros ctx Hcfg. now apply RunWithHandler_configured.
Qed.

Lemma X13_configuration_checked_first_witness :
  (exists msg,
      RunWithHandler 0
        {| appToken := "xapp-test"; baseURL := None; transport := true; dialer := true;
           reconnectDelay := 0; logger := true |}
        (Some background) None [dialFailing] 7
      = Some (errorString msg, 7, []))
  /\ RunWithHandler 1 exampleClient (Some (cancelledAt 0)) None [dialFailing] 7
     = RunWithHandler_loop 1 exampleClient (cancelledAt 0) None [dialFailing] 7 [].
Proof.
  split.
  - apply (@X13_configuration_checked_first scriptedConn _ 0%nat
             {| appToken := "xapp-test"; baseURL := None; transport := true;
                dialer := true; reconnectDelay := 0; logger := true |}
             None [dialFailing] 7).
    intros (_ & Hurl & _). now apply Hurl.
  - apply (@X13_configuration_checked_first scriptedConn _ 1%nat exampleClient
             None [dialFailing] 7).
    repeat split; discriminate.
Defined.

(** *** The reconnect wait *)

(** X14.  [waitReconnect] returns no earlier than it is entered and no later
    than the reconnect delay after that (at once for a delay of zero or
    less).  It returns nil only when the full delay has passed, and the only
    error it ever returns is the error of the context, which is done by
    then. *)
Theorem X14_waitReconnect_bounds c ctx now pick :
  let '(outcome, t) := waitReconnect c ctx now pick in
  now <= t <= now + Z.max 0 (reconnectDelay c)
  /\ (outcome = None -> t = now + Z.max 0 (reconnectDelay c))
  /\ (forall err, outcome = Some err -> err = doneErr ctx /\ ctx_Err ctx t = Some err).
Proof.
  unfold waitReconnect, ctx_Err.
  destruct (Z.leb_spec (reconnectDelay c) 0) as [Hz|Hpos].
  - destruct (doneAt ctx) as [d|].
    + destruct (Z.leb_spec d now); (split; [lia|]); split;
        try discriminate; try (intros _; lia).
      intros err [= <-]. split; [reflexivity|].
      destruct (Z.leb_spec d now); [reflexivity | lia].
    + split; [lia|]. split; [intros _; lia | discriminate].
  - destruct (doneAt ctx) as [d|] eqn:Hd.
    + destruct (Z.ltb_spec d (now + reconnectDelay c)).
      * split; [lia|]. split; [discriminate|].
        intros err [= <-]. split; [reflexivity|].
        destruct (Z.leb_spec d (Z.max now d)); [reflexivity | lia].
      * destruct (Z.eqb_spec d (now + reconnectDelay c)); destruct pick; simpl;
          (split; [lia|]); split; try discriminate; try (intros _; lia).
        intros err [= <-]. split; [reflexivity|].
        destruct (Z.leb_spec d (now + reconnectDelay c)); [reflexivity | lia].
    + split; [lia|]. split; [intros _; lia | discriminate].
Qed.

Lemma X14_waitReconnect_bounds_witness :
  12 <= 500 <= 12 + Z.max 0 (reconnectDelay patientClient)
  /\ (Some Canceled = None -> 500 = 12 + Z.max 0 (reconnectDelay patientClient))
  /\ (forall err, Some Canceled = Some err ->
        err = doneErr (cancelledAt 500) /\ ctx_Err (cancelledAt 500) 500 = Some err).
Proof. exact (X14_waitReconnect_bounds patientClient (cancelledAt 500) 12 true). Defined.

(** *** What the run loop returns *)

Lemma waitReconnect_error c ctx now pick err t :
  waitReconnect c ctx now pick = (Some err, t) -> ctx_Err ctx t = Some err.
Proof.
  intros E.
  unfold waitReconnect, ctx_Err in *.
  destruct (Z.leb_spec (reconnectDelay c) 0) as [Hz|Hpos].
  - injection E as E <-. exact E.
  - destruct (doneAt ctx) as [d|]; [|discriminate].
    destruct (Z.ltb_spec d (now + reconnectDelay c)).
    + injection E as <- <-. destruct (Z.leb_spec d (Z.max now d)); [reflexivity | lia].
    + destruct (Z.eqb_spec d (now + reconnectDelay c)); destruct pick; simpl in E;
        try discriminate.
      injection E as <- <-.
      destruct (Z.leb_spec d (now + reconnectDelay c)); [reflexivity | lia].
Qed.

(** X15.  Whenever the run loop returns, the error it returns is one of
    three: the error of the context, which is done at that instant; the error
    of a call to the control plane; or an error of the connection that is or
    wraps [context.Canceled] or [context.DeadlineExceeded].  A failed dial and
    any other failure of a connection are never returned: they lead to a
    reconnect. *)
Theorem X15_run_loop_errors {C : Type} `{SocketModeConn C} fuel :
  forall c ctx handler (attempts : list (@attempt C)) now log err t log',
  RunWithHandler_loop fuel c ctx handler attempts now log = Some (err, t, log') ->
  ctx_Err ctx t = Some err
  \/ (exists a, In a attempts /\ openResult a = inr err)
  \/ isCancellation err = true.
Proof.
  induction fuel as [|fuel IH]; intros c ctx handler attempts now log err t log' E;
    [discriminate|].
  simpl in E.
  destruct (ctx_Err ctx now) as [cerr|] eqn:Hctx; [injection E as <- <- _; auto|].
  clear Hctx.
  destruct attempts as [|a later]; [discriminate|].
  assert (Hlater : forall t1 l1,
             RunWithHandler_loop fuel c ctx handler later t1 l1 = Some (err, t, log') ->
             ctx_Err ctx t = Some err
             \/ (exists a0, In a0 (a :: later) /\ openResult a0 = inr err)
             \/ isCancellation err = true).
  { intros t1 l1 E1. destruct (IH _ _ _ _ _ _ _ _ _ E1) as [?|[(a0 & Hin & Ho)|?]]; auto.
    right. left. exists a0. split; [now right | exact Ho]. }
  destruct (openResult a) as [url|oerr] eqn:Ho.
  - destruct (dialResult a) as [conn|derr].
    + destruct (processConnection fuel c handler conn log) as [[[perr conn'] plog]|];
        [|discriminate].
      destruct (isCancellation perr) eqn:Hc; [injection E as <- _ _; auto|].
      destruct (ctx_Err ctx _) as [cerr|] eqn:Hctx2; [injection E as <- <- _; auto|].
      destruct (waitReconnect _ _ _ _) as [[waitErr|] t1] eqn:W.
      * injection E as <- <- _. left. eapply waitReconnect_error; exact W.
      * eapply Hlater; exact E.
    + destruct (waitReconnect _ _ _ _) as [[waitErr|] t1] eqn:W.
      * injection E as <- <- _. left. eapply waitReconnect_error; exact W.
      * eapply Hlater; exact E.
  - injection E as <- _ _. right. left. exists a. split; [now left | exact Ho].
Qed.

Lemma X15_run_loop_errors_witness :
  ctx_Err (cancelledAt 60) 124 = Some Canceled
  \/ (exists a, In a [dialFailing;
                      connecting (freshConn [inl (envelope "events_api" "env-r" false)] EOF)]
                /\ openResult a = inr Canceled)
  \/ isCancellation Canceled = true.
Proof.
  apply (@X15_run_loop_errors scriptedConn _ 4%nat exampleClient (cancelledAt 60)
           (Some answering)
           [dialFailing; connecting (freshConn [inl (envelope "events_api" "env-r" false)] EOF)]
           0 [] Canceled 124 [logDialFailed (errorString "temporary dial failure")]).
  reflexivity.
Defined.

(** *** Retries *)

Lemma afterRetries_cons {C : Type} c (a : @attempt C) failed now log :
  afterRetries c (a :: failed) now log
  = afterRetries c failed
      (now + openTime a + dialTime a + Z.max 0 (reconnectDelay c))
      (match dialResult a with
       | inr err => printf c log (logDialFailed err)
       | inl _ => log
       end).
Proof. reflexivity. Qed.

Lemma afterRetries_time {C : Type} c (failed : list (@attempt C)) : forall now log,
  Forall dialFails failed -> now <= fst (afterRetries c failed now log).
Proof.
  induction failed as [|a failed IH]; intros now log Hall; [simpl; lia|].
  inversion Hall as [|a' f' (_ & _ & Ho & Hd) Hrest]; subst.
  rewrite afterRetries_cons.
  etransitivity; [|apply IH; exact Hrest]. lia.
Qed.

(** X16.  There is no bound on the number of reconnects.  However many dials
    fail in a row, as long as the context is not done by the end of the last
    wait the run loop has gone through all of them, waiting the full
    reconnect delay after each and logging each failure, and goes on with the
    next attempt as it would have with a first one. *)
Theorem X16_dial_failures_are_retried {C : Type} `{SocketModeConn C}
    (failed : list (@attempt C)) : forall fuel c ctx handler later now log,
  Forall dialFails failed ->
  (forall d, doneAt ctx = Some d -> fst (afterRetries c failed now log) < d) ->
  RunWithHandler_loop (length failed + fuel) c ctx handler (failed ++ later) now log
  = RunWithHandler_loop fuel c ctx handler later
      (fst (afterRetries c failed now log)) (snd (afterRetries c failed now log)).
Proof.
  induction failed as [|a failed IH]; intros fuel c ctx handler later now log Hall Hlive;
    [reflexivity|].
  inversion Hall as [|a' f' Ha Hrest]; subst.
  destruct Ha as ((url & Ho) & (derr & Hd) & Hot & Hdt).
  rewrite afterRetries_cons in Hlive |- *. rewrite Hd in Hlive |- *.
  pose proof (afterRetries_time c failed
                (now + openTime a + dialTime a + Z.max 0 (reconnectDelay c))
                (printf c log (logDialFailed derr)) Hrest) as Hmono.
  assert (Hctx : ctx_Err ctx now = None).
  { unfold ctx_Err. destruct (doneAt ctx) as [d|]; [|reflexivity].
    specialize (Hlive d eq_refl). destruct (Z.leb_spec d now); [lia | reflexivity]. }
  cbn [length app Nat.add].
  rewrite (RunWithHandler_loop_dial_failed _ _ _ _ _ _ _ _ _ _ Hctx Ho Hd).
  rewrite waitReconnect_elapsed.
  - apply IH; assumption.
  - intros d Hdone. specialize (Hlive d Hdone). lia.
Qed.

(** Three failed dials under a context that is never done: the fourth
    attempt starts three delays and three dials later. *)
Lemma X16_dial_failures_are_retried_witness :
  RunWithHandler_loop (3 + 2) patientClient background None
    ([dialFailing; dialFailing; dialFailing] ++ [connecting (freshConn [] Canceled)]) 0 []
  = RunWithHandler_loop 2 patientClient background None
      [connecting (freshConn [] Canceled)]
      3000000036
      [logDialFailed (errorString "temporary dial failure");
       logDialFailed (errorString "temporary dial failure");
       logDialFailed (errorString "temporary dial failure")].
Proof.
  apply (@X16_dial_failures_are_retried scriptedConn _
           [dialFailing; dialFailing; dialFailing] 2%nat patientClient background None
           [connecting (freshConn [] Canceled)] 0 []).
  - repeat constructor; try (eexists; reflexivity); simpl; lia.
  - intros d Hd. discriminate.
Defined.

(** * Properties of the client's construction *)

(** *** [TrimSpace] is idempotent *)

Lemma stripPrefix_Some p : forall s rest, stripPrefix p s = Some rest <-> s = p ++ rest.
Proof.
  induction p as [|a p IH]; intros s rest; simpl.
  - split; [intros [= ->]; reflexivity | intros ->; reflexivity].
  - destruct s as [|b s]; [split; discriminate|].
    destruct (Ascii.eqb_spec a b) as [->|Hne].
    + rewrite IH. split; [intros ->; reflexivity | intros [= ->]; reflexivity].
    + split; [discriminate | intros [= -> _]; contradiction].
Qed.

Lemma stripRune_Some runes : forall s rest,
  stripRune runes s = Some rest -> exists r, In r runes /\ s = r ++ rest.
Proof.
  induction runes as [|r runes IH]; intros s rest E; simpl in E; [discriminate|].
  destruct (stripPrefix r s) as [rest'|] eqn:P.
  - injection E as ->. apply stripPrefix_Some in P. exists r. split; [now left | exact P].
  - destruct (IH _ _ E) as (r' & Hin & Hs). exists r'. split; [now right | exact Hs].
Qed.

Lemma stripRune_None runes : forall s,
  stripRune runes s = None <-> forall r, In r runes -> stripPrefix r s = None.
Proof.
  induction runes as [|r runes IH]; intros s; simpl.
  - split; [intros _ r [] | reflexivity].
  - destruct (stripPrefix r s) as [rest|] eqn:P.
    + split; [discriminate|]. intros Hall.
      specialize (Hall r (or_introl eq_refl)). congruence.
    + rewrite IH. split.
      * intros Hall r' [<- | Hin]; [exact P | now apply Hall].
      * intros Hall r' Hin. apply Hall. now right.
Qed.

(** A string that starts with no rune keeps this when cut shorter. *)
Lemma stripRune_None_prefix runes b x :
  stripRune runes (b ++ x) = None -> stripRune runes b = None.
Proof.
  rewrite !stripRune_None. intros Hall r Hin.
  destruct (stripPrefix r b) as [rest|] eqn:P; [|reflexivity].
  apply stripPrefix_Some in P. specialize (Hall r Hin).
  assert (Hs : stripPrefix r (b ++ x) = Some (rest ++ x)).
  { apply stripPrefix_Some. rewrite P. now rewrite app_assoc. }
  congruence.
Qed.

Lemma trimLeading_fixed fuel runes s :
  stripRune runes s = None -> trimLeading fuel runes s = s.
Proof. intros E. destruct fuel; simpl; [reflexivity | now rewrite E]. Qed.

(** With fuel for every byte, what is left starts with no rune. *)
Lemma trimLeading_done runes :
  Forall (fun r => r <> []) runes ->
  forall fuel s, (length s <= fuel)%nat ->
  stripRune runes (trimLeading fuel runes s) = None
  /\ exists dropped, s = dropped ++ trimLeading fuel runes s.
Proof.
  intros Hne. induction fuel as [|fuel IH]; intros s Hlen.
  - destruct s; [|simpl in Hlen; lia]. simpl. split; [|now exists []].
    apply stripRune_None. intros r Hin.
    rewrite List.Forall_forall in Hne. specialize (Hne r Hin).
    destruct r; [contradiction | reflexivity].
  - simpl. destruct (stripRune runes s) as [rest|] eqn:E.
    + destruct (stripRune_Some _ _ _ E) as (r & Hin & ->).
      rewrite List.Forall_forall in Hne. pose proof (Hne r Hin) as Hr.
      destruct (IH rest) as (Hnone & dropped & Hd).
      { rewrite length_app in Hlen. destruct r; [contradiction | simpl in Hlen; lia]. }
      split; [exact Hnone|]. exists (r ++ dropped). rewrite <- app_assoc. now rewrite <- Hd.
    + split; [exact E | now exists []].
Qed.

Lemma utf8Spaces_nonempty : Forall (fun r : list ascii => r <> []) utf8Spaces.
Proof. unfold utf8Spaces. simpl. repeat constructor; discriminate. Qed.

Lemma utf8Spaces_rev_nonempty :
  Forall (fun r : list ascii => r <> []) (map (@rev ascii) utf8Spaces).
Proof. unfold utf8Spaces. simpl. repeat constructor; discriminate. Qed.

Lemma trimRight_trimLeft_fixed s :
  let b := trimRight (trimLeft s) in trimLeft b = b /\ trimRight b = b.
Proof.
  intros b. unfold b, trimRight, trimLeft.
  set (a := trimLeading (length s) utf8Spaces s).
  destruct (trimLeading_done utf8Spaces utf8Spaces_nonempty (length s) s (le_n _))
    as (Ha & _). fold a in Ha.
  destruct (trimLeading_done _ utf8Spaces_rev_nonempty (length a) (rev a))
    as (Ht & dropped & Hd); [now rewrite length_rev|].
  set (t := trimLeading (length a) (map (@rev ascii) utf8Spaces) (rev a)) in *.
  split.
  - apply trimLeading_fixed.
    apply (stripRune_None_prefix _ _ (rev dropped)).
    rewrite <- rev_app_distr, <- Hd, rev_involutive. exact Ha.
  - rewrite rev_involutive. now rewrite trimLeading_fixed.
Qed.

Lemma TrimSpace_idempotent s : TrimSpace (TrimSpace s) = TrimSpace s.
Proof.
  unfold TrimSpace. rewrite list_ascii_of_string_of_list_ascii.
  destruct (trimRight_trimLeft_fixed (list_ascii_of_string s)) as [Hl Hr].
  now rewrite Hl, Hr.
Qed.

(** X17.  Whatever the options, the client [NewSocketModeClient] builds has a
    transport and a dialer, a reconnect delay that is not negative, and a
    token without white space around it.  So [RunWithHandler] can turn such a
    client down only for its token or its base URL: the client is configured
    exactly when the token given is not blank and the base URL given parses
    to a URL with a scheme and a host. *)
Theorem X17_constructed_client_invariants (url_Parse : string -> result URL)
    (opts : list SocketModeOption) :
  let c := NewSocketModeClient url_Parse opts in
  transport c = true /\ dialer c = true
  /\ 0 <= reconnectDelay c
  /\ TrimSpace (appToken c) = appToken c
  /\ (configured c <->
      TrimSpace (cfgAppToken (applyOptions opts)) <> ""%string
      /\ exists u, url_Parse (cfgBaseURL (applyOptions opts)) = inl u
                   /\ Scheme u <> ""%string /\ Host u <> ""%string).
Proof.
  intros c. unfold c, NewSocketModeClient, configured. simpl.
  set (cfg := applyOptions opts).
  assert (Ht : (if cfgTransport cfg then cfgTransport cfg else true) = true)
    by (destruct (cfgTransport cfg); reflexivity).
  assert (Hd : (if cfgDialer cfg then cfgDialer cfg else true) = true)
    by (destruct (cfgDialer cfg); reflexivity).
  split; [exact Ht|]. split; [exact Hd|]. split.
  { destruct (Z.ltb_spec (cfgReconnectDelay cfg) 0);
      [unfold defaultSocketModeReconnectDelay; lia | assumption]. }
  split; [apply TrimSpace_idempotent|].
  rewrite TrimSpace_idempotent, Ht, Hd.
  destruct (url_Parse (cfgBaseURL cfg)) as [u|err].
  - destruct (String.eqb_spec (Scheme u) "") as [Hs|Hs];
      [|destruct (String.eqb_spec (Host u) "") as [Hh|Hh]]; simpl.
    + split; [intros (_ & Hn & _); now contradiction Hn|].
      intros (_ & u' & [= <-] & Hs' & _). contradiction.
    + split; [intros (_ & Hn & _); now contradiction Hn|].
      intros (_ & u' & [= <-] & _ & Hh'). contradiction.
    + split.
      * intros (Htok & _). split; [exact Htok|]. exists u. auto.
      * intros (Htok & _). repeat split; [exact Htok | discriminate].
  - split; [intros (_ & Hn & _); now contradiction Hn|].
    intros (_ & u' & Hu & _). discriminate.
Qed.

Lemma X17_constructed_client_invariants_witness :
  let c := NewSocketModeClient exampleParse
             [WithAppLevelToken " xapp-test "; None; WithSocketModeReconnectDelay (-5);
              WithSocketModeTransport false] in
  transport c = true /\ dialer c = true
  /\ 0 <= reconnectDelay c
  /\ TrimSpace (appToken c) = appToken c
  /\ (configured c <->
      TrimSpace (cfgAppToken (applyOptions
                   [WithAppLevelToken " xapp-test "; None;
                    WithSocketModeReconnectDelay (-5); WithSocketModeTransport false]))
      <> ""%string
      /\ exists u, exampleParse (cfgBaseURL (applyOptions
                     [WithAppLevelToken " xapp-test "; None;
                      WithSocketModeReconnectDelay (-5); WithSocketModeTransport false]))
                   = inl u
                   /\ Scheme u <> ""%string /\ Host u <> ""%string).
Proof.
  exact (X17_constructed_client_invariants exampleParse
           [WithAppLevelToken " xapp-test "; None; WithSocketModeReconnectDelay (-5);
            WithSocketModeTransport false]).
Defined.

(** * Properties of the control-plane call *)

(** *** Trimming slashes *)

Lemma append_cons a (s t : string) : (String a s ++ t)%string = String a (s ++ t)%string.
Proof. reflexivity. Qed.

Lemma append_nil_l (t : string) : ("" ++ t)%string = t.
Proof. reflexivity. Qed.

Lemma append_nil_r (s : string) : (s ++ "")%string = s.
Proof. induction s as [|a s IH]; [reflexivity | now rewrite append_cons, IH]. Qed.

Lemma append_assoc (a b c : string) : ((a ++ b) ++ c)%string = (a ++ (b ++ c))%string.
Proof. induction a as [|x a IH]; [reflexivity | now rewrite !append_cons, IH]. Qed.

Lemma append_eq_nil (a b : string) :
  (a ++ b)%string = ""%string -> a = ""%string /\ b = ""%string.
Proof. destruct a; [rewrite append_nil_l; auto | rewrite append_cons; discriminate]. Qed.

Lemma inCutset_slash a : inCutset a "/" = Ascii.eqb a "/".
Proof. simpl. apply orb_false_r. Qed.

Lemma TrimLeft_cons a s :
  strings_TrimLeft (String a s) "/"
  = if Ascii.eqb a "/" then strings_TrimLeft s "/" else String a s.
Proof. cbn [strings_TrimLeft]. now rewrite inCutset_slash. Qed.

Lemma TrimRight_cons a s :
  strings_TrimRight (String a s) "/"
  = match strings_TrimRight s "/" with
    | EmptyString => if Ascii.eqb a "/" then EmptyString else String a EmptyString
    | kept => String a kept
    end.
Proof. cbn [strings_TrimRight]. now rewrite inCutset_slash. Qed.

Lemma TrimLeft_slash s :
  exists n, s = (slashes n ++ strings_TrimLeft s "/")%string
            /\ noLeadingSlash (strings_TrimLeft s "/").
Proof.
  induction s as [|a s (n & Hs & Hno)].
  - exists 0%nat. split; [reflexivity | intros rest; discriminate].
  - rewrite TrimLeft_cons. destruct (Ascii.eqb_spec a "/") as [->|Hne].
    + exists (S n). split; [|exact Hno].
      cbn [slashes]. now rewrite append_cons, <- Hs.
    + exists 0%nat. split; [reflexivity|]. intros rest [= Ha _]. contradiction.
Qed.

Lemma TrimRight_slash s :
  exists n, s = (strings_TrimRight s "/" ++ slashes n)%string
            /\ noTrailingSlash (strings_TrimRight s "/").
Proof.
  induction s as [|a s (n & Hs & Hno)].
  - exists 0%nat. split; [reflexivity|]. intros front E. symmetry in E.
    apply append_eq_nil in E as [_ E]. discriminate.
  - rewrite TrimRight_cons. destruct (strings_TrimRight s "/") as [|k kept] eqn:T.
    + rewrite append_nil_l in Hs. destruct (Ascii.eqb_spec a "/") as [->|Hne].
      * exists (S n). split; [cbn [slashes]; now rewrite append_nil_l, <- Hs|].
        intros front E. symmetry in E. apply append_eq_nil in E as [_ E]. discriminate.
      * exists n. split; [now rewrite append_cons, append_nil_l, <- Hs|].
        intros [|x front] E.
        -- rewrite append_nil_l in E. injection E as E. contradiction.
        -- rewrite append_cons in E. injection E as _ E. symmetry in E.
           apply append_eq_nil in E as [_ E]. discriminate.
    + exists n. split; [now rewrite append_cons, <- Hs|].
      intros [|x front] E.
      * rewrite append_nil_l in E. discriminate.
      * rewrite append_cons in E. injection E as _ E. exact (Hno front E).
Qed.

Lemma TrimRight_only_slashes n : strings_TrimRight (slashes n) "/" = ""%string.
Proof.
  induction n as [|n IH]; [reflexivity|].
  cbn [slashes]. now rewrite TrimRight_cons, IH.
Qed.

(** A string without a trailing slash is what [TrimRight] leaves of it and of
    it followed by slashes. *)
Lemma TrimRight_slashes b : forall n,
  noTrailingSlash b -> strings_TrimRight (b ++ slashes n) "/" = b.
Proof.
  induction b as [|a b IH]; intros n Hno.
  - rewrite append_nil_l. apply TrimRight_only_slashes.
  - rewrite append_cons, TrimRight_cons.
    destruct b as [|x b].
    + rewrite append_nil_l, TrimRight_only_slashes.
      destruct (Ascii.eqb_spec a "/") as [->|Hne]; [|reflexivity].
      exfalso. apply (Hno ""%string). reflexivity.
    + rewrite IH; [reflexivity|].
      intros front E. apply (Hno (String a front)). now rewrite append_cons, <- E.
Qed.


Lemma slashes_add i k : (slashes i ++ slashes k)%string = slashes (i + k).
Proof.
  induction i as [|i IH]; [reflexivity|].
  cbn [slashes Nat.add]. now rewrite append_cons, IH.
Qed.

(** X18.  [resolveSlackMethodURL] joins the base path and the method with
    exactly one slash: the path of the result is the base path without its
    trailing slashes, a slash, and the trimmed method without its leading
    slashes; scheme and host are the base's, query and fragment are dropped.
    So trailing slashes on the base path make no difference.  It fails only
    without a base URL or for a blank method. *)
Theorem X18_method_url_joined_by_one_slash base method :
  (TrimSpace method <> ""%string ->
   exists b m i j,
     Path base = (b ++ slashes i)%string /\ noTrailingSlash b
     /\ TrimSpace method = (slashes j ++ m)%string /\ noLeadingSlash m
     /\ resolveSlackMethodURL (Some base) method
        = inl {| Scheme := Scheme base; Host := Host base;
                 Path := (b ++ "/" ++ m)%string; RawQuery := ""; Fragment := "" |}
     /\ forall k,
          resolveSlackMethodURL
            (Some {| Scheme := Scheme base; Host := Host base;
                     Path := (Path base ++ slashes k)%string;
                     RawQuery := RawQuery base; Fragment := Fragment base |}) method
          = resolveSlackMethodURL (Some base) method)
  /\ (TrimSpace method = ""%string ->
      resolveSlackMethodURL (Some base) method
      = inr (errorString "slack: method path is required"))
  /\ resolveSlackMethodURL None method
     = inr (errorString "slack: base URL is not configured").
Proof.
  split; [|split; [|reflexivity]].
  - intros Hm.
    destruct (TrimRight_slash (Path base)) as (i & Hp & Hb).
    destruct (TrimLeft_slash (TrimSpace method)) as (j & Hj & Hl).
    set (b := strings_TrimRight (Path base) "/") in *.
    set (m := strings_TrimLeft (TrimSpace method) "/") in *.
    exists b, m, i, j. repeat (split; [assumption|]).
    assert (Hres : forall p, strings_TrimRight p "/" = b ->
              resolveSlackMethodURL
                (Some {| Scheme := Scheme base; Host := Host base; Path := p;
                         RawQuery := RawQuery base; Fragment := Fragment base |}) method
              = inl {| Scheme := Scheme base; Host := Host base;
                       Path := (b ++ "/" ++ m)%string; RawQuery := ""; Fragment := "" |}).
    { intros p Hpb. unfold resolveSlackMethodURL. simpl.
      rewrite (TrimSpace_nonblank_eqb _ Hm), Hpb. fold m.
      destruct (String.eqb_spec b "") as [->|_]; reflexivity. }
    split.
    + destruct base as [sc ho pa rq fr]. simpl in *.
      unfold resolveSlackMethodURL. simpl.
      rewrite (TrimSpace_nonblank_eqb _ Hm). fold b m.
      destruct (String.eqb_spec b "") as [->|_]; reflexivity.
    + intros k. rewrite Hres.
      * destruct base as [sc ho pa rq fr]. simpl in *.
        unfold resolveSlackMethodURL. simpl.
        rewrite (TrimSpace_nonblank_eqb _ Hm). fold b m.
        destruct (String.eqb_spec b "") as [->|_]; reflexivity.
      * rewrite Hp at 1. rewrite append_assoc, slashes_add.
        now apply TrimRight_slashes.
  - intros Hm. unfold resolveSlackMethodURL. now rewrite (TrimSpace_blank_eqb _ Hm).
Qed.

(** The endpoint of [openConnection] for a base URL written with a trailing
    slash. *)
Lemma X18_method_url_joined_by_one_slash_witness :
  let base := {| Scheme := "https"; Host := "slack.example"; Path := "/api/";
                 RawQuery := "x=1"; Fragment := "top" |} in
  (exists b m i j,
      Path base = (b ++ slashes i)%string /\ noTrailingSlash b
      /\ TrimSpace " /apps.connections.open" = (slashes j ++ m)%string
      /\ noLeadingSlash m
      /\ resolveSlackMethodURL (Some base) " /apps.connections.open"
         = inl {| Scheme := Scheme base; Host := Host base;
                  Path := (b ++ "/" ++ m)%string; RawQuery := ""; Fragment := "" |}
      /\ forall k,
           resolveSlackMethodURL
             (Some {| Scheme := Scheme base; Host := Host base;
                      Path := (Path base ++ slashes k)%string;
                      RawQuery := RawQuery base; Fragment := Fragment base |})
             " /apps.connections.open"
           = resolveSlackMethodURL (Some base) " /apps.connections.open")
  /\ resolveSlackMethodURL (Some base) "  "
     = inr (errorString "slack: method path is required").
Proof.
  intros base.
  destruct (X18_method_url_joined_by_one_slash base " /apps.connections.open")
    as (Hjoin & _ & _).
  destruct (X18_method_url_joined_by_one_slash base "  ") as (_ & Hblank & _).
  split.
  - apply Hjoin. discriminate.
  - apply Hblank. reflexivity.
Defined.

Example resolveSlackMethodURL_trailing_slash :
  resolveSlackMethodURL
    (Some {| Scheme := "https"; Host := "slack.example"; Path := "/api/";
             RawQuery := "x=1"; Fragment := "top" |}) " /apps.connections.open"
  = inl {| Scheme := "https"; Host := "slack.example";
           Path := "/api/apps.connections.open"; RawQuery := ""; Fragment := "" |}.
Proof. reflexivity. Qed.

(** *** The answer of the control plane *)

(** X19.  [openConnection] never returns a blank URL: a URL is returned only
    from an answer with a status in 2xx whose body is a JSON object, and it
    is the [url] field of that object, not blank.  An answer with a status
    outside 2xx gives an API error with that status whatever its body says,
    and an answer in which [ok] is false gives the Slack error made of its
    [error], [needed], [provided] and [warning] fields, whether or not it
    also carries a [url]. *)
Theorem X19_openConnection_answers
    (newRequest : URL -> option error) (do : URL -> result httpResponse)
    (json_object : string -> result (gmap string string))
    (json_bool : string -> result bool) (json_string : string -> result string)
    (base : option URL) :
  let open := openConnection newRequest do json_object json_bool json_string base in
  (forall url, open = inl url ->
     TrimSpace url <> ""%string
     /\ exists endpoint resp body raw,
          resolveSlackMethodURL base "apps.connections.open" = inl endpoint
          /\ do endpoint = inl resp
          /\ 200 <= StatusCode resp < 300
          /\ Body resp = inl body
          /\ json_object body = inl raw
          /\ url = rawString json_string raw "url")
  /\ (forall endpoint resp,
        resolveSlackMethodURL base "apps.connections.open" = inl endpoint ->
        newRequest endpoint = None ->
        do endpoint = inl resp ->
        ~ 200 <= StatusCode resp < 300 ->
        open = inr (openAPIError (StatusCode resp)))
  /\ (forall endpoint resp body raw okRaw,
        resolveSlackMethodURL base "apps.connections.open" = inl endpoint ->
        newRequest endpoint = None ->
        do endpoint = inl resp ->
        200 <= StatusCode resp < 300 ->
        Body resp = inl body ->
        body <> ""%string ->
        json_object body = inl raw ->
        raw !! "ok"%string = Some okRaw ->
        json_bool okRaw = inl false ->
        open = inr (openSlackError (rawString json_string raw "error")
                      (rawString json_string raw "needed")
                      (rawString json_string raw "provided")
                      (rawString json_string raw "warning"))).
Proof.
  intros open. unfold open, openConnection. split; [|split].
  - intros url E.
    destruct (resolveSlackMethodURL base _) as [endpoint|] eqn:R; [|discriminate].
    destruct (newRequest endpoint); [discriminate|].
    destruct (do endpoint) as [resp|] eqn:D; [|discriminate].
    destruct (Z.ltb_spec (StatusCode resp) 200); [discriminate|].
    destruct (Z.geb_spec (StatusCode resp) 300); [discriminate|]. simpl in E.
    destruct (Body resp) as [body|] eqn:B; [|discriminate].
    destruct (String.length body =? 0)%nat; [discriminate|].
    destruct (json_object body) as [raw|] eqn:J; [|discriminate].
    destruct (match raw !! "ok"%string with Some _ => _ | None => _ end); [discriminate|].
    destruct (String.eqb_spec (TrimSpace (rawString json_string raw "url")) "")
      as [|Hurl]; [discriminate|].
    injection E as <-. split; [exact Hurl|].
    exists endpoint, resp, body, raw. repeat split; try assumption; lia.
  - intros endpoint resp -> -> -> Hstatus.
    destruct (Z.ltb_spec (StatusCode resp) 200); [reflexivity|].
    destruct (Z.geb_spec (StatusCode resp) 300); [reflexivity | lia].
  - intros endpoint resp body raw okRaw -> -> -> Hstatus -> Hbody -> -> ->.
    destruct (Z.ltb_spec (StatusCode resp) 200); [lia|].
    destruct (Z.geb_spec (StatusCode resp) 300); [lia|]. simpl.
    destruct body; [contradiction | reflexivity].
Qed.

(** *** The address dialed *)

Lemma Contains_append (a b sub : string) :
  strings_Contains b sub = true -> strings_Contains (a ++ b) sub = true.
Proof.
  intros Hb. induction a as [|x a IH]; [exact Hb|].
  rewrite append_cons. cbn [strings_Contains]. rewrite IH. apply orb_true_r.
Qed.

(** X20.  [Dial] turns down every scheme but [ws] and [wss] before it opens
    anything.  For these two, the address it dials always holds a colon: it
    is the host of the URL as it stands when that holds a colon (a port, or
    an IPv6 literal even without a port), and otherwise the host followed by
    [:443] for [wss] and [:80] for [ws]; TLS is used exactly for [wss]. *)
Theorem X20_dial_address (quote : string -> string) (endpoint : URL) :
  (Scheme endpoint <> "ws"%string -> Scheme endpoint <> "wss"%string ->
   dialAddress quote endpoint
   = inr (errorString ("slack: unsupported websocket scheme " ++ quote (Scheme endpoint))))
  /\ (forall addr tls, dialAddress quote endpoint = inl (addr, tls) ->
        strings_Contains addr ":" = true
        /\ (tls = true <-> Scheme endpoint = "wss"%string)
        /\ (tls = false <-> Scheme endpoint = "ws"%string)
        /\ (strings_Contains (Host endpoint) ":" = true -> addr = Host endpoint)
        /\ (strings_Contains (Host endpoint) ":" = false ->
            addr = (Host endpoint ++ (if tls then ":443" else ":80"))%string)).
Proof.
  unfold dialAddress. split.
  - intros Hws Hwss.
    destruct (String.eqb_spec (Scheme endpoint) "ws"); [contradiction|].
    destruct (String.eqb_spec (Scheme endpoint) "wss"); [contradiction | reflexivity].
  - intros addr tls E.
    destruct (String.eqb_spec (Scheme endpoint) "ws") as [Hws|Hws];
      destruct (String.eqb_spec (Scheme endpoint) "wss") as [Hwss|Hwss];
      simpl in E; try discriminate; try congruence;
      injection E as <- <-;
      (destruct (strings_Contains (Host endpoint) ":") eqn:Hc; simpl;
       repeat split; try congruence; try discriminate; auto;
       try (intros _; reflexivity); try (apply Contains_append; reflexivity)).
Qed.

Lemma X19_openConnection_answers_witness :
  (TrimSpace "wss://socket.example/link" <> ""%string
   /\ exists endpoint resp body raw,
        resolveSlackMethodURL slackBase "apps.connections.open" = inl endpoint
        /\ answering200 "accepted" endpoint = inl resp
        /\ 200 <= StatusCode resp < 300
        /\ Body resp = inl body
        /\ exampleObject body = inl raw
        /\ "wss://socket.example/link"%string = rawString inl raw "url")
  /\ openConnection (fun _ => None)
       (fun _ => inl {| StatusCode := 503; Body := inl "accepted"%string |})
       exampleObject exampleBool inl slackBase
     = inr (openAPIError 503)
  /\ openConnection (fun _ => None) (answering200 "rejected")
       exampleObject exampleBool inl slackBase
     = inr (openSlackError "invalid_auth" "" "" "").
Proof.
  split; [|split].
  - apply (X19_openConnection_answers (fun _ => None) (answering200 "accepted")
             exampleObject exampleBool inl slackBase).
    vm_compute. reflexivity.
  - destruct (X19_openConnection_answers (fun _ => None)
                (fun _ => inl {| StatusCode := 503; Body := inl "accepted"%string |})
                exampleObject exampleBool inl slackBase) as (_ & Hstatus & _).
    apply (Hstatus slackOpenEndpoint {| StatusCode := 503; Body := inl "accepted"%string |});
      [reflexivity | reflexivity | reflexivity | simpl; lia].
  - destruct (X19_openConnection_answers (fun _ => None) (answering200 "rejected")
                exampleObject exampleBool inl slackBase) as (_ & _ & Hrejected).
    rewrite (Hrejected slackOpenEndpoint
               {| StatusCode := 200; Body := inl "rejected"%string |} "rejected"%string
               (<[ "ok"%string := "false"%string ]>
                  (<[ "error"%string := "invalid_auth"%string ]>
                     {[ "url"%string := "wss://socket.example/link"%string ]}))
               "false"%string).
    + vm_compute. reflexivity.
    + reflexivity.
    + reflexivity.
    + reflexivity.
    + simpl. lia.
    + reflexivity.
    + discriminate.
    + reflexivity.
    + vm_compute. reflexivity.
    + reflexivity.
Defined.

Lemma X20_dial_address_witness :
  dialAddress (fun s => s)
    {| Scheme := "https"; Host := "socket.example"; Path := "/link";
       RawQuery := ""; Fragment := "" |}
  = inr (errorString "slack: unsupported websocket scheme https")
  /\ strings_Contains "socket.example:443" ":" = true
  /\ (true = true <-> "wss"%string = "wss"%string)
  /\ (true = false <-> "wss"%string = "ws"%string)
  /\ (strings_Contains "socket.example" ":" = true ->
      "socket.example:443"%string = "socket.example"%string)
  /\ (strings_Contains "socket.example" ":" = false ->
      "socket.example:443"%string = ("socket.example" ++ ":443")%string).
Proof.
  split.
  - apply (proj1 (X20_dial_address (fun s => s)
                    {| Scheme := "https"; Host := "socket.example"; Path := "/link";
                       RawQuery := ""; Fragment := "" |})); discriminate.
  - apply (proj2 (X20_dial_address (fun s => s)
                    {| Scheme := "wss"; Host := "socket.example"; Path := "/link";
                       RawQuery := ""; Fragment := "" |}) "socket.example:443"%string true).
    reflexivity.
Defined.

(** * The supervisor over a websocket connection *)

(** X21.  An envelope on the wire, end to end.  When a text or binary frame
    carrying an envelope arrives after any number of pings and pongs, one
    turn of the processing loop over the websocket connection answers the
    pings, hands the decoded envelope to the handler, and, the envelope's id
    not being blank, writes its acknowledgement as one text frame: what has
    been written after the turn is what was written before, one pong per
    ping in order, and then the frame of the encoded acknowledgement; the loop
    goes on with the bytes that follow the envelope's frame. *)
Theorem X21_envelope_acknowledged_on_the_wire
    (Unmarshal : list Z -> result SocketModeEvent)
    (Marshal : gmap string any -> result (list Z))
    fuel cl handler log c frames c0 opcode bytes c1 event payload nc :
  skipsControl c frames c0 ->
  readFrame c0 = (inl (opcode, true, bytes), c1) ->
  isDataOpcode opcode ->
  Unmarshal bytes = inl event ->
  TrimSpace (EnvelopeID event) <> ""%string ->
  Marshal (buildAck event (fst (dispatch cl handler event log))) = inl payload ->
  Z.of_nat (length payload) <= maxWebSocketFrameSize ->
  conn c1 = Some nc ->
  nextWriteSucceeds nc = true ->
  (4 <= length (entropy c1))%nat ->
  exists pongs ackFrame c2,
    @processConnection websocketConn (websocketConn_SocketModeConn Unmarshal Marshal)
      (S fuel) cl handler c log
    = @processConnection websocketConn (websocketConn_SocketModeConn Unmarshal Marshal)
        fuel cl handler c2 (snd (dispatch cl handler event log))
    /\ writtenOn c2 = writtenOn c ++ pongs ++ [ackFrame]
    /\ Forall2 isPongFor (pingPayloads frames) pongs
    /\ carries wsOpcodeText payload ackFrame
    /\ reader c2 = reader c1.
Proof.
  intros Hskip R Hop Hu Hid Hm Hmax Hc Hw Hpool.
  destruct (writeFrame_ok wsOpcodeText payload c1 nc Hc Hw Hpool) as (ackFrame & Hb & Hwf).
  assert (Hread : @ReadJSON websocketConn (websocketConn_SocketModeConn Unmarshal Marshal) c
                  = (inl event, c1)).
  { simpl. unfold websocketConn_read, websocketConn_ReadJSON.
    rewrite readMessage_eq.
    assert (Hgo : readMessage_from [] false c = readMessage_from [] false c0).
    { clear -Hskip. revert c Hskip.
      induction frames as [|[[op fin] p] later IH]; intros c S; simpl in S.
      - now subst.
      - destruct S as (k1 & Rk & [[-> S] | [-> (k2 & W & S)]]).
        + rewrite readMessage_from_step, Rk. now apply IH.
        + rewrite readMessage_from_step, Rk. simpl. rewrite W. now apply IH. }
    rewrite Hgo, readMessage_from_step, R.
    replace ((opcode =? wsOpcodeText) || (opcode =? wsOpcodeBinary)) with true
      by (now destruct Hop as [-> | ->]).
    simpl. now rewrite Hu. }
  assert (Hpongs : exists pongs,
             writtenOn c0 = writtenOn c ++ pongs
             /\ Forall2 isPongFor (pingPayloads frames) pongs).
  { clear -Hskip. revert c Hskip.
    induction frames as [|[[op fin] p] later IH]; intros c S; simpl in S.
    - subst. exists []. split; [now rewrite app_nil_r | constructor].
    - destruct S as (k1 & Rk & [[-> S] | [-> (k2 & W & S)]]).
      + destruct (IH _ S) as (pongs & Hw & Hall). exists pongs. split; [|exact Hall].
        now rewrite Hw, (readFrame_writtenOn _ _ _ Rk).
      + destruct (IH _ S) as (pongs & Hw & Hall).
        destruct (writeFrame_inl_inv _ _ _ _ _ W) as (frame & pool' & Hb & Hw2).
        exists (frame :: pongs). split.
        * rewrite Hw, Hw2, (readFrame_writtenOn _ _ _ Rk), <- app_assoc. reflexivity.
        * unfold pingPayloads. simpl. constructor; [|exact Hall].
          intros k rest. eapply buildClientFrame_decodes; [exact Hb | | ].
          -- unfold wsOpcodePong. lia.
          -- eapply readFrame_payload_bound; exact Rk. }
  destruct Hpongs as (pongs & Hw0 & Hall).
  exists pongs, ackFrame. eexists. split; [|split; [|split; [|split]]].
  - rewrite (processConnection_acked _ _ _ _ _ _ _ Hread Hid).
    simpl WriteJSON. unfold websocketConn_write, websocketConn_WriteJSON.
    rewrite Hm, Hwf. reflexivity.
  - unfold writtenOn at 1. simpl.
    rewrite app_assoc, <- Hw0, <- (readFrame_writtenOn _ _ _ R).
    unfold writtenOn. now rewrite Hc.
  - exact Hall.
  - intros k rest. eapply buildClientFrame_decodes; [exact Hb | | exact Hmax].
    unfold wsOpcodeText. lia.
  - reflexivity.
Qed.

(** A ping "A" ahead of the text frame "C", no handler: the pong for "A" and
    then the frame of the acknowledgement are written. *)
Lemma X21_envelope_acknowledged_on_the_wire_witness :
  exists pongs ackFrame c2,
    @processConnection websocketConn
      (websocketConn_SocketModeConn
         (fun _ => inl (envelope "events_api" "e1" false))
         (fun _ => inl [0x7B; 0x7D]))
      1 exampleClient None
      (busyConn [] [0x89; 0x01; 0x41; 0x81; 0x01; 0x43] [1; 2; 3; 4; 5; 6; 7; 8]) []
    = @processConnection websocketConn
        (websocketConn_SocketModeConn
           (fun _ => inl (envelope "events_api" "e1" false))
           (fun _ => inl [0x7B; 0x7D]))
        0 exampleClient None c2
        (snd (dispatch exampleClient None (envelope "events_api" "e1" false) []))
    /\ writtenOn c2 = [] ++ pongs ++ [ackFrame]
    /\ Forall2 isPongFor [[0x41]] pongs
    /\ carries wsOpcodeText [0x7B; 0x7D] ackFrame
    /\ reader c2 = [].
Proof.
  apply (X21_envelope_acknowledged_on_the_wire
           (fun _ => inl (envelope "events_api" "e1" false))
           (fun _ => inl [0x7B; 0x7D])
           0 exampleClient None []
           (busyConn [] [0x89; 0x01; 0x41; 0x81; 0x01; 0x43] [1; 2; 3; 4; 5; 6; 7; 8])
           [(wsOpcodePing, true, [0x41])]
           (busyConn [[0x8A; 0x81; 1; 2; 3; 4; 0x40]] [0x81; 0x01; 0x43] [5; 6; 7; 8])
           wsOpcodeText [0x43]
           (busyConn [[0x8A; 0x81; 1; 2; 3; 4; 0x40]] [] [5; 6; 7; 8])
           (envelope "events_api" "e1" false) [0x7B; 0x7D]
           {| written := [[0x8A; 0x81; 1; 2; 3; 4; 0x40]]; writeResults := [] |}).
  - simpl.
    exists (busyConn [] [0x81; 0x01; 0x43] [1; 2; 3; 4; 5; 6; 7; 8]).
    split; [reflexivity|]. right. split; [reflexivity|].
    exists (busyConn [[0x8A; 0x81; 1; 2; 3; 4; 0x40]] [0x81; 0x01; 0x43] [5; 6; 7; 8]).
    split; reflexivity.
  - reflexivity.
  - left. reflexivity.
  - reflexivity.
  - vm_compute. discriminate.
  - reflexivity.
  - vm_compute. discriminate.
  - reflexivity.
  - reflexivity.
  - simpl. lia.
Defined.

(** * The Web API client's exchange *)

(** X22.  [Client.do] and [openConnection] give the same API errors and
    Slack errors.  For the same answer of the transport, and whatever the
    caller of [Client.do] decodes the body into, [Client.do] returns an API
    error (status outside 2xx) or a Slack error ([ok] false) exactly when
    [openConnection] returns it, and it is the same error; and an answer from
    which [openConnection] takes a URL is no error for [Client.do] when the
    caller decodes nothing. *)
Theorem X22_do_agrees_with_openConnection
    (newRequest : URL -> option error) (do : URL -> result httpResponse)
    (json_object : string -> result (gmap string string))
    (json_bool : string -> result bool) (json_string : string -> result string)
    (base : option URL) endpoint resp :
  resolveSlackMethodURL base "apps.connections.open" = inl endpoint ->
  newRequest endpoint = None ->
  do endpoint = inl resp ->
  (forall out e,
     isAnswer e = true ->
     (Client_do json_object json_bool json_string (inl resp) out = Some e
      <-> openConnection newRequest do json_object json_bool json_string base = inr e))
  /\ (forall url,
        openConnection newRequest do json_object json_bool json_string base = inl url ->
        Client_do json_object json_bool json_string (inl resp) None = None).
Proof.
  intros Hr Hn Hd. unfold openConnection, Client_do. rewrite Hr, Hn, Hd.
  destruct ((StatusCode resp <? 200) || (StatusCode resp >=? 300)).
  { split; [|discriminate]. intros out e _. split; intros [= <-]; reflexivity. }
  destruct (Body resp) as [body|err].
  { destruct (String.length body =? 0)%nat.
    { split; [|discriminate]. intros out e He.
      split; [discriminate | intros [= <-]; discriminate He]. }
    destruct (json_object body) as [raw|err].
    2:{ split; [|discriminate]. intros out e He. split.
        - destruct out as [decode|]; [|discriminate].
          destruct (decode body); [|discriminate]. intros [= <-]. discriminate He.
        - intros [= <-]. discriminate He. }
    assert (Hout : forall (out : option (string -> option error)) e,
               isAnswer e = true ->
               match out with
               | Some decode =>
                   match decode body with
                   | Some err => Some (openFailed (wrapError "slack: decode response" err))
                   | None => None
                   end
               | None => None
               end <> Some e).
    { intros [decode|] e He; [|discriminate].
      destruct (decode body); [|discriminate]. intros [= <-]. discriminate He. }
    assert (Hurl : forall e,
               isAnswer e = true ->
               (if String.eqb (TrimSpace (rawString json_string raw "url")) ""
                then inr (openFailed
                            (errorString
                               "slack: apps.connections.open did not return socket URL"))
                else inl (rawString json_string raw "url"))
               <> (inr e : string + openError)).
    { intros e He. destruct (String.eqb _ _); [|discriminate].
      intros [= <-]. discriminate He. }
    destruct (raw !! "ok"%string) as [okRaw|].
    2:{ split; [|reflexivity]. intros out e He.
        split; intros E; [now apply Hout in E | now apply Hurl in E]. }
    destruct (json_bool okRaw) as [[|]|err]; simpl.
    - split; [|reflexivity]. intros out e He.
      split; intros E; [now apply Hout in E | now apply Hurl in E].
    - split; [|discriminate]. intros out e _. split; intros [= <-]; reflexivity.
    - split; [|reflexivity]. intros out e He.
      split; intros E; [now apply Hout in E | now apply Hurl in E]. }
  split; [|discriminate]. intros out e He.
  split; intros [= <-]; discriminate He.
Qed.

(** A rejection is the same Slack error for both, and the accepted answer is
    no error for [Client.do]. *)
Lemma X22_do_agrees_with_openConnection_witness :
  openConnection (fun _ => None) (answering200 "rejected")
    exampleObject exampleBool inl slackBase
  = inr (openSlackError "invalid_auth" "" "" "")
  /\ Client_do exampleObject exampleBool inl
       (inl {| StatusCode := 200; Body := inl "accepted"%string |}) None = None.
Proof.
  split.
  - apply (proj1 (X22_do_agrees_with_openConnection (fun _ => None)
                    (answering200 "rejected") exampleObject exampleBool inl slackBase
                    slackOpenEndpoint
                    {| StatusCode := 200; Body := inl "rejected"%string |}
                    eq_refl eq_refl eq_refl) None
                 (openSlackError "invalid_auth" "" "" "") eq_refl).
    vm_compute. reflexivity.
  - apply (proj2 (X22_do_agrees_with_openConnection (fun _ => None)
                    (answering200 "accepted") exampleObject exampleBool inl slackBase
                    slackOpenEndpoint
                    {| StatusCode := 200; Body := inl "accepted"%string |}
                    eq_refl eq_refl eq_refl) "wss://socket.example/link"%string).
    vm_compute. reflexivity.
Defined.
